(** * mahabudget: the informal-text-to-transaction extraction engine

    A shallow embedding of [services/accountant.py] (chat path) and of
    [services/scanner.py] (receipt path), with the properties of the
    natural-language specification stated and settled against it.

    Modelling conventions.
    - Python [str] is [string]: a sequence of 8-bit characters.  Character
      classes ([\d], [\s], [\w]), [str.lower] and [str.strip] are those of
      Python on the ASCII range; characters above 127 are opaque symbols
      (neither letters, digits nor white space, unchanged by [lower]).
    - Python [int] is [Z]; Python [float] is IEEE-754 binary64, taken from
      the standard library's [spec_float] with [prec = 53], [emax = 1024].
    - Code that can raise returns a [result]; [try]/[except] is a match on it.
    - Interpreter resource limits (recursion depth, the digit-count limit of
      [int]/[str] conversions) are not modelled. *)

From Stdlib Require Import ZArith Bool List Lia Ascii String.
From Stdlib Require Import Floats.SpecFloat.
From Stdlib Require Import DecimalString DecimalPos.
Import ListNotations.
Set Warnings "-register-all".
Open Scope string_scope.
Open Scope Z_scope.

(** ** Text *)

Module Text.

Definition code (c : ascii) : N := N_of_ascii c.

Definition in_range (lo hi : N) (c : ascii) : bool :=
  (N.leb lo (code c) && N.leb (code c) hi)%bool.

Definition is_digit (c : ascii) : bool := in_range 48 57 c.
Definition is_upper (c : ascii) : bool := in_range 65 90 c.
Definition is_lower (c : ascii) : bool := in_range 97 122 c.
Definition is_alpha (c : ascii) : bool := (is_upper c || is_lower c)%bool.

(** [\w] of module [re]: letters, digits and the underscore. *)
Definition is_word (c : ascii) : bool :=
  (is_alpha c || is_digit c || N.eqb (code c) 95)%bool.

(** White space of [str.strip], [str.isspace] and [\s]:
    TAB, LF, VT, FF, CR, FS, GS, RS, US and the blank. *)
Definition is_space (c : ascii) : bool :=
  (in_range 9 13 c || in_range 28 32 c)%bool.

Definition lower_char (c : ascii) : ascii :=
  if is_upper c then ascii_of_N (code c + 32) else c.

(** [str.lower] *)
Fixpoint lower (s : string) : string :=
  match s with
  | EmptyString => EmptyString
  | String c s' => String (lower_char c) (lower s')
  end.

Fixpoint lstrip (s : string) : string :=
  match s with
  | String c s' => if is_space c then lstrip s' else s
  | EmptyString => EmptyString
  end.

(** [rstrip] returns the text without its trailing white space: a
    character is kept when it is not a blank or something is kept after it. *)
Fixpoint rstrip (s : string) : string :=
  match s with
  | EmptyString => EmptyString
  | String c s' =>
      match rstrip s' with
      | EmptyString => if is_space c then EmptyString else String c EmptyString
      | r => String c r
      end
  end.

(** [str.strip] *)
Definition strip (s : string) : string := rstrip (lstrip s).

(** [w in s] for two strings: [w] occurs in [s] as a contiguous run. *)
Fixpoint contains (w s : string) : bool :=
  (prefix w s ||
   match s with
   | EmptyString => false
   | String _ s' => contains w s'
   end)%bool.

(** [s.find(c)] for a single character: index of the first occurrence. *)
Fixpoint find_char (c : ascii) (s : string) : option nat :=
  match s with
  | EmptyString => None
  | String a s' =>
      if Ascii.eqb a c then Some O
      else option_map S (find_char c s')
  end.

Fixpoint skipn (n : nat) (s : string) : string :=
  match n, s with
  | O, _ => s
  | S n', String _ s' => skipn n' s'
  | S _, EmptyString => EmptyString
  end.

Fixpoint firstn (n : nat) (s : string) : string :=
  match n, s with
  | S n', String c s' => String c (firstn n' s')
  | _, _ => EmptyString
  end.

Fixpoint forallb (p : ascii -> bool) (s : string) : bool :=
  match s with
  | EmptyString => true
  | String c s' => (p c && forallb p s')%bool
  end.

Fixpoint existsb (p : ascii -> bool) (s : string) : bool :=
  match s with
  | EmptyString => false
  | String c s' => (p c || existsb p s')%bool
  end.

End Text.

(** ** Exceptions and results *)

Inductive exn : Type :=
| ValueError
| TypeError
| AttributeError
| OverflowError
| JSONDecodeError     (* subclass of ValueError *)
| ValidationError     (* pydantic's, subclass of ValueError *)
| APIError.           (* anything the remote client raises *)

Inductive result (A : Type) : Type :=
| Ok (a : A)
| Raise (e : exn).
Arguments Ok {A} a.
Arguments Raise {A} e.

Definition bind {A B : Type} (r : result A) (k : A -> result B) : result B :=
  match r with
  | Ok a => k a
  | Raise e => Raise e
  end.

Notation "x <- r ;; k" := (bind r (fun x => k))
  (at level 61, r at next level, right associativity).

(** [isinstance(e, ValueError)] *)
Definition is_ValueError (e : exn) : bool :=
  match e with
  | ValueError | JSONDecodeError | ValidationError => true
  | _ => false
  end.

Definition is_TypeError (e : exn) : bool :=
  match e with TypeError => true | _ => false end.

(** ** Floats (binary64) *)

Module PyFloat.

Definition prec : Z := 53.
Definition emax : Z := 1024.
Definition float := spec_float.

(** The double nearest to [m * 10^e10] (ties to even), as [float()] and the
    reader of literals compute it; [neg] is the sign. *)
Definition of_decimal (neg : bool) (m : Z) (e10 : Z) : float :=
  match m with
  | Zpos p =>
      if 0 <=? e10
      then binary_round prec emax neg (Z.to_pos (Zpos p * 10 ^ e10)) 0
      else SFdiv prec emax (S754_finite neg p 0)
                           (S754_finite false (Z.to_pos (10 ^ (- e10))) 0)
  | _ => S754_zero neg
  end.

(** [int(x)] for a float: truncation toward zero; fails on NaN and on the
    infinities. *)
Definition to_int (x : float) : result Z :=
  match x with
  | S754_zero _ => Ok 0
  | S754_finite s m e =>
      let a := if 0 <=? e then Zpos m * 2 ^ e else Zpos m / 2 ^ (- e) in
      Ok (if s then - a else a)
  | S754_infinity _ => Raise OverflowError
  | S754_nan => Raise ValueError
  end.

(** [float(n)] for an integer: nearest double, [OverflowError] beyond the
    largest one. *)
Definition of_int (n : Z) : result float :=
  match binary_normalize prec emax n 0 false with
  | S754_infinity _ => Raise OverflowError
  | f => Ok f
  end.

Definition mul : float -> float -> float := SFmul prec emax.
Definition leb : float -> float -> bool := SFleb.
Definition eqb : float -> float -> bool := SFeqb.

(** Truth value of a float: false exactly for the two zeros. *)
Definition truthy (x : float) : bool :=
  match x with S754_zero _ => false | _ => true end.

End PyFloat.

Import Text.

(** ** Regular expressions (module [re])

    The fragment of Python's [re] that the two services use, with the
    matching order of its backtracking engine: alternatives left to right,
    repetitions greedy, the first success wins.  Repetition is only ever
    applied to a character class in the patterns of this repository. *)

Module Re.

Inductive cls : Type :=
| CDigit                 (* \d *)
| CSpace                 (* \s *)
| CAny                   (* [\s\S] *)
| COneOf (s : string)    (* [abc] *)
| CNot (c : ascii).      (* [^c] *)

Inductive re : Type :=
| Lit (s : string)              (* literal text *)
| Set_ (k : cls)                (* one character of a class *)
| Rep (k : cls) (min : nat)     (* k{min,}: k* is min 0, k+ is min 1 *)
| Seq (r1 r2 : re)
| Alt (r1 r2 : re)              (* r1|r2 *)
| Opt (r : re)                  (* r? *)
| Grp (i : nat) (r : re)        (* capturing group number i *)
| Bol                           (* ^ *)
| Eol                           (* $ *)
| Wordb.                        (* \b *)

(** [(w|w1|...|wn)] without the group. *)
Fixpoint any_of (w : string) (ws : list string) : re :=
  match ws with
  | [] => Lit w
  | w1 :: ws' => Alt (Lit w) (any_of w1 ws')
  end.

Definition char_eq (ic : bool) (a b : ascii) : bool :=
  if ic then Ascii.eqb (lower_char a) (lower_char b) else Ascii.eqb a b.

Definition cls_match (ic : bool) (k : cls) (c : ascii) : bool :=
  match k with
  | CDigit => is_digit c
  | CSpace => is_space c
  | CAny => true
  | COneOf s => Text.existsb (char_eq ic c) s
  | CNot x => negb (char_eq ic c x)
  end.

(** Matcher state: the character before the cursor, the text after it, the
    number of characters consumed since the start of the match and the
    groups captured so far (latest first). *)
Record st : Type := mk_st {
  prev : option ascii;
  rest : string;
  used : nat;
  caps : list (nat * string)
}.

Definition word_at (o : option ascii) : bool :=
  match o with Some c => is_word c | None => false end.

Definition next (s : string) : option ascii :=
  match s with String c _ => Some c | EmptyString => None end.

Definition step (c : ascii) (r' : string) (s : st) : st :=
  mk_st (Some c) r' (S (used s)) (caps s).

Section Matcher.
Variable ic : bool.   (* re.IGNORECASE *)

Fixpoint lit (w : string) (s : st) : list st :=
  match w with
  | EmptyString => [s]
  | String a w' =>
      match rest s with
      | String c r' => if char_eq ic c a then lit w' (step c r' s) else []
      | EmptyString => []
      end
  end.

(** The states after [k{min,}], longest run first. *)
Fixpoint rep (k : cls) (min : nat) (r : string) (s : st) {struct r}
  : list st :=
  let stop := match min with O => [s] | S _ => [] end in
  match r with
  | String c r' =>
      if cls_match ic k c
      then rep k (Nat.pred min) r' (step c r' s) ++ stop
      else stop
  | EmptyString => stop
  end.

(** [ends r s]: every state in which a match of [r] begun in [s] can
    end, in the order in which the backtracking engine tries them. *)
Fixpoint ends (r : re) (s : st) : list st :=
  match r with
  | Lit w => lit w s
  | Set_ k =>
      match rest s with
      | String c r' => if cls_match ic k c then [step c r' s] else []
      | EmptyString => []
      end
  | Rep k min => rep k min (rest s) s
  | Seq r1 r2 => flat_map (ends r2) (ends r1 s)
  | Alt r1 r2 => ends r1 s ++ ends r2 s
  | Opt r1 => ends r1 s ++ [s]
  | Grp i r1 =>
      map (fun s' => mk_st (prev s') (rest s') (used s')
                       ((i, firstn (used s' - used s) (rest s)) :: caps s'))
          (ends r1 s)
  | Bol => match prev s with None => [s] | Some _ => [] end
  | Eol =>
      match rest s with
      | EmptyString => [s]
      | String c EmptyString => if Ascii.eqb c "010" then [s] else []
      | _ => []
      end
  | Wordb =>
      if xorb (word_at (prev s)) (word_at (next (rest s))) then [s] else []
  end.

(** The match found with the cursor before [s], [p] being the character
    in front of it: its length and its groups. *)
Definition match_at (r : re) (p : option ascii) (s : string)
  : option (nat * list (nat * string)) :=
  match ends r (mk_st p s O []) with
  | s' :: _ => Some (used s', caps s')
  | [] => None
  end.

(** [re.search]: the leftmost match, as (start, length, groups). *)
Fixpoint search_from (r : re) (p : option ascii) (s : string) (i : nat)
  : option (nat * nat * list (nat * string)) :=
  match match_at r p s with
  | Some (n, cs) => Some (i, n, cs)
  | None =>
      match s with
      | String c s' => search_from r (Some c) s' (S i)
      | EmptyString => None
      end
  end.

(** [re.sub] with a function as replacement: every leftmost
    non-overlapping match is replaced by [f groups].  After a match of
    length [n] the next [n] characters are skipped; an empty match would
    emit its replacement and copy one character (no pattern of this
    repository matches the empty text). *)
Fixpoint sub_go (r : re) (f : list (nat * string) -> string)
         (p : option ascii) (s : string) (skip : nat) : string :=
  match skip with
  | S k =>
      match s with
      | String c s' => sub_go r f (Some c) s' k
      | EmptyString => EmptyString
      end
  | O =>
      match match_at r p s with
      | Some (n, cs) =>
          f cs ++
          match s with
          | String c s' =>
              match n with
              | O => String c (sub_go r f (Some c) s' O)
              | S k => sub_go r f (Some c) s' k
              end
          | EmptyString => EmptyString
          end
      | None =>
          match s with
          | String c s' => String c (sub_go r f (Some c) s' O)
          | EmptyString => EmptyString
          end
      end
  end.
End Matcher.

(** A found match, as the methods of a match object. *)
Record found : Type := mk_found {
  start : nat;
  len : nat;
  groups : list (nat * string);
  whole : string              (* m.group() *)
}.

Definition search (ic : bool) (r : re) (s : string) : option found :=
  match search_from ic r None s O with
  | Some (i, n, cs) => Some (mk_found i n cs (firstn n (skipn i s)))
  | None => None
  end.

Definition sub (ic : bool) (r : re)
           (f : list (nat * string) -> string) (s : string) : string :=
  sub_go ic r f None s O.

(** [m.group(i)] for a group that took part in the match. *)
Fixpoint group (i : nat) (cs : list (nat * string)) : string :=
  match cs with
  | [] => EmptyString
  | (j, w) :: cs' => if Nat.eqb i j then w else group i cs'
  end.

Definition found_b (o : option found) : bool :=
  match o with Some _ => true | None => false end.

End Re.

(** ** Integers and their decimal text *)


Definition digit_val (c : ascii) : Z := Z.of_N (code c) - 48.

Fixpoint int_of_digits_acc (acc : Z) (s : string) : Z :=
  match s with
  | EmptyString => acc
  | String c s' => int_of_digits_acc (10 * acc + digit_val c) s'
  end.

(** [int(s)] for a text made of decimal digits only (a [\d+] group). *)
Definition int_of_digits (s : string) : Z := int_of_digits_acc 0 s.

(** [str(n)] for an integer. *)
Definition str_of_int (n : Z) : string := NilEmpty.string_of_int (Z.to_int n).

(** A text with apostrophes in the place of double quotes, to write JSON
    samples. *)
Definition dquote : ascii := "034".
Fixpoint js (s : string) : string :=
  match s with
  | EmptyString => EmptyString
  | String c s' => String (if Ascii.eqb c "'" then dquote else c) (js s')
  end.

(** ** models/expense.py *)

Inductive EmotionLabel : Type := MARAH | SEDIH | SENANG | LAPAR | STRESS | NETRAL.

Inductive ExpenseCategory : Type :=
| MAKANAN_MINUMAN | TRANSPORT | FASHION | HIBURAN | BELANJA | TAGIHAN | LAINNYA.

Definition EmotionLabel_eqb (a b : EmotionLabel) : bool :=
  match a, b with
  | MARAH, MARAH | SEDIH, SEDIH | SENANG, SENANG
  | LAPAR, LAPAR | STRESS, STRESS | NETRAL, NETRAL => true
  | _, _ => false
  end.

Record ExpenseExtraction : Type := mkExpenseExtraction {
  item_name : string;
  amount : Z;
  category : ExpenseCategory;
  emotion : EmotionLabel;
  sentiment_score : PyFloat.float;
  ai_confidence : PyFloat.float
}.

Definition f_zero : PyFloat.float := S754_zero false.
Definition f_one : PyFloat.float := PyFloat.of_decimal false 1 0.
Definition f_minus_one : PyFloat.float := PyFloat.of_decimal true 1 0.

(** The constructor of the pydantic model with its [Field] constraints:
    [amount >= 0], [-1.0 <= sentiment_score <= 1.0],
    [0.0 <= ai_confidence <= 1.0].  The arguments arrive with the types the
    callers give them, so only the bounds can fail. *)
Definition ExpenseExtraction_new (name : string) (amt : Z)
           (cat : ExpenseCategory) (emo : EmotionLabel)
           (sent conf : PyFloat.float) : result ExpenseExtraction :=
  if ((0 <=? amt)
      && PyFloat.leb f_minus_one sent && PyFloat.leb sent f_one
      && PyFloat.leb f_zero conf && PyFloat.leb conf f_one)%bool
  then Ok (mkExpenseExtraction name amt cat emo sent conf)
  else Raise ValidationError.

(** ** services/accountant.py: the local classifiers *)

Import Re.

Definition D1 : re := Rep CDigit 1.      (* \d+ *)
Definition S0 : re := Rep CSpace 0.      (* \s* *)

Definition casual_patterns : list re :=
  [ Seq Bol (Seq (Grp 1 (any_of "hai" ["halo"; "hi"; "hey"; "yo"])) Wordb);
    Seq Bol (Seq (Grp 1 (any_of "oke" ["ok"; "siap"; "mantap"; "nice"; "wkwk";
                                        "haha"; "lol"; "wkwkwk"])) Wordb);
    Seq Bol (Grp 1 (any_of "makasih" ["thanks"; "thx"; "terima kasih"]));
    Seq Bol (Grp 1 (any_of "iya" ["yoi"; "yup"; "yes"; "ya"; "bener"; "betul"]));
    Seq Bol (Grp 1 (any_of "ga" ["gak"; "nggak"; "tidak"; "no"; "nope"]));
    Seq Bol (Grp 1 (any_of "kenyang" ["puas"; "enak"; "mantul"; "mantep"]));
    Seq Bol (Seq (Grp 1 (any_of "mahal" ["murah"]))
            (Seq S0 (Seq (Opt (Grp 2 (any_of "bgt" ["banget"; "amat"]))) Eol)));
    Alt (Seq Bol (Lit "gimana")) (Alt (Lit "bagaimana") (Lit "apa kabar"));
    Seq Bol (Seq (Grp 1 (any_of "sedih" ["seneng"; "senang"; "kesel"; "marah"]))
            (Seq S0 (Seq (Opt (Grp 2 (any_of "bgt" ["banget"]))) Eol)));
    Lit "mana ada" ].

Definition money_patterns : list re :=
  [ Seq D1 (Seq S0 (Set_ (COneOf "kr")));
    Seq D1 (Seq S0 (Lit "rb"));
    Seq D1 (Seq S0 (Lit "ribu"));
    Seq D1 (Seq S0 (Lit "jt"));
    Seq D1 (Seq S0 (Lit "juta"));
    Rep CDigit 4;
    Grp 1 (any_of "beli" ["bayar"; "abis"; "habis"; "keluar"; "spend"]);
    Grp 1 (any_of "harga" ["biaya"; "ongkir"; "ongkos"]) ].

(** The loop [for pattern in money_patterns: if re.search(...): return True]. *)
Definition has_money_indicator (message : string) : bool :=
  List.existsb (fun pattern => found_b (search false pattern (lower message)))
               money_patterns.

(** The loop over [casual_patterns]: [Some b] when an iteration returns [b],
    [None] when the loop runs to its end. *)
Fixpoint casual_loop (patterns : list re) (message_lower : string)
  : option bool :=
  match patterns with
  | [] => None
  | pattern :: patterns' =>
      if found_b (search false pattern message_lower)
      then if has_money_indicator message_lower then Some true else Some false
      else casual_loop patterns' message_lower
  end.

Definition has_expense_pattern (message : string) : bool :=
  let message_lower := strip (lower message) in
  if (String.length message_lower <? 5)%nat then false
  else match casual_loop casual_patterns message_lower with
       | Some b => b
       | None => has_money_indicator message_lower
       end.

Definition anger_words : list string :=
  ["anjing"; "anjir"; "bangsat"; "babi"; "kesel"; "kesal";
   "emosi"; "bete"; "bt"; "marah"; "goblok"; "tolol"; "kampret";
   "sialan"; "sial"; "nyebelin"; "sebel"; "jengkel"].

Definition sad_words : list string :=
  ["sedih"; "nyesel"; "menyesal"; "kecewa"; "galau"; "nangis";
   "sakit hati"; "patah hati"; "gagal"; "rugi"; "boros"].

Definition happy_words : list string :=
  ["seneng"; "senang"; "happy"; "yey"; "yeay"; "hore"; "asik";
   "mantap"; "mantul"; "keren"; "seru"; "bagus"; "puas"; "worth"].

Definition stress_words : list string :=
  ["stress"; "stres"; "capek"; "cape"; "lelah"; "pusing";
   "mumet"; "ribet"; "deadline"; "lembur"; "overtime"; "sibuk"].

Definition hunger_words : list string :=
  ["lapar"; "laper"; "hungry"; "pengen makan"; "kelaparan"].

(** The float literals of the detector. *)
Definition f_m06 : PyFloat.float := PyFloat.of_decimal true 6 (-1).   (* -0.6 *)
Definition f_m05 : PyFloat.float := PyFloat.of_decimal true 5 (-1).   (* -0.5 *)
Definition f_m04 : PyFloat.float := PyFloat.of_decimal true 4 (-1).   (* -0.4 *)
Definition f_07 : PyFloat.float := PyFloat.of_decimal false 7 (-1).   (* 0.7 *)
Definition f_01 : PyFloat.float := PyFloat.of_decimal false 1 (-1).   (* 0.1 *)

(** [for word in words: if word in message_lower: return ...] reaches its
    [return] exactly when some word of the list occurs in the text. *)
Definition any_word_in (words : list string) (message_lower : string) : bool :=
  List.existsb (fun word => contains word message_lower) words.

Definition detect_emotion_from_text (message : string)
  : EmotionLabel * PyFloat.float :=
  let message_lower := lower message in
  if any_word_in anger_words message_lower then (MARAH, f_m06)
  else if any_word_in sad_words message_lower then (SEDIH, f_m05)
  else if any_word_in stress_words message_lower then (STRESS, f_m04)
  else if any_word_in happy_words message_lower then (SENANG, f_07)
  else if any_word_in hunger_words message_lower then (LAPAR, f_01)
  else (NETRAL, f_zero).

(** ** services/accountant.py: amounts *)

(** [(\d+)\s*<suffix>\b] *)
Definition amount_with (suffix : string) : re :=
  Seq (Grp 1 D1) (Seq S0 (Seq (Lit suffix) Wordb)).

(** [(\d+)[.,](\d+)\s*<suffix>\b] *)
Definition decimal_with (suffix : re) : re :=
  Seq (Grp 1 D1) (Seq (Set_ (COneOf ".,")) (Seq (Grp 2 D1)
    (Seq S0 (Seq suffix Wordb)))).

Definition f_million : PyFloat.float := PyFloat.of_decimal false 1000000 0.

(** [int(x)] where [x] is known to be finite: the truncation of [to_int],
    zero standing for the cases in which [int] would raise. *)
Definition trunc (x : PyFloat.float) : Z :=
  match PyFloat.to_int x with Ok z => z | Raise _ => 0 end.

(** The inner function of [normalize_amount_string].  [decimal_val] is the
    double nearest to [0.<decimal_str>], at most one, so that the product
    is finite and [int] cannot raise on it. *)
Definition replace_million_decimal (g : list (nat * string)) : string :=
  let whole := int_of_digits (group 1 g) in
  let decimal_str := group 2 g in
  let multiplier := 1000000 in
  let val := whole * multiplier in
  let val :=
    match decimal_str with
    | EmptyString => val
    | _ =>
        let decimal_val :=
          PyFloat.of_decimal false (int_of_digits decimal_str)
                             (- Z.of_nat (String.length decimal_str)) in
        val + trunc (PyFloat.mul decimal_val f_million)
    end in
  str_of_int val.

Definition times (k : Z) (g : list (nat * string)) : string :=
  str_of_int (int_of_digits (group 1 g) * k).

Definition normalize_patterns : list (re * (list (nat * string) -> string)) :=
  [ (amount_with "k", times 1000);
    (amount_with "rb", times 1000);
    (amount_with "ribu", times 1000);
    (decimal_with (Lit "jt"), replace_million_decimal);
    (decimal_with (Lit "juta"), replace_million_decimal);
    (amount_with "jt", times 1000000);
    (amount_with "juta", times 1000000) ].

Definition normalize_amount_string (text : string) : string :=
  let text := lower text in
  fold_left (fun result '(pattern, replacement) =>
               sub true pattern replacement result)
            normalize_patterns text.

Definition multipliers : list (string * Z) :=
  [("k", 1000); ("rb", 1000); ("ribu", 1000); ("jt", 1000000); ("juta", 1000000)].

(** The loop over [multipliers.items()], in insertion order. *)
Fixpoint suffix_loop (ms : list (string * Z)) (text : string) : option Z :=
  match ms with
  | [] => None
  | (suffix, multiplier) :: ms' =>
      match search false (amount_with suffix) text with
      | Some m => Some (int_of_digits (group 1 (groups m)) * multiplier)
      | None => suffix_loop ms' text
      end
  end.

Definition extract_amount_fallback (text : string) : result (option Z) :=
  let text := lower text in
  match suffix_loop multipliers text with
  | Some v => Ok (Some v)
  | None =>
      match search false (decimal_with (Grp 3 (any_of "jt" ["juta"]))) text with
      | Some m =>
          let g1 := group 1 (groups m) in
          let g2 := group 2 (groups m) in
          let val := PyFloat.of_decimal false (int_of_digits (g1 ++ g2))
                                        (- Z.of_nat (String.length g2)) in
          v <- PyFloat.to_int (PyFloat.mul val f_million) ;;
          Ok (Some v)
      | None =>
          match search false (Grp 1 (Rep CDigit 4)) text with
          | Some m => Ok (Some (int_of_digits (group 1 (groups m))))
          | None => Ok None
          end
      end
  end.

(** ** JSON values and [json.loads]

    The decoder of the [json] module in its default configuration: the
    constants [NaN], [Infinity] and [-Infinity] are accepted, control
    characters inside strings are refused, a repeated key keeps its first
    position and its last value.  An escape [\uXXXX] beyond the 8-bit range
    is kept as an opaque character. *)

Module Json.

Inductive json : Type :=
| JNull
| JBool (b : bool)
| JInt (n : Z)
| JFloat (f : PyFloat.float)
| JStr (s : string)
| JArr (items : list json)
| JObj (fields : list (string * json)).

(** [d[key] = v] *)
Fixpoint dict_set (d : list (string * json)) (key : string) (v : json)
  : list (string * json) :=
  match d with
  | [] => [(key, v)]
  | (k, x) :: d' =>
      if String.eqb k key then (k, v) :: d' else (k, x) :: dict_set d' key v
  end.

Fixpoint dict_get (d : list (string * json)) (key : string) : option json :=
  match d with
  | [] => None
  | (k, x) :: d' => if String.eqb k key then Some x else dict_get d' key
  end.

(** [item.get(key, default)]: only a dict has the method. *)
Definition get (item : json) (key : string) (default : json) : result json :=
  match item with
  | JObj d => Ok (match dict_get d key with Some v => v | None => default end)
  | _ => Raise AttributeError
  end.

(** Truth value of a decoded object. *)
Definition truthy (v : json) : bool :=
  match v with
  | JNull => false
  | JBool b => b
  | JInt n => negb (n =? 0)
  | JFloat f => PyFloat.truthy f
  | JStr s => negb (String.eqb s "")
  | JArr l => match l with [] => false | _ => true end
  | JObj d => match d with [] => false | _ => true end
  end.

(** *** Lexical analysis *)

Inductive token : Type :=
| TLBracket | TRBracket | TLBrace | TRBrace | TComma | TColon
| TString (s : string)
| TAtom (s : string).       (* a number or a constant, not yet read *)

Inductive mode : Type :=
| MNormal
| MAtom (acc : string)                   (* reversed *)
| MString (acc : string)                 (* reversed *)
| MEscape (acc : string)
| MUnicode (acc : string) (todo : nat) (v : N).

Fixpoint rev_onto (s acc : string) : string :=
  match s with
  | EmptyString => acc
  | String c s' => rev_onto s' (String c acc)
  end.
Definition rev (s : string) : string := rev_onto s EmptyString.

Definition is_ws (c : ascii) : bool :=
  (N.eqb (code c) 32 || N.eqb (code c) 9 || N.eqb (code c) 10
   || N.eqb (code c) 13)%bool.

Definition is_atom_char (c : ascii) : bool :=
  (is_alpha c || is_digit c || Ascii.eqb c "+" || Ascii.eqb c "-"
   || Ascii.eqb c ".")%bool.

Definition hex_val (c : ascii) : option N :=
  if is_digit c then Some (code c - 48)%N
  else if in_range 97 102 c then Some (code c - 87)%N
  else if in_range 65 70 c then Some (code c - 55)%N
  else None.

Definition char_of_code_point (v : N) : ascii :=
  if (v <? 256)%N then ascii_of_N v else ascii_of_N (128 + v mod 128).

Definition unescape (c : ascii) : option ascii :=
  if Ascii.eqb c dquote then Some dquote
  else if Ascii.eqb c "\" then Some "\"%char
  else if Ascii.eqb c "/" then Some "/"%char
  else if Ascii.eqb c "b" then Some "008"%char
  else if Ascii.eqb c "f" then Some "012"%char
  else if Ascii.eqb c "n" then Some "010"%char
  else if Ascii.eqb c "r" then Some "013"%char
  else if Ascii.eqb c "t" then Some "009"%char
  else None.

(** A character met outside strings and atoms. *)
Definition normal_char (c : ascii) (toks : list token)
  : result (mode * list token) :=
  if is_ws c then Ok (MNormal, toks)
  else if Ascii.eqb c "[" then Ok (MNormal, TLBracket :: toks)
  else if Ascii.eqb c "]" then Ok (MNormal, TRBracket :: toks)
  else if Ascii.eqb c "{" then Ok (MNormal, TLBrace :: toks)
  else if Ascii.eqb c "}" then Ok (MNormal, TRBrace :: toks)
  else if Ascii.eqb c "," then Ok (MNormal, TComma :: toks)
  else if Ascii.eqb c ":" then Ok (MNormal, TColon :: toks)
  else if Ascii.eqb c dquote then Ok (MString EmptyString, toks)
  else if is_atom_char c then Ok (MAtom (String c EmptyString), toks)
  else Raise JSONDecodeError.

(** Tokens are accumulated in reverse. *)
Fixpoint lex (m : mode) (toks : list token) (s : string)
  : result (list token) :=
  match s with
  | EmptyString =>
      match m with
      | MNormal => Ok (List.rev toks)
      | MAtom acc => Ok (List.rev (TAtom (rev acc) :: toks))
      | _ => Raise JSONDecodeError          (* unterminated string *)
      end
  | String c s' =>
      match m with
      | MNormal =>
          match normal_char c toks with
          | Ok (m', toks') => lex m' toks' s'
          | Raise e => Raise e
          end
      | MAtom acc =>
          if is_atom_char c then lex (MAtom (String c acc)) toks s'
          else match normal_char c (TAtom (rev acc) :: toks) with
               | Ok (m', toks') => lex m' toks' s'
               | Raise e => Raise e
               end
      | MString acc =>
          if Ascii.eqb c dquote then lex MNormal (TString (rev acc) :: toks) s'
          else if Ascii.eqb c "\" then lex (MEscape acc) toks s'
          else if (code c <? 32)%N then Raise JSONDecodeError
          else lex (MString (String c acc)) toks s'
      | MEscape acc =>
          if Ascii.eqb c "u" then lex (MUnicode acc 4 0%N) toks s'
          else match unescape c with
               | Some x => lex (MString (String x acc)) toks s'
               | None => Raise JSONDecodeError
               end
      | MUnicode acc todo v =>
          match hex_val c with
          | Some h =>
              let v' := (16 * v + h)%N in
              match todo with
              | S (S k) => lex (MUnicode acc (S k) v') toks s'
              | _ => lex (MString (String (char_of_code_point v') acc)) toks s'
              end
          | None => Raise JSONDecodeError
          end
      end
  end.

(** *** Numbers and constants *)

(** The longest prefix of [s] made of digits, and what follows it. *)
Fixpoint span_digits (s : string) : string * string :=
  match s with
  | String c s' =>
      if is_digit c
      then let '(d, r) := span_digits s' in (String c d, r)
      else (EmptyString, s)
  | EmptyString => (EmptyString, EmptyString)
  end.

(** The number grammar of the decoder, on the whole atom: an optional
    minus sign, an integer part without a leading zero, an optional
    fraction and an optional exponent. *)
Definition read_number (a : string) : option json :=
  let '(neg, a1) :=
    match a with
    | String "-" r => (true, r)
    | _ => (false, a)
    end in
  let '(ip, a2) := span_digits a1 in
  let int_ok :=
    match ip with
    | EmptyString => false
    | String "0" (String _ _) => false
    | _ => true
    end in
  if negb int_ok then None else
  let '(frac, a3, has_frac, frac_ok) :=
    match a2 with
    | String "." r =>
        let '(f, r') := span_digits r in
        (f, r', true, negb (String.eqb f ""))
    | _ => (EmptyString, a2, false, true)
    end in
  if negb frac_ok then None else
  let '(ex, a4, has_exp, exp_ok) :=
    match a3 with
    | String c r =>
        if (Ascii.eqb c "e" || Ascii.eqb c "E")%bool then
          let '(eneg, r1) :=
            match r with
            | String "-" r' => (true, r')
            | String "+" r' => (false, r')
            | _ => (false, r)
            end in
          let '(d, r2) := span_digits r1 in
          ((if eneg then - int_of_digits d else int_of_digits d), r2, true,
           negb (String.eqb d ""))
        else (0, a3, false, true)
    | EmptyString => (0, a3, false, true)
    end in
  if negb exp_ok then None else
  match a4 with
  | EmptyString =>
      if (has_frac || has_exp)%bool
      then Some (JFloat (PyFloat.of_decimal neg (int_of_digits (ip ++ frac))
                           (ex - Z.of_nat (String.length frac))))
      else Some (JInt (if neg then - int_of_digits ip else int_of_digits ip))
  | _ => None
  end.

Definition read_atom (a : string) : option json :=
  if String.eqb a "null" then Some JNull
  else if String.eqb a "true" then Some (JBool true)
  else if String.eqb a "false" then Some (JBool false)
  else if String.eqb a "NaN" then Some (JFloat S754_nan)
  else if String.eqb a "Infinity" then Some (JFloat (S754_infinity false))
  else if String.eqb a "-Infinity" then Some (JFloat (S754_infinity true))
  else read_number a.

(** *** Syntax analysis, with the open containers on a stack *)

Inductive frame : Type :=
| FArr (items : list json)              (* reversed *)
| FObj (fields : list (string * json))
| FKey (key : string).                  (* a key waiting for its value *)

Inductive expect : Type :=
| EValue            (* a value *)
| EValueOrEnd       (* a value or the bracket closing an empty array *)
| EKeyOrEnd         (* a key or the brace closing an empty object *)
| EKey              (* a key, after a comma *)
| EColon
| ECommaOrEnd       (* a comma or the end of the innermost container *)
| EDone (v : json). (* the document is complete *)

(** A complete value goes into the innermost open container. *)
Definition feed (v : json) (stack : list frame)
  : result (list frame * expect) :=
  match stack with
  | [] => Ok ([], EDone v)
  | FArr items :: st => Ok (FArr (v :: items) :: st, ECommaOrEnd)
  | FKey k :: FObj d :: st => Ok (FObj (dict_set d k v) :: st, ECommaOrEnd)
  | _ => Raise JSONDecodeError
  end.

Definition start_value (t : token) (stack : list frame)
  : result (list frame * expect) :=
  match t with
  | TLBracket => Ok (FArr [] :: stack, EValueOrEnd)
  | TLBrace => Ok (FObj [] :: stack, EKeyOrEnd)
  | TString s => feed (JStr s) stack
  | TAtom a =>
      match read_atom a with
      | Some v => feed v stack
      | None => Raise JSONDecodeError
      end
  | _ => Raise JSONDecodeError
  end.

Definition parse_step (t : token) (stack : list frame) (e : expect)
  : result (list frame * expect) :=
  match e, t, stack with
  | EValue, _, _ => start_value t stack
  | EValueOrEnd, TRBracket, FArr items :: st => feed (JArr (List.rev items)) st
  | EValueOrEnd, _, _ => start_value t stack
  | EKeyOrEnd, TRBrace, FObj d :: st => feed (JObj d) st
  | EKeyOrEnd, TString k, _ => Ok (FKey k :: stack, EColon)
  | EKey, TString k, _ => Ok (FKey k :: stack, EColon)
  | EColon, TColon, _ => Ok (stack, EValue)
  | ECommaOrEnd, TComma, FArr _ :: _ => Ok (stack, EValue)
  | ECommaOrEnd, TRBracket, FArr items :: st => feed (JArr (List.rev items)) st
  | ECommaOrEnd, TComma, FObj _ :: _ => Ok (stack, EKey)
  | ECommaOrEnd, TRBrace, FObj d :: st => feed (JObj d) st
  | _, _, _ => Raise JSONDecodeError
  end.

Fixpoint parse (toks : list token) (stack : list frame) (e : expect)
  : result json :=
  match toks with
  | [] => match e with EDone v => Ok v | _ => Raise JSONDecodeError end
  | t :: toks' =>
      match parse_step t stack e with
      | Ok (stack', e') => parse toks' stack' e'
      | Raise x => Raise x
      end
  end.

(** [json.loads] *)
Definition loads (s : string) : result json :=
  toks <- lex MNormal [] s ;;
  parse toks [] EValue.

(** *** Coercions of decoded objects *)

(** The digits of an [int()] or [float()] argument: single underscores
    are allowed between digits.  Returns the digits without them. *)
Fixpoint digits_us (s : string) (after_digit : bool) : option string :=
  match s with
  | EmptyString => if after_digit then Some EmptyString else None
  | String c s' =>
      if is_digit c then option_map (String c) (digits_us s' true)
      else if (Ascii.eqb c "_" && after_digit)%bool then
        match s' with
        | String d _ => if is_digit d then digits_us s' false else None
        | EmptyString => None
        end
      else None
  end.

Definition split_sign (s : string) : bool * string :=
  match s with
  | String "-" r => (true, r)
  | String "+" r => (false, r)
  | _ => (false, s)
  end.

(** [int(s)] for a string [s] in base ten. *)
Definition int_of_string (s : string) : result Z :=
  let '(neg, body) := split_sign (strip s) in
  match digits_us body false with
  | Some d => Ok (if neg then - int_of_digits d else int_of_digits d)
  | None => Raise ValueError
  end.

(** Splits [s] at the first character satisfying [p]. *)
Fixpoint break (p : ascii -> bool) (s : string) : string * string :=
  match s with
  | String c s' =>
      if p c then (EmptyString, s)
      else let '(a, b) := break p s' in (String c a, b)
  | EmptyString => (EmptyString, EmptyString)
  end.

Definition opt_digits (s : string) : option string :=
  match s with EmptyString => Some EmptyString | _ => digits_us s false end.

(** [float(s)] for a string: an optional sign, then [inf], [infinity] or
    [nan] in any case, or a decimal numeral with an optional exponent. *)
Definition float_of_string (s : string) : result PyFloat.float :=
  let '(neg, body) := split_sign (strip s) in
  let low := lower body in
  if (String.eqb low "inf" || String.eqb low "infinity")%bool
  then Ok (S754_infinity neg)
  else if String.eqb low "nan" then Ok S754_nan
  else
    let '(mant, ex) := break (fun c => Ascii.eqb (lower_char c) "e") body in
    let '(ip, fr) := break (fun c => Ascii.eqb c ".") mant in
    let fr' := match fr with String _ r => r | EmptyString => EmptyString end in
    let e10 :=
      match ex with
      | EmptyString => Some 0
      | String _ r =>
          let '(eneg, d) := split_sign r in
          option_map (fun d => if eneg then - int_of_digits d
                               else int_of_digits d)
                     (digits_us d false)
      end in
    match opt_digits ip, opt_digits fr', e10 with
    | Some i, Some f, Some e =>
        if (String.eqb i "" && String.eqb f "")%bool then Raise ValueError
        else Ok (PyFloat.of_decimal neg (int_of_digits (i ++ f))
                                    (e - Z.of_nat (String.length f)))
    | _, _, _ => Raise ValueError
    end.

(** [int(v)] *)
Definition to_int (v : json) : result Z :=
  match v with
  | JInt n => Ok n
  | JBool b => Ok (if b then 1 else 0)
  | JFloat f => PyFloat.to_int f
  | JStr s => int_of_string s
  | _ => Raise TypeError
  end.

(** [float(v)] *)
Definition to_float (v : json) : result PyFloat.float :=
  match v with
  | JInt n => PyFloat.of_int n
  | JBool b => Ok (if b then f_one else f_zero)
  | JFloat f => Ok f
  | JStr s => float_of_string s
  | _ => Raise TypeError
  end.

(** A pydantic [str] field takes a string and nothing else. *)
Definition to_str_field (v : json) : result string :=
  match v with
  | JStr s => Ok s
  | _ => Raise ValidationError
  end.

(** [v.lower()]: only a string has the method. *)
Definition lower_of (v : json) : result string :=
  match v with
  | JStr s => Ok (lower s)
  | _ => Raise AttributeError
  end.

End Json.

Import Json.

(** ** services/accountant.py: the response parser *)

Definition array_pattern : re := Seq (Lit "[") (Seq (Rep CAny 0) (Lit "]")).
Definition object_pattern : re := Seq (Lit "{") (Seq (Rep (CNot "}") 1) (Lit "}")).

(** [try: ... json.loads(text) ... except json.JSONDecodeError: pass]:
    [Ok None] when the decoder refuses the text. *)
Definition try_loads (text : string) : result (option json) :=
  match loads text with
  | Ok v => Ok (Some v)
  | Raise JSONDecodeError => Ok None
  | Raise e => Raise e
  end.

Definition parse_ai_response (response_text : string) : result (list json) :=
  let response_text := strip response_text in
  first <-
    match search false array_pattern response_text with
    | Some array_match =>
        r <- try_loads (whole array_match) ;;
        Ok (match r with Some (JArr l) => Some l | _ => None end)
    | None => Ok None
    end ;;
  match first with
  | Some l => Ok l
  | None =>
      second <-
        match search false object_pattern response_text with
        | Some obj_match =>
            r <- try_loads (whole obj_match) ;;
            Ok (match r with Some (JObj d) => Some [JObj d] | _ => None end)
        | None => Ok None
        end ;;
      match second with
      | Some l => Ok l
      | None => Ok []
      end
  end.

Fixpoint table_get {A : Type} (t : list (string * A)) (key : string) (d : A) : A :=
  match t with
  | [] => d
  | (k, v) :: t' => if String.eqb k key then v else table_get t' key d
  end.

Definition category_map : list (string * ExpenseCategory) :=
  [ ("makanan & minuman", MAKANAN_MINUMAN); ("makanan", MAKANAN_MINUMAN);
    ("minuman", MAKANAN_MINUMAN); ("food", MAKANAN_MINUMAN);
    ("transport", TRANSPORT); ("transportasi", TRANSPORT);
    ("fashion", FASHION); ("pakaian", FASHION);
    ("hiburan", HIBURAN); ("entertainment", HIBURAN);
    ("belanja", BELANJA); ("shopping", BELANJA);
    ("tagihan", TAGIHAN); ("bill", TAGIHAN);
    ("lainnya", LAINNYA); ("other", LAINNYA) ].

Definition map_category (category_str : json) : result ExpenseCategory :=
  k <- lower_of category_str ;;
  Ok (table_get category_map k LAINNYA).

Definition emotion_map : list (string * EmotionLabel) :=
  [ ("marah", MARAH); ("angry", MARAH); ("kesel", MARAH);
    ("sedih", SEDIH); ("sad", SEDIH); ("nyesel", SEDIH);
    ("senang", SENANG); ("happy", SENANG); ("bahagia", SENANG);
    ("lapar", LAPAR); ("hungry", LAPAR);
    ("stress", STRESS); ("stressed", STRESS); ("capek", STRESS);
    ("netral", NETRAL); ("neutral", NETRAL); ("biasa", NETRAL) ].

Definition map_emotion (emotion_str : json) : result EmotionLabel :=
  k <- lower_of emotion_str ;;
  Ok (table_get emotion_map k NETRAL).

(** ** services/accountant.py: the chat extraction entry point *)

(** What the remote completion call gives back: it raises (provider error,
    timeout, a response without choices), or it yields the [content] of the
    first choice, which the client types as an optional string. *)
Inductive remote_outcome : Type :=
| RemoteRaises
| RemoteContent (content : option string).

Definition f_04 : PyFloat.float := PyFloat.of_decimal false 4 (-1).   (* 0.4 *)
Definition f_03 : PyFloat.float := PyFloat.of_decimal false 3 (-1).   (* 0.3 *)
Definition f_07c : PyFloat.float := PyFloat.of_decimal false 7 (-1).  (* 0.7 *)

(** One iteration of the loop over [parsed_items]: [Ok None] is [continue],
    [Ok (Some e)] appends [e]. *)
Definition extract_item (detected_emotion : EmotionLabel)
           (detected_sentiment : PyFloat.float) (item : json)
  : result (option ExpenseExtraction) :=
  amount <- get item "amount" (JInt 0) ;;
  if negb (truthy amount) then Ok None
  else
    emotion_v <- get item "emotion" (JStr "Netral") ;;
    ai_emotion <- map_emotion emotion_v ;;
    final <-
      (if (EmotionLabel_eqb ai_emotion NETRAL
           && negb (EmotionLabel_eqb detected_emotion NETRAL))%bool
       then Ok (detected_emotion, detected_sentiment)
       else
         sentiment_v <- get item "sentiment_score" (JFloat f_zero) ;;
         final_sentiment <- to_float sentiment_v ;;
         Ok (ai_emotion, final_sentiment)) ;;
    name_v <- get item "item_name" (JStr "Unknown Item") ;;
    amount_i <- to_int amount ;;
    category_v <- get item "category" (JStr "Lainnya") ;;
    category_e <- map_category category_v ;;
    confidence_v <- get item "ai_confidence" (JFloat f_07c) ;;
    confidence <- to_float confidence_v ;;
    name <- to_str_field name_v ;;
    e <- ExpenseExtraction_new name amount_i category_e (fst final) (snd final)
                               confidence ;;
    Ok (Some e).

(** The loop [for item in parsed_items], [expenses] being the list built so
    far: the first exception leaves the loop. *)
Fixpoint extract_items (detected_emotion : EmotionLabel)
         (detected_sentiment : PyFloat.float) (parsed_items : list json)
         (expenses : list ExpenseExtraction)
  : result (list ExpenseExtraction) :=
  match parsed_items with
  | [] => Ok expenses
  | item :: rest_items =>
      r <- extract_item detected_emotion detected_sentiment item ;;
      extract_items detected_emotion detected_sentiment rest_items
        (match r with Some e => expenses ++ [e] | None => expenses end)
  end.

(** Truth value of an [Optional[int]]. *)
Definition amount_found (a : option Z) : option Z :=
  match a with
  | Some n => if n =? 0 then None else Some n
  | None => None
  end.

(** The body of the [try] block. *)
Definition extract_try (user_message normalized_message : string)
           (remote : string -> remote_outcome)
  : result (list ExpenseExtraction) :=
  match remote normalized_message with
  | RemoteRaises => Raise APIError
  | RemoteContent content =>
      parsed_items <-
        match content with
        | Some response_text => parse_ai_response response_text
        | None => Raise AttributeError
        end ;;
      match parsed_items with
      | [] =>
          fallback_amt <- extract_amount_fallback user_message ;;
          match amount_found fallback_amt with
          | Some a =>
              e <- ExpenseExtraction_new "Pengeluaran" a LAINNYA NETRAL
                                         f_zero f_04 ;;
              Ok [e]
          | None => Ok []
          end
      | _ =>
          let '(detected_emotion, detected_sentiment) :=
            detect_emotion_from_text user_message in
          extract_items detected_emotion detected_sentiment parsed_items []
      end
  end.

(** The body of [except Exception]. *)
Definition extract_except (user_message : string)
  : result (list ExpenseExtraction) :=
  fallback_amount <- extract_amount_fallback user_message ;;
  match amount_found fallback_amount with
  | Some a =>
      let '(detected_emotion, detected_sentiment) :=
        detect_emotion_from_text user_message in
      e <- ExpenseExtraction_new "Item tidak terdeteksi" a LAINNYA
                                 detected_emotion detected_sentiment f_03 ;;
      Ok [e]
  | None => Ok []
  end.

(** [extract_multiple_expenses]: [Ok l] is the returned list, [Raise e] an
    exception that reaches the caller. *)
Definition extract_multiple_expenses (user_message : string)
           (remote : string -> remote_outcome)
  : result (list ExpenseExtraction) :=
  if negb (has_expense_pattern user_message) then Ok []
  else
    let normalized_message := normalize_amount_string user_message in
    match extract_try user_message normalized_message remote with
    | Ok l => Ok l
    | Raise _ => extract_except user_message
    end.

(** ** services/scanner.py: the receipt text parser *)

Record ReceiptItem : Type := mkReceiptItem {
  name : string;
  quantity : Z;
  price : Z
}.

Record ReceiptData : Type := mkReceiptData {
  store_name : string;
  total_amount : Z;
  date : option string;
  items : list ReceiptItem;
  raw_text : option string
}.

(** [ReceiptData(raw_text=...)]: every other field at its default. *)
Definition ReceiptData_default (raw : string) : ReceiptData :=
  mkReceiptData "Unknown Store" 0 None [] (Some raw).

(** An [Optional[str]] field. *)
Definition to_opt_str_field (v : json) : result (option string) :=
  match v with
  | JNull => Ok None
  | JStr s => Ok (Some s)
  | _ => Raise ValidationError
  end.

(** The loop that counts braces from the first opening one: the number of
    characters up to and including the brace that brings the count back to
    zero, [O] when no brace does ([end_idx] stays at [start_idx]). *)
Fixpoint matching_end (s : string) (bracket_count : Z) (i : nat) : nat :=
  match s with
  | EmptyString => O
  | String char s' =>
      if Ascii.eqb char "{" then matching_end s' (bracket_count + 1) (S i)
      else if Ascii.eqb char "}" then
        if bracket_count - 1 =? 0 then S i
        else matching_end s' (bracket_count - 1) (S i)
      else matching_end s' bracket_count (S i)
  end.

(** What [for item in v] ranges over. *)
Definition iterate (v : json) : result (list json) :=
  match v with
  | JArr l => Ok l
  | JObj d => Ok (map (fun kv => JStr (fst kv)) d)
  | JStr s => Ok (map (fun c => JStr (String c EmptyString))
                      (list_ascii_of_string s))
  | _ => Raise TypeError
  end.

(** The body of the inner [try] for one line item. *)
Definition receipt_item (item : json) : result ReceiptItem :=
  name_v <- get item "name" (JStr "Unknown") ;;
  quantity_v <- get item "quantity" (JInt 1) ;;
  quantity_i <- to_int quantity_v ;;
  price_v <- get item "price" (JInt 0) ;;
  price_i <- to_int price_v ;;
  name_s <- to_str_field name_v ;;
  Ok (mkReceiptItem name_s quantity_i price_i).

(** The loop over the items: [except (ValueError, TypeError): continue]
    skips the item, any other exception leaves the loop. *)
Fixpoint receipt_items (l : list json) (acc : list ReceiptItem)
  : result (list ReceiptItem) :=
  match l with
  | [] => Ok acc
  | item :: l' =>
      match receipt_item item with
      | Ok it => receipt_items l' (acc ++ [it])
      | Raise e =>
          if (is_ValueError e || is_TypeError e)%bool
          then receipt_items l' acc
          else Raise e
      end
  end.

(** The first statement of the outer [try]: [Ok (inl data)] when a JSON text
    was decoded, [Ok (inr r)] for the early [return] without any brace. *)
Definition receipt_json (response_text : string) : result (json + ReceiptData) :=
  match loads (strip response_text) with
  | Ok data => Ok (inl data)
  | Raise JSONDecodeError =>
      match find_char "{" response_text with
      | None => Ok (inr (ReceiptData_default response_text))
      | Some start_idx =>
          let tail := skipn start_idx response_text in
          let json_str := firstn (matching_end tail 0 O) tail in
          data <- loads json_str ;;
          Ok (inl data)
      end
  | Raise e => Raise e
  end.

(** The outer [try] after the decoding. *)
Definition receipt_of_data (data : json) (response_text : string)
  : result ReceiptData :=
  items_v <- get data "items" (JArr []) ;;
  items_l <- iterate items_v ;;
  items <- receipt_items items_l [] ;;
  store_v <- get data "store_name" (JStr "Unknown Store") ;;
  total_v <- get data "total_amount" (JInt 0) ;;
  total <- to_int total_v ;;
  date_v <- get data "date" JNull ;;
  store <- to_str_field store_v ;;
  date_s <- to_opt_str_field date_v ;;
  Ok (mkReceiptData store total date_s items (Some response_text)).

Definition parse_receipt_response (response_text : string) : ReceiptData :=
  let attempt :=
    d <- receipt_json response_text ;;
    match d with
    | inl data => receipt_of_data data response_text
    | inr r => Ok r
    end in
  match attempt with
  | Ok r => r
  | Raise _ => ReceiptData_default response_text
  end.

(** ** models/expense.py: the values of the enumerations and [ExpenseCreate] *)

(** [EmotionLabel.<member>.value] *)
Definition EmotionLabel_value (e : EmotionLabel) : string :=
  match e with
  | MARAH => "Marah"
  | SEDIH => "Sedih"
  | SENANG => "Senang"
  | LAPAR => "Lapar"
  | STRESS => "Stress"
  | NETRAL => "Netral"
  end.

(** [ExpenseCategory.<member>.value] *)
Definition ExpenseCategory_value (c : ExpenseCategory) : string :=
  match c with
  | MAKANAN_MINUMAN => "Makanan & Minuman"
  | TRANSPORT => "Transport"
  | FASHION => "Fashion"
  | HIBURAN => "Hiburan"
  | BELANJA => "Belanja"
  | TAGIHAN => "Tagihan"
  | LAINNYA => "Lainnya"
  end.

(** models/expense.py, [ExpenseCreate]; the date is kept as its ISO text. *)
Module ExpenseCreate.
Record t : Type := mk {
  user_id : Z;
  item_name : string;
  description : option string;
  amount : Z;
  category : string;
  emotion_label : string;
  sentiment_score : PyFloat.float;
  ai_confidence : PyFloat.float;
  receipt_url : option string;
  is_regret : option bool;
  date : option string
}.
End ExpenseCreate.

(** ** services/accountant.py: counting, the single-expense entry point and
    the validation *)

(** [re.findall], as the groups of the leftmost non-overlapping matches;
    the caller takes the length of the list.  After a match of length [n]
    the next [n] characters are skipped (no pattern of the caller matches
    the empty text). *)
Fixpoint findall_go (ic : bool) (r : re) (p : option ascii) (s : string)
         (skip : nat) : list (list (nat * string)) :=
  match skip with
  | S k =>
      match s with
      | String c s' => findall_go ic r (Some c) s' k
      | EmptyString => []
      end
  | O =>
      match match_at ic r p s with
      | Some (n, cs) =>
          cs ::
          match s with
          | String c s' => findall_go ic r (Some c) s' (Nat.pred n)
          | EmptyString => []
          end
      | None =>
          match s with
          | String c s' => findall_go ic r (Some c) s' O
          | EmptyString => []
          end
      end
  end.

Definition findall (ic : bool) (r : re) (s : string)
  : list (list (nat * string)) :=
  findall_go ic r None s O.

(** [\d+\s*(k|rb|ribu|jt|juta)\b] *)
Definition counted_amount : re :=
  Seq D1 (Seq S0 (Seq (Grp 1 (any_of "k" ["rb"; "ribu"; "jt"; "juta"])) Wordb)).

(** [(,|sama|dan|plus|terus|abis itu|trus|\+)] *)
Definition counted_separator : re :=
  Grp 1 (any_of "," ["sama"; "dan"; "plus"; "terus"; "abis itu"; "trus"; "+"]).

Definition count_expense_indicators (message : string) : Z :=
  let message_lower := lower message in
  let money_count :=
    Z.of_nat (List.length (findall false counted_amount message_lower)) in
  let money_count :=
    money_count
    + Z.of_nat (List.length (findall false (Rep CDigit 4) message_lower)) in
  let separators :=
    Z.of_nat (List.length (findall false counted_separator message_lower)) in
  Z.max money_count 1.






(** ** services/scanner.py: the call of the parser model *)

(** [receipt_data.raw_text = text] *)
Definition set_raw_text (r : ReceiptData) (text : string) : ReceiptData :=
  mkReceiptData (store_name r) (total_amount r) (date r) (items r) (Some text).

(** [parse_text_with_accountant]: the remote call is made with the OCR text;
    a response without content makes [response_text[:500]] raise in
    [parse_receipt_response], before its [try]. *)
Definition parse_text_with_accountant (text : string)
           (remote : string -> remote_outcome) : ReceiptData :=
  if String.eqb (strip text) ""
  then ReceiptData_default "No text extracted from image."
  else
    let attempt :=
      match remote text with
      | RemoteRaises => Raise APIError
      | RemoteContent content =>
          receipt_data <-
            match content with
            | Some response_text => Ok (parse_receipt_response response_text)
            | None => Raise TypeError
            end ;;
          Ok (set_raw_text receipt_data text)
      end in
    match attempt with
    | Ok receipt_data => receipt_data
    | Raise _ => ReceiptData_default text
    end.

(** ** routes/chat.py: review requests and the saving of the extractions *)

(** [.*]: any run of characters other than the line feed. *)
Definition any_run : re := Rep (CNot "010") 0.

Definition review_keywords : list re :=
  [ Lit "review";
    Lit "insight";
    Lit "laporan";
    Lit "rangkum";
    Lit "summary";
    Seq (Lit "pengeluaran")
        (Seq any_run (Grp 1 (any_of "bulan" ["minggu"; "hari"])));
    Seq (Lit "berapa")
        (Seq any_run (Grp 1 (any_of "total" ["habis"; "keluar"])));
    Lit "statistik";
    Lit "rekap";
    Seq (Lit "lihat")
        (Seq any_run (Grp 1 (any_of "data" ["pengeluaran"]))) ].

Definition is_review_request (message : string) : bool :=
  let message_lower := lower message in
  List.existsb (fun pattern => found_b (search false pattern message_lower))
               review_keywords.

Section Saving.

(** [supabase_service.create_expense]: the inserted row as a dict, or an
    exception of the client. *)
Variable create_expense : ExpenseCreate.t -> result (list (string * json)).

(** The row built for one extraction; [amount >= 0] of the model holds,
    the constructor being called under [extraction.amount > 0]. *)
Definition expense_row (user_id : Z) (message : string)
           (extraction : ExpenseExtraction) : ExpenseCreate.t :=
  ExpenseCreate.mk user_id (item_name extraction) (Some message)
    (amount extraction)
    (ExpenseCategory_value (category extraction))
    (EmotionLabel_value (emotion extraction))
    (sentiment_score extraction) (ai_confidence extraction)
    None None None.

(** The dict appended to [expense_data_list]. *)
Definition expense_entry (saved : list (string * json))
           (extraction : ExpenseExtraction) : json :=
  JObj [ ("id", match dict_get saved "id" with Some v => v | None => JNull end);
         ("item_name", JStr (item_name extraction));
         ("amount", JInt (amount extraction));
         ("category", JStr (ExpenseCategory_value (category extraction)));
         ("emotion", JStr (EmotionLabel_value (emotion extraction)));
         ("sentiment_score", JFloat (sentiment_score extraction));
         ("ai_confidence", JFloat (ai_confidence extraction)) ].

(** Step 5 of [process_chat_message]: the loop over the extractions, with
    [saved_expenses] and [expense_data_list] as built so far. *)
Fixpoint save_extractions (user_id : Z) (message : string)
         (extractions : list ExpenseExtraction)
         (saved_expenses : list (list (string * json)))
         (expense_data_list : list json)
  : result (list (list (string * json)) * list json) :=
  match extractions with
  | [] => Ok (saved_expenses, expense_data_list)
  | extraction :: extractions' =>
      if 0 <? amount extraction then
        saved <- create_expense (expense_row user_id message extraction) ;;
        save_extractions user_id message extractions'
          (saved_expenses ++ [saved])%list
          (expense_data_list ++ [expense_entry saved extraction])%list
      else
        save_extractions user_id message extractions'
          saved_expenses expense_data_list
  end.

End Saving.

(** * Definitions for the statements *)

(** ** Occurrence of keywords and the ordered rules *)

(** [a occurs in s]: the text [s] reads [pre ++ a ++ post]. *)
Definition occurs (w s : string) : Prop :=
  exists pre post, s = pre ++ w ++ post.

(** Some word of the vocabulary occurs in the text. *)
Definition some_occurs (words : list string) (s : string) : Prop :=
  exists w, In w words /\ occurs w s.

(** The detector as the specification words it: rules of a vocabulary and
    a result, tried in order, the first vocabulary with a word in the text
    giving the result, Neutral when none has one. *)
Definition emotion_rules : list (list string * (EmotionLabel * PyFloat.float)) :=
  [ (anger_words, (MARAH, f_m06));
    (sad_words, (SEDIH, f_m05));
    (stress_words, (STRESS, f_m04));
    (happy_words, (SENANG, f_07));
    (hunger_words, (LAPAR, f_01)) ].

Inductive picks : list (list string * (EmotionLabel * PyFloat.float)) ->
                  string -> EmotionLabel * PyFloat.float -> Prop :=
| picks_none t : picks [] t (NETRAL, f_zero)
| picks_hit words out rules t :
    some_occurs words t -> picks ((words, out) :: rules) t out
| picks_skip words out rules t r :
    ~ some_occurs words t -> picks rules t r ->
    picks ((words, out) :: rules) t r.


(** ** Cursors of the matcher *)

Module ReSem.

(** A position in a text: the character before the cursor and the text
    after it.  Whether and where a pattern matches depends on the
    position only, not on the groups or on the length consumed so far. *)
Definition pos : Type := (option ascii * string)%type.
Definition pos_of (s : st) : pos := (prev s, rest s).

Section Positions.
Variable ic : bool.

Fixpoint plit (w : string) (x : pos) : list pos :=
  match w with
  | EmptyString => [x]
  | String a w' =>
      match snd x with
      | String c r' => if char_eq ic c a then plit w' (Some c, r') else []
      | EmptyString => []
      end
  end.

Fixpoint prep (k : cls) (min : nat) (r : string) (x : pos) {struct r}
  : list pos :=
  let stop := match min with O => [x] | S _ => [] end in
  match r with
  | String c r' =>
      if cls_match ic k c
      then prep k (Nat.pred min) r' (Some c, r') ++ stop
      else stop
  | EmptyString => stop
  end.

Fixpoint pends (r : re) (x : pos) : list pos :=
  match r with
  | Lit w => plit w x
  | Set_ k =>
      match snd x with
      | String c r' => if cls_match ic k c then [(Some c, r')] else []
      | EmptyString => []
      end
  | Rep k min => prep k min (snd x) x
  | Seq r1 r2 => flat_map (pends r2) (pends r1 x)
  | Alt r1 r2 => pends r1 x ++ pends r2 x
  | Opt r1 => pends r1 x ++ [x]
  | Grp _ r1 => pends r1 x
  | Bol => match fst x with None => [x] | Some _ => [] end
  | Eol =>
      match snd x with
      | EmptyString => [x]
      | String c EmptyString => if Ascii.eqb c "010" then [x] else []
      | _ => []
      end
  | Wordb =>
      if xorb (word_at (fst x)) (word_at (next (snd x))) then [x] else []
  end.

End Positions.

(** [later x y]: the cursor [y] is reached from [x] by moving right. *)
Inductive later : pos -> pos -> Prop :=
| later_here x : later x x
| later_next p c s y : later (Some c, s) y -> later (p, String c s) y.

Fixpoint last_char (w : string) (d : option ascii) : option ascii :=
  match w with
  | EmptyString => d
  | String c w' => last_char w' (Some c)
  end.

(** The state after the text [w] has been consumed, [r] being left. *)
Definition after (w r : string) (s : st) : st :=
  mk_st (last_char w (prev s)) r (used s + String.length w) (caps s).

Fixpoint no_group (r : re) : bool :=
  match r with
  | Seq r1 r2 | Alt r1 r2 => (no_group r1 && no_group r2)%bool
  | Opt r1 => no_group r1
  | Grp _ _ => false
  | _ => true
  end.

End ReSem.

Import ReSem.

(** ** Results and samples of the chat path *)

Definition fallback_after_error (user_message : string) (a : Z)
  : ExpenseExtraction :=
  mkExpenseExtraction "Item tidak terdeteksi" a LAINNYA
    (fst (detect_emotion_from_text user_message))
    (snd (detect_emotion_from_text user_message)) f_03.

Definition fallback_after_empty (a : Z) : ExpenseExtraction :=
  mkExpenseExtraction "Pengeluaran" a LAINNYA NETRAL f_zero f_04.

Definition ayam : string := "abis beli ayam 12000 anjing".

Definition kopi_roti_message : string := "tadi beli kopi sama roti".
Definition kopi_good : json :=
  JObj [("item_name", JStr "Kopi"); ("amount", JInt 25000)].
Definition roti_bad : json :=
  JObj [("item_name", JStr "Roti"); ("amount", JStr "dua ribu")].
Definition kopi_roti_response : string :=
  js "[{'item_name':'Kopi','amount':25000},{'item_name':'Roti','amount':'dua ribu'}]".

Definition toko_overflow : string :=
  js "{'store_name':'Toko A','total_amount':15000,'items':[{'name':'Kopi','price':1e999},{'name':'Teh','price':5000}]}".

Definition toko_example : string :=
  js "{'store_name':'Toko A','total_amount':15000,'items':[{'name':'Kopi','price':15000}]}".

(** ** The spans of the response parser *)

(** Index of the last occurrence of a character. *)
Fixpoint rfind_char (c : ascii) (s : string) : option nat :=
  match s with
  | EmptyString => None
  | String a s' =>
      match rfind_char c s' with
      | Some j => Some (S j)
      | None => if Ascii.eqb a c then Some O else None
      end
  end.

(** The text from the first opening bracket to the last closing bracket
    after it: start and length. *)
Definition bracket_span (t : string) : option (nat * nat) :=
  match find_char "[" t with
  | None => None
  | Some k =>
      match rfind_char "]" (skipn (S k) t) with
      | Some j => Some (k, S (S j))
      | None => None
      end
  end.

(** The first opening brace that is followed by one or more characters
    other than the closing brace and then by a closing brace: start and
    length of that text, braces included. *)
Fixpoint brace_span (t : string) : option (nat * nat) :=
  match t with
  | EmptyString => None
  | String c t' =>
      let here :=
        if Ascii.eqb c "{" then
          match break (fun x => Ascii.eqb x "}") t' with
          | (String a mid, String _ _) => Some (O, (String.length mid + 3)%nat)
          | _ => None
          end
        else None in
      match here with
      | Some x => Some x
      | None => option_map (fun kn => (S (fst kn), snd kn)) (brace_span t')
      end
  end.

Definition slice (t : string) (kn : nat * nat) : string :=
  firstn (snd kn) (skipn (fst kn) t).

(** The parser described without the matcher: what it returns for the
    trimmed text, in terms of the two spans above. *)
Definition parse_ai_response_spec (response_text : string) : list json :=
  let t := strip response_text in
  let as_array :=
    match bracket_span t with
    | Some kn =>
        match loads (slice t kn) with Ok (JArr l) => Some l | _ => None end
    | None => None
    end in
  match as_array with
  | Some l => l
  | None =>
      match brace_span t with
      | Some kn =>
          match loads (slice t kn) with Ok (JObj d) => [JObj d] | _ => [] end
      | None => []
      end
  end.

(** The length of the first end state, if any. *)
Definition hd_used (l : list st) : option nat :=
  match l with e :: _ => Some (used e) | [] => None end.

Definition prose_array : string := js "[{'amount':1},{'amount':2}]".

(** ** The shapes of text around a shorthand *)

(** Every pattern of the normalizer begins with [(\d+)]: it cannot match
    at a cursor that is not followed by a digit. *)
Definition starts_with_digits (r : re) : Prop :=
  exists tail, r = Seq (Grp 1 D1) tail.

(** A text that does not begin with a character of the class. *)
Definition blocked (ic : bool) (k : cls) (s : string) : Prop :=
  match s with
  | String c _ => cls_match ic k c = false
  | EmptyString => True
  end.

(** A suffix word: it begins with a character that is neither a digit nor
    white space, as the five magnitude suffixes do. *)
Definition suffix_word (w : string) : Prop :=
  match w with
  | String a _ => is_digit a = false /\ is_space a = false
  | EmptyString => False
  end.

(** The decimal-million patterns need a separator and a digit after the
    run of digits. *)
Definition no_decimal_ahead (ic : bool) (R : string) : Prop :=
  match R with
  | EmptyString => True
  | String c R' =>
      is_digit c = false /\
      (cls_match ic (COneOf ".,") c = true -> blocked ic CDigit R')
  end.

(** No match of [<w>\b] at the beginning of [B]. *)
Definition no_word_at (ic : bool) (w B : string) : Prop :=
  pends ic (Seq (Lit w) Wordb) (None, B) = [].

(** The leading white space of a text. *)
Fixpoint lspaces (s : string) : string :=
  match s with
  | String c s' => if is_space c then String c (lspaces s') else EmptyString
  | EmptyString => EmptyString
  end.






(** ** Words, shapes and bounds for the further properties *)


(** The keywords that make a review request on their own. *)
Definition review_words : list string :=
  ["review"; "insight"; "laporan"; "rangkum"; "summary"; "statistik"; "rekap"].

(** A word that neither begins nor ends with white space. *)
Definition solid (w : string) : bool :=
  match w with
  | String a _ =>
      (negb (is_space a) &&
       match last_char w None with
       | Some z => negb (is_space z)
       | None => false
       end)%bool
  | EmptyString => false
  end.

(** The word [a] occurs in [s] and one of the words [ws] follows it on the
    same line. *)
Definition occurs_then (a : string) (ws : list string) (s : string) : Prop :=
  exists pre mid w post,
    In w ws /\ find_char "010" mid = None /\ s = pre ++ a ++ mid ++ w ++ post.


(** A pattern that matches only where a digit follows the cursor. *)
Definition needs_digit (ic : bool) (r : re) : Prop :=
  forall (p : option ascii) (s : string),
  blocked ic CDigit s -> match_at ic r p s = None.

(** The text does not begin with one of the letters k, r and j, with which
    the five magnitude suffixes begin. *)
Definition no_suffix_letter (s : string) : Prop :=
  match s with
  | String c _ => c <> "k"%char /\ c <> "r"%char /\ c <> "j"%char
  | EmptyString => True
  end.

(** Patterns without [^], [$] and [\b]. *)
Fixpoint anchor_free (r : re) : bool :=
  match r with
  | Seq r1 r2 | Alt r1 r2 => (anchor_free r1 && anchor_free r2)%bool
  | Opt r1 | Grp _ r1 => anchor_free r1
  | Bol | Eol | Wordb => false
  | _ => true
  end.

(** [lang r x]: the pattern [r], without [re.IGNORECASE], matches the whole
    of the text [x]. *)
Fixpoint lang (r : re) (x : string) : Prop :=
  match r with
  | Lit w => x = w
  | Set_ k => exists c, x = String c "" /\ cls_match false k c = true
  | Rep k min =>
      Text.forallb (cls_match false k) x = true /\ (min <= String.length x)%nat
  | Seq r1 r2 => exists x1 x2, x = x1 ++ x2 /\ lang r1 x1 /\ lang r2 x2
  | Alt r1 r2 => lang r1 x \/ lang r2 x
  | Opt r1 => x = "" \/ lang r1 x
  | Grp _ r1 => lang r1 x
  | Bol | Eol | Wordb => False
  end.

(** The bounds that the model [ExpenseExtraction] puts on its fields. *)
Definition within_bounds (e : ExpenseExtraction) : Prop :=
  0 <= amount e /\
  PyFloat.leb f_minus_one (sentiment_score e) = true /\
  PyFloat.leb (sentiment_score e) f_one = true /\
  PyFloat.leb f_zero (ai_confidence e) = true /\
  PyFloat.leb (ai_confidence e) f_one = true.

(** The extractions with a positive amount. *)
Definition positive_amounts (l : list ExpenseExtraction)
  : list ExpenseExtraction :=
  filter (fun e => 0 <? amount e) l.

(** A text whose braces are nested. *)
Inductive nested : string -> Prop :=
| nested_nil : nested ""
| nested_char c s :
    c <> "{"%char -> c <> "}"%char -> nested s -> nested (String c s)
| nested_group a b :
    nested a -> nested b -> nested ("{" ++ a ++ "}" ++ b).

Definition is_infinite (v : option json) : bool :=
  match v with
  | Some (JFloat (S754_infinity _)) => true
  | _ => false
  end.

Definition not_object (v : json) : Prop :=
  match v with JObj _ => False | _ => True end.

(** A line item that is an object whose quantity and price are not an
    infinite float. *)
Definition countable_item (item : json) : Prop :=
  match item with
  | JObj d => is_infinite (dict_get d "quantity") = false /\
              is_infinite (dict_get d "price") = false
  | _ => False
  end.

(** States of the decoder that hold no object: only arrays are open, and
    no key, colon or finished object is at hand. *)
Definition arr_only (stack : list frame) : Prop :=
  Forall (fun f => match f with FArr _ => True | _ => False end) stack.

Definition plain_expect (e : expect) : Prop :=
  match e with
  | EKeyOrEnd | EKey | EColon => False
  | EDone v => not_object v
  | _ => True
  end.

(** * Properties *)

(** ** Text lemmas *)

Lemma append_assoc_s (a b c : string) : (a ++ b) ++ c = a ++ (b ++ c).
Proof. induction a as [|x a IH]; simpl; [reflexivity | now rewrite IH]. Qed.

Lemma append_nil_r_s (a : string) : a ++ "" = a.
Proof. induction a as [|x a IH]; simpl; [reflexivity | now rewrite IH]. Qed.

Lemma length_append_s (a b : string) :
  String.length (a ++ b) = (String.length a + String.length b)%nat.
Proof. induction a as [|x a IH]; simpl; [reflexivity | now rewrite IH]. Qed.

Lemma lower_append (a b : string) : lower (a ++ b) = lower a ++ lower b.
Proof. induction a as [|x a IH]; simpl; [reflexivity | now rewrite IH]. Qed.

Lemma length_lower (s : string) : String.length (lower s) = String.length s.
Proof. induction s as [|x s IH]; simpl; [reflexivity | now rewrite IH]. Qed.

Lemma prefix_spec (w s : string) :
  prefix w s = true <-> exists post, s = w ++ post.
Proof.
  revert s; induction w as [|a w IH]; intros s; simpl.
  - split; [intros _; now exists s | now destruct s].
  - destruct s as [|b s]; simpl.
    + split; [discriminate | intros [post H]; discriminate].
    + destruct (ascii_dec a b) as [->|Hne].
      * rewrite IH. split; intros [post H]; exists post.
        -- now rewrite H.
        -- now inversion H.
      * split; [discriminate | intros [post H]; congruence].
Qed.

Lemma contains_spec (w s : string) : contains w s = true <-> occurs w s.
Proof.
  induction s as [|c s IH].
  - cbn [contains]. rewrite orb_false_r, prefix_spec. split.
    + intros [post H]. now exists "", post.
    + intros (pre & post & H). destruct pre; simpl in H.
      * now exists post.
      * discriminate.
  - cbn [contains]. rewrite orb_true_iff, IH, prefix_spec. split.
    + intros [[post H] | (pre & post & H)].
      * now exists "", post.
      * exists (String c pre), post. simpl. now rewrite H.
    + intros (pre & post & H). destruct pre as [|x pre]; simpl in H.
      * left. now exists post.
      * right. inversion H. now exists pre, post.
Qed.

Lemma any_word_in_spec (words : list string) (s : string) :
  any_word_in words s = true <-> some_occurs words s.
Proof.
  unfold any_word_in, some_occurs. rewrite existsb_exists.
  split; intros (w & Hin & H); exists w; split; auto; now apply contains_spec.
Qed.

Lemma any_word_in_false (words : list string) (s : string) :
  any_word_in words s = false <-> ~ some_occurs words s.
Proof.
  rewrite <- any_word_in_spec. destruct (any_word_in words s); split; intros H;
    try reflexivity; try discriminate; try (intros H'; discriminate).
  now elim H.
Qed.

(** ** The Emotion Detector *)

Lemma picks_functional rules t r1 r2 :
  picks rules t r1 -> picks rules t r2 -> r1 = r2.
Proof.
  induction 1; inversion 1; subst; auto; contradiction.
Qed.

Lemma detect_picks (message : string) :
  picks emotion_rules (lower message) (detect_emotion_from_text message).
Proof.
  unfold detect_emotion_from_text, emotion_rules.
  repeat match goal with
  | |- picks ((?ws, _) :: _) ?t (if any_word_in ?ws ?t then _ else _) =>
      destruct (any_word_in ws t) eqn:?H;
      [ apply picks_hit; now apply any_word_in_spec
      | apply picks_skip; [now apply any_word_in_false |] ]
  end.
  apply picks_none.
Qed.

(** C6.  On every input the Emotion Detector returns the one pair that the
    ordered rules anger (Angry, -0.6), sadness (Sad, -0.5), stress
    (Stressed, -0.4), happiness (Happy, 0.7), hunger (Hungry, 0.1) pick:
    the first vocabulary with a word in the lowercased text wins, later ones
    are not consulted, and Neutral with 0.0 is returned when no word
    matches. *)
Theorem C6_emotion_priority_order : forall message : string,
  picks emotion_rules (lower message) (detect_emotion_from_text message) /\
  (forall r, picks emotion_rules (lower message) r ->
             r = detect_emotion_from_text message).
Proof.
  intros message. split.
  - apply detect_picks.
  - intros r Hr. eapply picks_functional; [exact Hr | apply detect_picks].
Qed.

(** C10.  Keyword matching is containment of the keyword anywhere in the
    lowercased text, inside a longer word included: a text with an anger
    keyword gives (Angry, -0.6), and each later vocabulary gives its result
    when no earlier vocabulary has a keyword in the text; the keyword "bt"
    inside "obtain" and inside "subtotal" makes the message Angry. *)
Theorem C10_substring_matching : forall message : string,
  let t := lower message in
  (some_occurs anger_words t ->
   detect_emotion_from_text message = (MARAH, f_m06)) /\
  (~ some_occurs anger_words t -> some_occurs sad_words t ->
   detect_emotion_from_text message = (SEDIH, f_m05)) /\
  (~ some_occurs anger_words t -> ~ some_occurs sad_words t ->
   some_occurs stress_words t ->
   detect_emotion_from_text message = (STRESS, f_m04)) /\
  (~ some_occurs anger_words t -> ~ some_occurs sad_words t ->
   ~ some_occurs stress_words t -> some_occurs happy_words t ->
   detect_emotion_from_text message = (SENANG, f_07)) /\
  (~ some_occurs anger_words t -> ~ some_occurs sad_words t ->
   ~ some_occurs stress_words t -> ~ some_occurs happy_words t ->
   some_occurs hunger_words t ->
   detect_emotion_from_text message = (LAPAR, f_01)) /\
  detect_emotion_from_text "I obtain a subtotal" = (MARAH, f_m06).
Proof.
  intros message t. unfold detect_emotion_from_text. fold t.
  repeat split; intros;
    repeat match goal with
    | H : some_occurs _ _ |- _ => apply any_word_in_spec in H; rewrite H
    | H : ~ some_occurs _ _ |- _ => apply any_word_in_false in H; rewrite H
    end; reflexivity.
Qed.

Lemma C10_witness :
  some_occurs anger_words (lower "Subtotal 50000") /\
  detect_emotion_from_text "Subtotal 50000" = (MARAH, f_m06).
Proof.
  assert (H : some_occurs anger_words (lower "Subtotal 50000")).
  { exists "bt". split; [simpl; tauto | now exists "su", "otal 50000"]. }
  split; [exact H |].
  exact (proj1 (C10_substring_matching "Subtotal 50000") H).
Defined.

(** ** The Expense-Likelihood Gate *)

Lemma is_space_lower_char (c : ascii) : is_space (lower_char c) = is_space c.
Proof. destruct c as [[] [] [] [] [] [] [] []]; reflexivity. Qed.

Lemma lstrip_lower (s : string) : lstrip (lower s) = lower (lstrip s).
Proof.
  induction s as [|c s IH]; simpl; [reflexivity |].
  rewrite is_space_lower_char. now destruct (is_space c).
Qed.

Lemma rstrip_lower (s : string) : rstrip (lower s) = lower (rstrip s).
Proof.
  induction s as [|c s IH]; simpl; [reflexivity |].
  rewrite IH, is_space_lower_char.
  destruct (rstrip s); simpl; [now destruct (is_space c) | reflexivity].
Qed.

Lemma strip_lower (s : string) : strip (lower s) = lower (strip s).
Proof. unfold strip. now rewrite lstrip_lower, rstrip_lower. Qed.

Lemma casual_loop_spec (patterns : list re) (t : string) :
  casual_loop patterns t =
  if List.existsb (fun pattern => found_b (search false pattern t)) patterns
  then Some (has_money_indicator t) else None.
Proof.
  induction patterns as [|p ps IH]; simpl; [reflexivity |].
  destruct (found_b (search false p t)); simpl.
  - now destruct (has_money_indicator t).
  - exact IH.
Qed.



(** ** Facts about the matcher *)

Module ReFacts.

Section Positions.
Variable ic : bool.
Local Abbreviation plit := (ReSem.plit ic).
Local Abbreviation prep := (ReSem.prep ic).
Local Abbreviation pends := (ReSem.pends ic).

Lemma lit_pos (w : string) (s : st) :
  map pos_of (lit ic w s) = plit w (pos_of s).
Proof.
  revert s; induction w as [|a w IH]; intros s; simpl; [reflexivity |].
  destruct (rest s) as [|c r']; [reflexivity |].
  destruct (char_eq ic c a); [| reflexivity].
  now rewrite IH.
Qed.

Lemma rep_pos (k : cls) (min : nat) (r : string) (s : st) :
  map pos_of (rep ic k min r s) = prep k min r (pos_of s).
Proof.
  revert min s; induction r as [|c r IH]; intros min s; simpl.
  - now destruct min.
  - destruct (cls_match ic k c).
    + rewrite map_app, IH. now destruct min.
    + now destruct min.
Qed.

Lemma ends_pos (r : re) (s : st) :
  map pos_of (ends ic r s) = pends r (pos_of s).
Proof.
  revert s; induction r as [w | k | k min | r1 IH1 r2 IH2 | r1 IH1 r2 IH2
                           | r1 IH1 | i r1 IH1 | | |]; intros s; simpl.
  - apply lit_pos.
  - destruct (rest s) as [|c r']; [reflexivity |].
    now destruct (cls_match ic k c).
  - apply rep_pos.
  - rewrite <- IH1.
    induction (ends ic r1 s) as [|x l IHl]; simpl; [reflexivity |].
    now rewrite map_app, IH2, IHl.
  - now rewrite map_app, IH1, IH2.
  - now rewrite map_app, IH1.
  - rewrite map_map. simpl. rewrite <- IH1. apply map_ext. reflexivity.
  - now destruct (prev s).
  - destruct (rest s) as [|c [|d r']]; try reflexivity.
    now destruct (Ascii.eqb c "010").
  - now destruct (xorb _ _).
Qed.

Lemma match_at_none (r : re) (p : option ascii) (s : string) :
  match_at ic r p s = None <-> pends r (p, s) = [].
Proof.
  unfold match_at.
  change (p, s) with (pos_of (mk_st p s O [])).
  rewrite <- ends_pos.
  destruct (ends ic r (mk_st p s O [])); simpl; split; congruence.
Qed.

Lemma later_trans x y z : later x y -> later y z -> later x z.
Proof.
  induction 1; intros Hz; [exact Hz |].
  apply later_next. now apply IHlater.
Qed.

Lemma plit_later (w : string) (x y : pos) : In y (plit w x) -> later x y.
Proof.
  revert x; induction w as [|a w IH]; intros [p r]; simpl.
  - intros [<- | []]. apply later_here.
  - destruct r as [|c r']; [intros [] |].
    destruct (char_eq ic c a); [| intros []].
    intros H. apply later_next. now apply IH.
Qed.

Lemma prep_later (k : cls) (min : nat) (r : string) (p : option ascii)
      (y : pos) :
  In y (prep k min r (p, r)) -> later (p, r) y.
Proof.
  revert min p; induction r as [|c r IH]; intros min p; simpl.
  - destruct min; [intros [<- | []]; apply later_here | intros []].
  - assert (Hstop : In y (match min with O => [(p, String c r)] | S _ => [] end)
                    -> later (p, String c r) y).
    { destruct min; [intros [<- | []]; apply later_here | intros []]. }
    destruct (cls_match ic k c); [| exact Hstop].
    rewrite in_app_iff. intros [H | H]; [| now apply Hstop].
    apply later_next. now apply (IH (Nat.pred min)).
Qed.

Lemma pends_later (r : re) (x y : pos) : In y (pends r x) -> later x y.
Proof.
  revert x y; induction r as [w | k | k min | r1 IH1 r2 IH2 | r1 IH1 r2 IH2
                             | r1 IH1 | i r1 IH1 | | |]; intros [p s] y; simpl.
  - apply plit_later.
  - destruct s as [|c r']; [intros [] |].
    destruct (cls_match ic k c); [| intros []].
    intros [<- | []]. apply later_next, later_here.
  - apply prep_later.
  - rewrite in_flat_map. intros (z & Hz & Hy).
    eapply later_trans; [apply IH1, Hz | apply IH2, Hy].
  - rewrite in_app_iff. intros [H | H]; [now apply IH1 | now apply IH2].
  - rewrite in_app_iff. intros [H | [<- | []]];
      [now apply IH1 | apply later_here].
  - apply IH1.
  - destruct p; [intros [] | intros [<- | []]; apply later_here].
  - destruct s as [|c [|d r']]; [| | intros []].
    + intros [<- | []]; apply later_here.
    + destruct (Ascii.eqb c "010"); [| intros []].
      intros [<- | []]; apply later_here.
  - destruct (xorb _ _); [| intros []].
    intros [<- | []]; apply later_here.
Qed.

(** [re.search] finds nothing exactly when the pattern matches at no
    cursor of the text. *)
Lemma search_from_none (r : re) (p : option ascii) (s : string) (i : nat) :
  search_from ic r p s i = None <->
  (forall y, later (p, s) y -> pends r y = []).
Proof.
  revert p i; induction s as [|c s IH]; intros p i; simpl.
  - destruct (match_at ic r p "") as [[n cs]|] eqn:E.
    + split; [discriminate |]. intros H.
      assert (E' : match_at ic r p "" = None)
        by (apply match_at_none, H, later_here).
      congruence.
    + split; [| reflexivity]. intros _ y Hy.
      inversion Hy; subst. now apply match_at_none.
  - destruct (match_at ic r p (String c s)) as [[n cs]|] eqn:E.
    + split; [discriminate |]. intros H.
      assert (E' : match_at ic r p (String c s) = None)
        by (apply match_at_none, H, later_here).
      congruence.
    + rewrite IH. split.
      * intros H y Hy. inversion Hy; subst; [now apply match_at_none |].
        now apply H.
      * intros H y Hy. apply H. now apply later_next.
Qed.

Lemma search_none (r : re) (s : string) :
  search ic r s = None <->
  (forall y, later (None, s) y -> pends r y = []).
Proof.
  unfold search. rewrite <- (search_from_none r None s O).
  destruct (search_from ic r None s O) as [[[i n] cs]|];
    split; congruence.
Qed.
End Positions.

Lemma nil_no_In {A : Type} (l : list A) : (forall e, ~ In e l) -> l = [].
Proof. destruct l as [|x l]; [reflexivity |]. intros H. elim (H x). now left. Qed.

(** The decimal-million pattern of the fallback extractor can only match
    where one of the plain million patterns matches as well. *)
Lemma decimal_needs_suffix (text : string) :
  search false (amount_with "jt") text = None ->
  search false (amount_with "juta") text = None ->
  search false (decimal_with (Grp 3 (any_of "jt" ["juta"]))) text = None.
Proof.
  rewrite !search_none. intros Hjt Hjuta y Hy.
  apply nil_no_In. intros e He.
  unfold decimal_with in He. cbn [pends any_of] in He.
  apply in_flat_map in He. destruct He as (s1 & H1 & He).
  apply in_flat_map in He. destruct He as (s2 & H2 & He).
  apply in_flat_map in He. destruct He as (a & Ha & He).
  apply in_flat_map in He. destruct He as (b & Hb & He).
  apply in_flat_map in He. destruct He as (c & Hc & He).
  assert (L2 : later (None, text) s2).
  { eapply later_trans; [exact Hy |].
    eapply later_trans; [apply (pends_later false D1), H1 |].
    apply (pends_later false (Set_ (COneOf ".,"))), H2. }
  apply in_app_iff in Hc. destruct Hc as [Hc | Hc].
  - specialize (Hjt s2 L2).
    assert (Hin : In e (pends false (amount_with "jt") s2)).
    { unfold amount_with. cbn [pends].
      apply in_flat_map. exists a. split; [exact Ha |].
      apply in_flat_map. exists b. split; [exact Hb |].
      apply in_flat_map. exists c. split; [exact Hc | exact He]. }
    rewrite Hjt in Hin. exact Hin.
  - specialize (Hjuta s2 L2).
    assert (Hin : In e (pends false (amount_with "juta") s2)).
    { unfold amount_with. cbn [pends].
      apply in_flat_map. exists a. split; [exact Ha |].
      apply in_flat_map. exists b. split; [exact Hb |].
      apply in_flat_map. exists c. split; [exact Hc | exact He]. }
    rewrite Hjuta in Hin. exact Hin.
Qed.

(** *** What a repetition and a literal consume *)

Lemma after_nil (s : st) : after "" (rest s) s = s.
Proof. destruct s as [p r n cs]. unfold after. simpl. now rewrite Nat.add_0_r. Qed.

Lemma after_step (c : ascii) (w r0 r : string) (s : st) :
  after w r (step c r0 s) = after (String c w) r s.
Proof. unfold after, step. simpl. f_equal. lia. Qed.

Lemma rep_In (ic : bool) (k : cls) (min : nat) (r : string) (s s' : st) :
  rest s = r -> In s' (rep ic k min r s) ->
  exists w, r = w ++ rest s' /\ Text.forallb (cls_match ic k) w = true /\
            (min <= String.length w)%nat /\ s' = after w (rest s') s.
Proof.
  revert min s; induction r as [|c r IH]; intros min s Hr; simpl.
  - destruct min; [| intros []]. intros [<- | []].
    exists "". simpl. split; [now rewrite Hr |].
    split; [reflexivity |]. split; [lia |]. symmetry. apply after_nil.
  - assert (Hstop : In s' (match min with O => [s] | S _ => [] end) ->
      exists w, String c r = w ++ rest s' /\
                Text.forallb (cls_match ic k) w = true /\
                (min <= String.length w)%nat /\ s' = after w (rest s') s).
    { destruct min; [| intros []]. intros [<- | []].
      exists "". simpl. split; [now rewrite Hr |].
      split; [reflexivity |]. split; [lia |]. symmetry. apply after_nil. }
    destruct (cls_match ic k c) eqn:Ec; [| exact Hstop].
    rewrite in_app_iff. intros [H | H]; [| now apply Hstop].
    apply IH in H; [| reflexivity].
    destruct H as (w & Hw & Hall & Hmin & Hs').
    exists (String c w). simpl. rewrite Ec, Hall, <- Hw.
    repeat split; auto; [lia |]. now rewrite <- after_step with (r0 := r).
Qed.

Lemma lit_In (ic : bool) (w : string) (s s' : st) :
  In s' (lit ic w s) ->
  exists w0, rest s = w0 ++ rest s' /\ String.length w0 = String.length w /\
             s' = after w0 (rest s') s.
Proof.
  revert s; induction w as [|a w IH]; intros s; simpl.
  - intros [<- | []]. exists "". simpl. repeat split. now rewrite after_nil.
  - destruct (rest s) as [|c r'] eqn:Er; [intros [] |].
    destruct (char_eq ic c a); [| intros []].
    intros H. apply IH in H. destruct H as (w0 & Hw & Hlen & Hs').
    exists (String c w0). simpl in *. rewrite Hw, Hlen.
    repeat split. now rewrite <- after_step with (r0 := r').
Qed.

(** A pattern without groups leaves the captured groups as they are. *)
Lemma ends_caps (ic : bool) (r : re) (s e : st) :
  no_group r = true -> In e (ends ic r s) -> caps e = caps s.
Proof.
  revert s e; induction r as [w | k | k min | r1 IH1 r2 IH2 | r1 IH1 r2 IH2
                             | r1 IH1 | i r1 IH1 | | |]; intros s e Hg; simpl.
  - intros H. apply lit_In in H. destruct H as (w0 & _ & _ & ->). reflexivity.
  - destruct (rest s) as [|c r']; [intros [] |].
    destruct (cls_match ic k c); [| intros []]. now intros [<- | []].
  - intros H. apply rep_In in H; [| reflexivity].
    destruct H as (w0 & _ & _ & _ & ->). reflexivity.
  - simpl in Hg. apply andb_prop in Hg. destruct Hg as [G1 G2].
    rewrite in_flat_map. intros (x & Hx & He).
    rewrite (IH2 _ _ G2 He). now apply IH1.
  - simpl in Hg. apply andb_prop in Hg. destruct Hg as [G1 G2].
    rewrite in_app_iff. intros [H | H]; [now apply IH1 | now apply IH2].
  - rewrite in_app_iff. intros [H | [<- | []]]; [now apply IH1 | reflexivity].
  - discriminate.
  - destruct (prev s); [intros [] | now intros [<- | []]].
  - destruct (rest s) as [|c [|d r']]; [| | intros []].
    + now intros [<- | []].
    + destruct (Ascii.eqb c "010"); [| intros []]. now intros [<- | []].
  - destruct (xorb _ _); [| intros []]. now intros [<- | []].
Qed.

Lemma firstn_append (w r : string) : firstn (String.length w) (w ++ r) = w.
Proof. induction w as [|c w IH]; simpl; [now destruct r | now rewrite IH]. Qed.

(** After [(\d+)] as group 1 and a tail without groups, the groups of a
    match are group 1 alone, a text of digits. *)
Lemma digits_group (ic : bool) (min : nat) (tail : re) (s e : st) :
  no_group tail = true -> caps s = [] ->
  In e (ends ic (Seq (Grp 1 (Rep CDigit min)) tail) s) ->
  exists w, caps e = [(1%nat, w)] /\ Text.forallb is_digit w = true.
Proof.
  intros Hg Hc. cbn [ends]. rewrite in_flat_map. intros (x & Hx & He).
  apply in_map_iff in Hx. destruct Hx as (s' & <- & Hs').
  apply rep_In in Hs'; [| reflexivity].
  destruct Hs' as (w & Hw & Hall & _ & Es').
  exists w. rewrite (ends_caps _ _ _ _ Hg He). cbn [caps]. split; [| exact Hall].
  rewrite Hw. rewrite Es' at 1 3. unfold after. cbn [used caps].
  replace (used s + String.length w - used s)%nat with (String.length w) by lia.
  now rewrite firstn_append, Hc.
Qed.

Lemma digits_group_alone (ic : bool) (min : nat) (s e : st) :
  caps s = [] ->
  In e (ends ic (Grp 1 (Rep CDigit min)) s) ->
  exists w, caps e = [(1%nat, w)] /\ Text.forallb is_digit w = true.
Proof.
  intros Hc. cbn [ends]. intros Hx.
  apply in_map_iff in Hx. destruct Hx as (s' & <- & Hs').
  apply rep_In in Hs'; [| reflexivity].
  destruct Hs' as (w & Hw & Hall & _ & Es').
  exists w. cbn [caps]. split; [| exact Hall].
  rewrite Hw. rewrite Es' at 1 3. unfold after. cbn [used caps].
  replace (used s + String.length w - used s)%nat with (String.length w) by lia.
  now rewrite firstn_append, Hc.
Qed.

(** The groups of a found match are those of some first end state. *)
Lemma search_from_groups (ic : bool) (r : re) (text : string)
      (p : option ascii) (j i n : nat) (cs : list (nat * string)) :
  search_from ic r p text j = Some (i, n, cs) ->
  exists p' s e tl, ends ic r (mk_st p' s O []) = e :: tl /\
                    cs = caps e /\ n = used e.
Proof.
  revert p j; induction text as [|c text IH]; intros p j;
    cbn [search_from]; unfold match_at.
  - destruct (ends ic r (mk_st p "" O [])) as [|e tl] eqn:Ee; [discriminate |].
    intros [= _ <- <-]. exists p, "", e, tl. auto.
  - destruct (ends ic r (mk_st p (String c text) O [])) as [|e tl] eqn:Ee.
    + apply IH.
    + intros [= _ <- <-]. exists p, (String c text), e, tl. auto.
Qed.

(** The groups of a found match are those of some first end state. *)
Lemma search_groups (ic : bool) (r : re) (text : string) (m : found) :
  search ic r text = Some m ->
  exists p s e tl, ends ic r (mk_st p s O []) = e :: tl /\
                   groups m = caps e /\ len m = used e.
Proof.
  unfold search.
  destruct (search_from ic r None text O) as [[[i n] cs]|] eqn:E; [| discriminate].
  intros [= <-]. cbn [groups len].
  eapply search_from_groups, E.
Qed.

End ReFacts.

Import ReFacts.

(** ** The Fallback Amount Extractor *)

Lemma digit_val_range (c : ascii) : is_digit c = true -> 0 <= digit_val c <= 9.
Proof.
  unfold is_digit, in_range, digit_val. intros H.
  apply andb_prop in H. destruct H as [H1 H2].
  apply N.leb_le in H1. apply N.leb_le in H2.
  revert H1 H2. generalize (code c). intros n H1 H2. lia.
Qed.

Lemma int_of_digits_acc_nonneg (w : string) (acc : Z) :
  Text.forallb is_digit w = true -> 0 <= acc -> 0 <= int_of_digits_acc acc w.
Proof.
  revert acc; induction w as [|c w IH]; intros acc H Ha;
    cbn [int_of_digits_acc Text.forallb] in *; [exact Ha |].
  apply andb_prop in H. destruct H as [Hc Hw].
  apply IH; [exact Hw |]. pose proof (digit_val_range c Hc). lia.
Qed.

Lemma int_of_digits_nonneg (w : string) :
  Text.forallb is_digit w = true -> 0 <= int_of_digits w.
Proof. intros H. apply int_of_digits_acc_nonneg; [exact H | lia]. Qed.

Lemma amount_with_group (suffix text : string) (m : found) :
  search false (amount_with suffix) text = Some m ->
  0 <= int_of_digits (group 1 (groups m)).
Proof.
  intros H. apply search_groups in H. destruct H as (p & s & e & tl & He & Hg & _).
  assert (Hin : In e (ends false (amount_with suffix) (mk_st p s O [])))
    by (rewrite He; now left).
  apply digits_group in Hin; [| reflexivity | reflexivity].
  destruct Hin as (w & Hc & Hw). rewrite Hg, Hc. simpl.
  now apply int_of_digits_nonneg.
Qed.

Lemma suffix_loop_nonneg (ms : list (string * Z)) (text : string) (a : Z) :
  Forall (fun sm => 0 <= snd sm) ms ->
  suffix_loop ms text = Some a -> 0 <= a.
Proof.
  induction 1 as [|[suffix k] ms Hk Hms IH]; simpl; [discriminate |].
  destruct (search false (amount_with suffix) text) as [m|] eqn:E; [| exact IH].
  intros [= <-]. apply amount_with_group in E. simpl in Hk. nia.
Qed.

Lemma suffix_loop_none (ms : list (string * Z)) (text : string) :
  suffix_loop ms text = None ->
  forall suffix k, In (suffix, k) ms ->
                   search false (amount_with suffix) text = None.
Proof.
  induction ms as [|[s0 k0] ms IH]; simpl; [intros _ ? ? [] |].
  destruct (search false (amount_with s0) text) as [m|] eqn:E; [discriminate |].
  intros H suffix k [[= <- <-] | Hin]; [exact E | now apply (IH H suffix k)].
Qed.

(** The extractor never raises, and what it finds is not negative: its
    decimal-million branch, the only one that could raise, is never reached
    with a match, the plain million patterns being tried before it. *)
Lemma extract_amount_fallback_total (text : string) :
  exists o, extract_amount_fallback text = Ok o /\
            (forall a, o = Some a -> 0 <= a).
Proof.
  unfold extract_amount_fallback.
  destruct (suffix_loop multipliers (lower text)) as [v|] eqn:E.
  - exists (Some v). split; [reflexivity |]. intros a [= <-].
    eapply suffix_loop_nonneg; [| exact E].
    repeat constructor; simpl; lia.
  - pose proof (suffix_loop_none _ _ E) as Hn.
    rewrite decimal_needs_suffix.
    + destruct (search false (Grp 1 (Rep CDigit 4)) (lower text)) as [m|] eqn:E4.
      * eexists. split; [reflexivity |]. intros a [= <-].
        apply search_groups in E4.
        destruct E4 as (p & s & e & tl & He & Hg & _).
        assert (Hin : In e (ends false (Grp 1 (Rep CDigit 4)) (mk_st p s O [])))
          by (rewrite He; now left).
        apply digits_group_alone in Hin; [| reflexivity].
        destruct Hin as (w & Hc & Hw). rewrite Hg, Hc. simpl.
        now apply int_of_digits_nonneg.
      * exists None. split; [reflexivity | discriminate].
    + apply (Hn "jt" 1000000). simpl. tauto.
    + apply (Hn "juta" 1000000). simpl. tauto.
Qed.

(** ** The chat extraction entry point *)

Lemma ExpenseExtraction_new_ok name amt cat emo sent conf :
  0 <= amt ->
  PyFloat.leb f_minus_one sent = true -> PyFloat.leb sent f_one = true ->
  PyFloat.leb f_zero conf = true -> PyFloat.leb conf f_one = true ->
  ExpenseExtraction_new name amt cat emo sent conf =
  Ok (mkExpenseExtraction name amt cat emo sent conf).
Proof.
  intros Ha H1 H2 H3 H4. unfold ExpenseExtraction_new.
  apply Z.leb_le in Ha. now rewrite Ha, H1, H2, H3, H4.
Qed.

Lemma detect_sentiment_valid (message : string) :
  PyFloat.leb f_minus_one (snd (detect_emotion_from_text message)) = true /\
  PyFloat.leb (snd (detect_emotion_from_text message)) f_one = true.
Proof.
  unfold detect_emotion_from_text.
  repeat match goal with
  | |- context [if any_word_in ?ws ?t then _ else _] =>
      destruct (any_word_in ws t)
  end; split; vm_compute; reflexivity.
Qed.

Lemma amount_found_spec (o : option Z) (a : Z) :
  amount_found o = Some a <-> o = Some a /\ a <> 0.
Proof.
  unfold amount_found. destruct o as [n|]; [| split; [discriminate | intros [? _]; discriminate]].
  destruct (Z.eqb_spec n 0); split.
  - discriminate.
  - intros [[= ->] H]. contradiction.
  - intros [= ->]. auto.
  - intros [[= ->] _]. reflexivity.
Qed.

(** The [except] block returns: nothing when no amount is found, otherwise
    the one extraction labelled by the Emotion Detector. *)
Lemma extract_except_spec (user_message : string) :
  exists o, extract_amount_fallback user_message = Ok o /\
  extract_except user_message =
  Ok (match amount_found o with
      | Some a =>
          [mkExpenseExtraction "Item tidak terdeteksi" a LAINNYA
             (fst (detect_emotion_from_text user_message))
             (snd (detect_emotion_from_text user_message)) f_03]
      | None => []
      end).
Proof.
  destruct (extract_amount_fallback_total user_message) as (o & Ho & Hpos).
  exists o. split; [exact Ho |].
  unfold extract_except. rewrite Ho. cbn [bind].
  destruct (amount_found o) as [a|] eqn:Ea; [| reflexivity].
  apply amount_found_spec in Ea. destruct Ea as [-> Hnz].
  destruct (detect_sentiment_valid user_message) as [S1 S2].
  destruct (detect_emotion_from_text user_message) as [emo sent]. cbn [fst snd] in *.
  rewrite ExpenseExtraction_new_ok; auto.
Qed.


(** *** The two fallback results *)

(** C2, as the specification states it, fails: when the response holds no
    candidate, the single extraction returned for "abis beli ayam 12000
    anjing" is labelled Neutral with the name "Pengeluaran", although the
    Emotion Detector answers Angry for that message. *)
Lemma C2_counterexample :
  parse_ai_response "maaf, tidak ada transaksi" = Ok [] /\
  extract_amount_fallback ayam = Ok (Some 12000) /\
  detect_emotion_from_text ayam = (MARAH, f_m06) /\
  extract_multiple_expenses ayam
    (fun _ => RemoteContent (Some "maaf, tidak ada transaksi"))
  = Ok [mkExpenseExtraction "Pengeluaran" 12000 LAINNYA NETRAL f_zero f_04] /\
  NETRAL <> MARAH.
Proof. repeat split; try (vm_compute; reflexivity). discriminate. Qed.

(** C2, amended.  When the Gate accepts a message and the Fallback Amount
    Extractor finds a non-zero amount [a] in it: if the [try] block raised
    (the remote call failed, or parsing or validation raised), the one
    extraction returned has the amount [a], the Emotion Detector's emotion
    and sentiment for the message, the confidence 0.3 and the name "Item
    tidak terdeteksi"; if the response was parsed to no candidate, the one
    extraction returned has the amount [a], the name "Pengeluaran", the
    emotion Neutral with sentiment 0.0 and the confidence 0.4.  For a
    failed remote call on "abis beli ayam 12000 anjing" exactly one
    extraction is returned, with amount 12000, emotion Angry and a
    confidence of 0.3, which is at most 0.4. *)
Theorem C2_fallback_results :
  forall (user_message : string) (remote : string -> remote_outcome) (a : Z),
  has_expense_pattern user_message = true ->
  extract_amount_fallback user_message = Ok (Some a) ->
  a <> 0 ->
  (forall e,
     extract_try user_message (normalize_amount_string user_message) remote
       = Raise e ->
     extract_multiple_expenses user_message remote
       = Ok [fallback_after_error user_message a]) /\
  (remote (normalize_amount_string user_message) = RemoteRaises ->
   extract_multiple_expenses user_message remote
     = Ok [fallback_after_error user_message a]) /\
  (forall response_text,
     remote (normalize_amount_string user_message)
       = RemoteContent (Some response_text) ->
     parse_ai_response response_text = Ok [] ->
     extract_multiple_expenses user_message remote
       = Ok [fallback_after_empty a]) /\
  PyFloat.leb f_03 f_04 = true /\
  extract_multiple_expenses ayam (fun _ => RemoteRaises)
    = Ok [mkExpenseExtraction "Item tidak terdeteksi" 12000 LAINNYA MARAH
            f_m06 f_03].
Proof.
  intros user_message remote a Hgate Hfb Hnz.
  assert (Hexc : forall e,
     extract_try user_message (normalize_amount_string user_message) remote
       = Raise e ->
     extract_multiple_expenses user_message remote
       = Ok [fallback_after_error user_message a]).
  { intros e He. unfold extract_multiple_expenses. rewrite Hgate, He. cbn [negb].
    destruct (extract_except_spec user_message) as (o & Ho & ->).
    rewrite Hfb in Ho. injection Ho as <-.
    assert (Hf : amount_found (Some a) = Some a) by (apply amount_found_spec; auto).
    now rewrite Hf. }
  split; [exact Hexc |]. split; [| split; [| split]].
  - intros Hr. apply (Hexc APIError). unfold extract_try. now rewrite Hr.
  - intros response_text Hr Hp. unfold extract_multiple_expenses, extract_try.
    rewrite Hgate, Hr, Hp. cbn [negb bind]. rewrite Hfb. cbn [bind].
    assert (Hf : amount_found (Some a) = Some a) by (apply amount_found_spec; auto).
    rewrite Hf.
    destruct (extract_amount_fallback_total user_message) as (o & Ho & Hpos).
    rewrite Hfb in Ho. injection Ho as <-.
    rewrite ExpenseExtraction_new_ok;
      [reflexivity | now apply Hpos | vm_compute; reflexivity ..].
  - vm_compute. reflexivity.
  - vm_compute. reflexivity.
Qed.

Lemma C2_witness :
  has_expense_pattern ayam = true /\
  extract_amount_fallback ayam = Ok (Some 12000) /\
  12000 <> 0 /\
  extract_multiple_expenses ayam (fun _ => RemoteRaises)
    = Ok [fallback_after_error ayam 12000].
Proof.
  assert (H1 : has_expense_pattern ayam = true) by (vm_compute; reflexivity).
  assert (H2 : extract_amount_fallback ayam = Ok (Some 12000))
    by (vm_compute; reflexivity).
  assert (H3 : 12000 <> 0) by discriminate.
  split; [exact H1 | split; [exact H2 | split; [exact H3 |]]].
  exact (proj1 (proj2 (C2_fallback_results ayam (fun _ => RemoteRaises) 12000
                         H1 H2 H3)) eq_refl).
Defined.

(** *** Candidates that fail coercion *)


(** C1 fails on the code.  The response holds a valid candidate (Kopi,
    25000) and one whose amount is not numeric: [int] raises on the second,
    the exception leaves the loop, and the [except] block returns the
    fallback result, here the empty list.  The valid candidate is lost,
    although alone it would have been returned. *)
Theorem C1_batch_discarded :
  parse_ai_response kopi_roti_response = Ok [kopi_good; roti_bad] /\
  extract_item NETRAL f_zero kopi_good
    = Ok (Some (mkExpenseExtraction "Kopi" 25000 LAINNYA NETRAL f_zero f_07c)) /\
  extract_item NETRAL f_zero roti_bad = Raise ValueError /\
  extract_multiple_expenses kopi_roti_message
    (fun _ => RemoteContent (Some kopi_roti_response)) = Ok [] /\
  extract_multiple_expenses kopi_roti_message
    (fun _ => RemoteContent (Some (js "[{'item_name':'Kopi','amount':25000}]")))
  = Ok [mkExpenseExtraction "Kopi" 25000 LAINNYA NETRAL f_zero f_07c].
Proof. repeat split; vm_compute; reflexivity. Qed.

(** C3 fails on the code.  The test [if not amount] looks at the value
    before its coercion: an amount of 0.5, or the text "0", is true and
    becomes the integer 0, which the model accepts ([ge=0]).  The
    extraction is returned with amount 0. *)
Theorem C3_zero_amount_returned :
  extract_multiple_expenses "beli permen"
    (fun _ => RemoteContent (Some (js "[{'item_name':'Permen','amount':0.5}]")))
  = Ok [mkExpenseExtraction "Permen" 0 LAINNYA NETRAL f_zero f_07c] /\
  extract_multiple_expenses "beli permen"
    (fun _ => RemoteContent (Some (js "[{'item_name':'Permen','amount':'0'}]")))
  = Ok [mkExpenseExtraction "Permen" 0 LAINNYA NETRAL f_zero f_07c].
Proof. split; vm_compute; reflexivity. Qed.


Ltac inv_bind H :=
  match type of H with
  | bind ?r _ = Ok _ =>
      let a := fresh "a" in
      let E := fresh "E" in
      destruct r as [a|] eqn:E; cbn [bind] in H; [| discriminate H]
  | (if ?b then _ else _) = Ok _ => destruct b eqn:?; try discriminate H
  end.


Lemma extract_item_without_amount de ds (fields : list (string * json)) :
  dict_get fields "amount" = None \/ dict_get fields "amount" = Some (JInt 0) ->
  extract_item de ds (JObj fields) = Ok None.
Proof. unfold extract_item, get. intros [-> | ->]; reflexivity. Qed.



(** ** The Receipt Text Parser *)

(** In the loop over the line items a [ValueError] or a [TypeError] skips
    the item; any other exception ends the loop. *)
Lemma receipt_items_step (item : json) (l : list json) (acc : list ReceiptItem) :
  receipt_items (item :: l) acc =
  match receipt_item item with
  | Ok it => receipt_items l (acc ++ [it])
  | Raise e =>
      if (is_ValueError e || is_TypeError e)%bool
      then receipt_items l acc else Raise e
  end.
Proof. reflexivity. Qed.

(** A line item without quantity gets the quantity 1. *)
Lemma receipt_item_default_quantity (fields : list (string * json))
      (nm : string) (p : Z) :
  dict_get fields "name" = Some (JStr nm) ->
  dict_get fields "quantity" = None ->
  dict_get fields "price" = Some (JInt p) ->
  receipt_item (JObj fields) = Ok (mkReceiptItem nm 1 p).
Proof.
  intros H1 H2 H3. unfold receipt_item, get. now rewrite H1, H2, H3.
Qed.

(** C9 fails on the code.  A price written 1e999 is decoded to the float
    infinity; [int] raises [OverflowError] on it, which the inner handler
    [(ValueError, TypeError)] does not catch: the outer handler returns the
    default [ReceiptData], without the valid line item (Teh, 5000), the
    store name and the total.  An item whose price is not a number at all
    is skipped as the claim says, and the example of the specification gives
    the total 15000 and one line item with quantity 1. *)
Theorem C9_overflow_discards_receipt :
  receipt_item (JObj [("name", JStr "Kopi"); ("price", JFloat (S754_infinity false))])
    = Raise OverflowError /\
  receipt_item (JObj [("name", JStr "Teh"); ("price", JInt 5000)])
    = Ok (mkReceiptItem "Teh" 1 5000) /\
  parse_receipt_response toko_overflow = ReceiptData_default toko_overflow /\
  parse_receipt_response
    (js "{'store_name':'Toko A','total_amount':15000,'items':[{'name':'Kopi','price':'mahal'},{'name':'Teh','price':5000}]}")
  = mkReceiptData "Toko A" 15000 None [mkReceiptItem "Teh" 1 5000]
      (Some (js "{'store_name':'Toko A','total_amount':15000,'items':[{'name':'Kopi','price':'mahal'},{'name':'Teh','price':5000}]}")) /\
  parse_receipt_response toko_example
  = mkReceiptData "Toko A" 15000 None [mkReceiptItem "Kopi" 1 15000]
      (Some toko_example).
Proof. repeat split; vm_compute; reflexivity. Qed.

(** ** The Response Parser *)

(** The decoder raises nothing but [JSONDecodeError]. *)
Lemma normal_char_raises c toks e :
  normal_char c toks = Raise e -> e = JSONDecodeError.
Proof.
  unfold normal_char.
  repeat match goal with
  | |- context [if ?b then _ else _] => destruct b; try discriminate
  end.
  now intros [= <-].
Qed.

Lemma lex_raises s m toks e : lex m toks s = Raise e -> e = JSONDecodeError.
Proof.
  revert m toks; induction s as [|c s IH]; intros m toks; simpl.
  - destruct m; try discriminate; now intros [= <-].
  - destruct m as [| acc | acc | acc | acc todo v].
    + destruct (normal_char c toks) as [[m' toks']|x] eqn:E; [apply IH |].
      intros [= <-]. eapply normal_char_raises, E.
    + destruct (is_atom_char c); [apply IH |].
      destruct (normal_char c _) as [[m' toks']|x] eqn:E; [apply IH |].
      intros [= <-]. eapply normal_char_raises, E.
    + destruct (Ascii.eqb c dquote); [apply IH |].
      destruct (Ascii.eqb c "\"); [apply IH |].
      destruct (code c <? 32)%N; [now intros [= <-] | apply IH].
    + destruct (Ascii.eqb c "u"); [apply IH |].
      destruct (unescape c); [apply IH | now intros [= <-]].
    + destruct (hex_val c); [| now intros [= <-]].
      destruct todo as [|[|k]]; apply IH.
Qed.

Lemma feed_raises v stack e : feed v stack = Raise e -> e = JSONDecodeError.
Proof.
  unfold feed. destruct stack as [|[items|d|k] [|[items'|d'|k'] st]];
    try discriminate; now intros [= <-].
Qed.

Lemma start_value_raises t stack e :
  start_value t stack = Raise e -> e = JSONDecodeError.
Proof.
  unfold start_value. destruct t; try discriminate;
    try (now intros [= <-]); try apply feed_raises.
  destruct (read_atom s); [apply feed_raises | now intros [= <-]].
Qed.

Lemma parse_step_raises t stack x e :
  parse_step t stack x = Raise e -> e = JSONDecodeError.
Proof.
  unfold parse_step.
  destruct x; destruct t; try apply start_value_raises;
    try (now intros [= <-]); try discriminate;
    destruct stack as [|[items|d|k] st];
    try apply start_value_raises; try apply feed_raises;
    try (now intros [= <-]); try discriminate.
Qed.

Lemma parse_raises toks stack x e :
  parse toks stack x = Raise e -> e = JSONDecodeError.
Proof.
  revert stack x; induction toks as [|t toks IH]; intros stack x; simpl.
  - destruct x; try discriminate; now intros [= <-].
  - destruct (parse_step t stack x) as [[stack' x']|y] eqn:E; [apply IH |].
    intros [= <-]. eapply parse_step_raises, E.
Qed.

Lemma loads_raises s e : loads s = Raise e -> e = JSONDecodeError.
Proof.
  unfold loads. destruct (lex MNormal [] s) as [toks|x] eqn:E; cbn [bind].
  - apply parse_raises.
  - intros [= <-]. eapply lex_raises, E.
Qed.

Lemma try_loads_spec (text : string) :
  try_loads text = Ok (match loads text with Ok v => Some v | Raise _ => None end).
Proof.
  unfold try_loads. destruct (loads text) as [v|e] eqn:E; [reflexivity |].
  now rewrite (loads_raises _ _ E).
Qed.

(** *** Where the two patterns of the parser match *)

Lemma hd_used_app (l1 l2 : list st) :
  hd_used (l1 ++ l2) =
  match hd_used l1 with Some n => Some n | None => hd_used l2 end.
Proof. now destruct l1. Qed.

Lemma match_at_no_group (ic : bool) (r : re) (p : option ascii) (s : string) :
  no_group r = true ->
  match_at ic r p s =
  option_map (fun n => (n, [])) (hd_used (ends ic r (mk_st p s O []))).
Proof.
  intros Hg. unfold match_at.
  destruct (ends ic r (mk_st p s O [])) as [|e tl] eqn:E; [reflexivity |].
  simpl. rewrite (ends_caps ic r (mk_st p s O []) e Hg); [reflexivity |].
  rewrite E. now left.
Qed.

(** After the opening bracket: the longest run that ends in a closing
    bracket. *)
Lemma array_tail_used (u : string) (s1 : st) :
  rest s1 = u ->
  hd_used (flat_map (ends false (Lit "]")) (rep false CAny 0 u s1)) =
  option_map (fun j => (used s1 + S j)%nat) (rfind_char "]" u).
Proof.
  revert s1; induction u as [|c u IH]; intros s1 Hr.
  - simpl. now rewrite Hr.
  - cbn [rep cls_match Nat.pred rfind_char]. rewrite flat_map_app, hd_used_app.
    rewrite IH by reflexivity. cbn [used step].
    destruct (rfind_char "]" u) as [j|]; cbn [option_map].
    + f_equal. lia.
    + simpl. rewrite Hr. unfold char_eq.
      destruct (Ascii.eqb c "]"); simpl; [f_equal; lia | reflexivity].
Qed.

Lemma match_at_array (p : option ascii) (s : string) :
  match_at false array_pattern p s =
  match s with
  | String c u =>
      if Ascii.eqb c "["
      then option_map (fun j => (S (S j), [])) (rfind_char "]" u)
      else None
  | EmptyString => None
  end.
Proof.
  rewrite match_at_no_group by reflexivity.
  unfold array_pattern. cbn [ends lit rest]. destruct s as [|c u]; [reflexivity |].
  unfold char_eq. destruct (Ascii.eqb c "["); [| reflexivity].
  cbn [flat_map]. rewrite app_nil_r. cbn [ends].
  rewrite array_tail_used by reflexivity. cbn [used step rest].
  destruct (rfind_char "]" u); reflexivity.
Qed.

Lemma rfind_char_skipn_none (c : ascii) (s : string) (k : nat) :
  rfind_char c s = None -> rfind_char c (skipn k s) = None.
Proof.
  revert k; induction s as [|a s IH]; intros k H; [now destruct k |].
  destruct k as [|k]; [exact H |]. simpl in *.
  destruct (rfind_char c s); [discriminate | now apply IH].
Qed.

Lemma search_from_array (s : string) (p : option ascii) (i : nat) :
  search_from false array_pattern p s i =
  option_map (fun kn => ((i + fst kn)%nat, snd kn, [])) (bracket_span s).
Proof.
  unfold bracket_span.
  revert p i; induction s as [|c s IH]; intros p i;
    cbn [search_from]; rewrite match_at_array; [reflexivity |].
  cbn [find_char]. destruct (Ascii.eqb c "[") eqn:Ec.
  - cbn [skipn]. destruct (rfind_char "]" s) as [j|] eqn:Ej; cbn [option_map].
    + simpl. now rewrite Nat.add_0_r.
    + rewrite IH. destruct (find_char "[" s) as [k|]; [| reflexivity].
      now rewrite rfind_char_skipn_none.
  - rewrite IH. destruct (find_char "[" s) as [k|]; [| reflexivity].
    cbn [option_map].
    change (skipn (S (S k)) (String c s)) with (skipn (S k) s).
    destruct (rfind_char "]" (skipn (S k) s)); cbn [option_map fst snd];
      [| reflexivity].
    do 3 f_equal. lia.
Qed.

(** After the opening brace: the run of characters other than the closing
    brace, which must be followed by one. *)
Lemma object_tail_used (u : string) (min : nat) (s1 : st) :
  rest s1 = u ->
  hd_used (flat_map (ends false (Lit "}")) (rep false (CNot "}") min u s1)) =
  match break (fun x => Ascii.eqb x "}") u with
  | (mid, String _ _) =>
      if (min <=? String.length mid)%nat
      then Some (used s1 + String.length mid + 1)%nat else None
  | (_, EmptyString) => None
  end.
Proof.
  revert min s1; induction u as [|c u IH]; intros min s1 Hr.
  - destruct min; simpl; [now rewrite Hr | reflexivity].
  - cbn [rep cls_match break]. unfold char_eq.
    destruct (Ascii.eqb c "}") eqn:Ec; cbn [negb].
    + destruct min; simpl; [| reflexivity].
      rewrite Hr. unfold char_eq. rewrite Ec. simpl. f_equal. lia.
    + rewrite flat_map_app, hd_used_app, IH by reflexivity.
      destruct (break (fun x => Ascii.eqb x "}") u) as [mid r] eqn:Eb.
      cbn [used step String.length].
      assert (Hstop : hd_used (flat_map (ends false (Lit "}"))
                         (match min with O => [s1] | S _ => [] end)) = None).
      { destruct min; simpl; [| reflexivity].
        rewrite Hr. unfold char_eq. now rewrite Ec. }
      rewrite Hstop.
      destruct r as [|x r]; [reflexivity |].
      destruct min as [|min]; cbn [Nat.pred].
      * simpl. f_equal. lia.
      * change (S min <=? S (String.length mid))%nat
          with (min <=? String.length mid)%nat.
        destruct (min <=? String.length mid)%nat; [f_equal; lia | reflexivity].
Qed.

Lemma match_at_object (p : option ascii) (s : string) :
  match_at false object_pattern p s =
  match s with
  | String c u =>
      if Ascii.eqb c "{" then
        match break (fun x => Ascii.eqb x "}") u with
        | (String a mid, String _ _) => Some ((String.length mid + 3)%nat, [])
        | _ => None
        end
      else None
  | EmptyString => None
  end.
Proof.
  rewrite match_at_no_group by reflexivity.
  unfold object_pattern. cbn [ends lit rest]. destruct s as [|c u]; [reflexivity |].
  unfold char_eq. destruct (Ascii.eqb c "{"); [| reflexivity].
  cbn [flat_map]. rewrite app_nil_r. cbn [ends].
  rewrite object_tail_used by reflexivity. cbn [used step rest].
  destruct (break (fun x => Ascii.eqb x "}") u) as [[|a mid] [|x r]];
    try reflexivity.
  simpl. do 3 f_equal. lia.
Qed.

Lemma search_from_object (s : string) (p : option ascii) (i : nat) :
  search_from false object_pattern p s i =
  option_map (fun kn => ((i + fst kn)%nat, snd kn, [])) (brace_span s).
Proof.
  revert p i; induction s as [|c s IH]; intros p i;
    cbn [search_from brace_span]; rewrite match_at_object; [reflexivity |].
  destruct (Ascii.eqb c "{").
  - destruct (break (fun x => Ascii.eqb x "}") s) as [[|a mid] [|x r]];
      try (rewrite IH; destruct (brace_span s) as [[k n]|];
           cbn [option_map fst snd]; [do 3 f_equal; lia | reflexivity]).
    cbn [option_map fst snd]. now rewrite Nat.add_0_r.
  - rewrite IH. destruct (brace_span s) as [[k n]|];
      cbn [option_map fst snd]; [do 3 f_equal; lia | reflexivity].
Qed.

Lemma search_whole_array (t : string) :
  option_map whole (search false array_pattern t) =
  option_map (slice t) (bracket_span t).
Proof.
  unfold search. rewrite search_from_array.
  now destruct (bracket_span t) as [[k n]|].
Qed.

Lemma search_whole_object (t : string) :
  option_map whole (search false object_pattern t) =
  option_map (slice t) (brace_span t).
Proof.
  unfold search. rewrite search_from_object.
  now destruct (brace_span t) as [[k n]|].
Qed.

(** The parser never raises and computes what [parse_ai_response_spec]
    describes. *)
Lemma parse_ai_response_refines (response_text : string) :
  parse_ai_response response_text = Ok (parse_ai_response_spec response_text).
Proof.
  unfold parse_ai_response, parse_ai_response_spec.
  set (t := strip response_text).
  pose proof (search_whole_array t) as Ha.
  pose proof (search_whole_object t) as Ho.
  destruct (search false array_pattern t) as [ma|];
    destruct (bracket_span t) as [kna|]; try discriminate;
    destruct (search false object_pattern t) as [mo|];
    destruct (brace_span t) as [kno|]; try discriminate;
    cbn [option_map] in Ha, Ho;
    try (injection Ha as Ha; rewrite Ha); try (injection Ho as Ho; rewrite Ho);
    rewrite ?try_loads_spec; cbn [bind];
    repeat match goal with
    | |- context [loads ?x] => destruct (loads x) as [[]|]; cbn [bind]
    end; rewrite ?try_loads_spec; cbn [bind];
    repeat match goal with
    | |- context [loads ?x] => destruct (loads x) as [[]|]; cbn [bind]
    end; reflexivity.
Qed.

(** *** Prose followed by an array *)

Lemma rstrip_spaces (ws : string) :
  Text.forallb is_space ws = true -> rstrip ws = "".
Proof.
  induction ws as [|c ws IH]; simpl; [reflexivity |].
  intros H. apply andb_prop in H. destruct H as [Hc Hw].
  now rewrite (IH Hw), Hc.
Qed.

Lemma rstrip_app_spaces (s ws : string) :
  Text.forallb is_space ws = true -> rstrip (s ++ ws) = rstrip s.
Proof.
  intros H. induction s as [|c s IH]; simpl.
  - now apply rstrip_spaces.
  - now rewrite IH.
Qed.

Lemma rstrip_keep (s : string) (x : ascii) :
  is_space x = false -> rstrip (s ++ String x "") = s ++ String x "".
Proof.
  intros Hx. induction s as [|c s IH]; simpl.
  - now rewrite Hx.
  - rewrite IH. now destruct s.
Qed.

Lemma lstrip_app (a b : string) (x : ascii) :
  is_space x = false -> lstrip (a ++ String x b) = lstrip a ++ String x b.
Proof.
  intros Hx. induction a as [|c a IH]; simpl.
  - now rewrite Hx.
  - now destruct (is_space c).
Qed.

Lemma find_char_lstrip (c : ascii) (s : string) :
  find_char c s = None -> find_char c (lstrip s) = None.
Proof.
  induction s as [|a s IH]; simpl; [reflexivity |].
  destruct (Ascii.eqb a c) eqn:E; [discriminate |].
  destruct (find_char c s) eqn:F; [discriminate |]. intros _.
  destruct (is_space a); [now apply IH |].
  simpl. now rewrite E, F.
Qed.

Lemma find_char_app (c : ascii) (a b : string) :
  find_char c a = None ->
  find_char c (a ++ String c b) = Some (String.length a).
Proof.
  induction a as [|x a IH]; simpl.
  - now rewrite Ascii.eqb_refl.
  - destruct (Ascii.eqb x c); [discriminate |].
    destruct (find_char c a); [discriminate |]. intros _. now rewrite IH.
Qed.

Lemma skipn_app (a b : string) : skipn (String.length a) (a ++ b) = b.
Proof. induction a as [|x a IH]; simpl; [reflexivity | exact IH]. Qed.

Lemma skipn_app_S (a b : string) (x : ascii) :
  skipn (S (String.length a)) (a ++ String x b) = b.
Proof. induction a as [|y a IH]; simpl; [reflexivity | exact IH]. Qed.

Lemma rfind_char_last (c : ascii) (m : string) :
  rfind_char c (m ++ String c "") = Some (String.length m).
Proof.
  induction m as [|x m IH]; simpl.
  - now rewrite Ascii.eqb_refl.
  - now rewrite IH.
Qed.

Lemma firstn_all (s : string) : firstn (String.length s) s = s.
Proof. induction s as [|x s IH]; simpl; [reflexivity | now rewrite IH]. Qed.

(** C7, as the specification states it, fails.  The array pattern takes
    the text from the first opening bracket to the last closing bracket: a
    bracket in the prose makes that text invalid JSON, and only the first
    object of the trailing array is returned; with two arrays in the text
    nothing is returned, although the first of them is valid JSON. *)
Lemma C7_counterexample :
  loads prose_array
    = Ok (JArr [JObj [("amount", JInt 1)]; JObj [("amount", JInt 2)]]) /\
  parse_ai_response ("Catatan [1]: " ++ prose_array)
    = Ok [JObj [("amount", JInt 1)]] /\
  loads "[1]" = Ok (JArr [JInt 1]) /\
  parse_ai_response "[1] atau [2]" = Ok [].
Proof. repeat split; vm_compute; reflexivity. Qed.

(** C7, amended.  For every response text the parser returns, of the
    trimmed text: the items of the text that runs from the first opening
    bracket to the last closing bracket when that text is a JSON array;
    otherwise the one-element list of the first text made of an opening
    brace, one or more characters other than a closing brace and a closing
    brace, when that text is a JSON object; otherwise the empty list.  In
    particular, for prose without an opening bracket followed by a JSON
    array (and white space), it returns exactly the items of the array. *)
Theorem C7_response_parser :
  (forall response_text : string,
     parse_ai_response response_text
       = Ok (parse_ai_response_spec response_text)) /\
  (forall (prose mid ws : string) (items : list json),
     find_char "[" prose = None ->
     Text.forallb is_space ws = true ->
     loads ("[" ++ mid ++ "]") = Ok (JArr items) ->
     parse_ai_response (prose ++ "[" ++ mid ++ "]" ++ ws) = Ok items).
Proof.
  split; [exact parse_ai_response_refines |].
  intros prose mid ws items Hp Hws Hl.
  rewrite parse_ai_response_refines. f_equal.
  unfold parse_ai_response_spec.
  assert (Ht : strip (prose ++ "[" ++ mid ++ "]" ++ ws)
               = lstrip prose ++ "[" ++ (mid ++ "]")).
  { unfold strip. cbn [append]. rewrite lstrip_app by reflexivity.
    replace (lstrip prose ++ String "[" (mid ++ String "]" ws))
      with ((lstrip prose ++ String "[" mid) ++ String "]" "" ++ ws)
      by (rewrite !append_assoc_s; reflexivity).
    rewrite <- append_assoc_s, rstrip_app_spaces by exact Hws.
    rewrite rstrip_keep by reflexivity.
    now rewrite !append_assoc_s. }
  rewrite Ht. unfold bracket_span. cbn [append].
  rewrite find_char_app by (now apply find_char_lstrip).
  rewrite skipn_app_S.
  rewrite rfind_char_last. unfold slice. cbn [fst snd].
  rewrite skipn_app.
  replace (S (S (String.length mid)))
    with (String.length (String "[" (mid ++ "]")))
    by (simpl; rewrite length_append_s; simpl; lia).
  rewrite firstn_all. cbn [append] in Hl. now rewrite Hl.
Qed.

Lemma C7_witness :
  find_char "[" "Berikut hasilnya: " = None /\
  Text.forallb is_space " " = true /\
  loads ("[" ++ js "{'amount':1},{'amount':2}" ++ "]")
    = Ok (JArr [JObj [("amount", JInt 1)]; JObj [("amount", JInt 2)]]) /\
  parse_ai_response
    ("Berikut hasilnya: " ++ "[" ++ js "{'amount':1},{'amount':2}" ++ "]" ++ " ")
    = Ok [JObj [("amount", JInt 1)]; JObj [("amount", JInt 2)]].
Proof.
  assert (H1 : find_char "[" "Berikut hasilnya: " = None) by reflexivity.
  assert (H2 : Text.forallb is_space " " = true) by reflexivity.
  assert (H3 : loads ("[" ++ js "{'amount':1},{'amount':2}" ++ "]")
    = Ok (JArr [JObj [("amount", JInt 1)]; JObj [("amount", JInt 2)]]))
    by (vm_compute; reflexivity).
  split; [exact H1 | split; [exact H2 | split; [exact H3 |]]].
  exact (proj2 C7_response_parser _ _ _ _ H1 H2 H3).
Defined.

(** ** The Amount Normalizer *)

Lemma is_digit_lower_char (c : ascii) : is_digit (lower_char c) = is_digit c.
Proof. destruct c as [[] [] [] [] [] [] [] []]; reflexivity. Qed.

Lemma existsb_digit_lower (s : string) :
  Text.existsb is_digit (lower s) = Text.existsb is_digit s.
Proof.
  induction s as [|c s IH]; simpl; [reflexivity |].
  now rewrite is_digit_lower_char, IH.
Qed.

Lemma match_at_not_digit (ic : bool) (r : re) (p : option ascii) (s : string) :
  starts_with_digits r ->
  match s with String c _ => is_digit c = false | EmptyString => True end ->
  match_at ic r p s = None.
Proof.
  intros [tail ->] Hs. unfold match_at, D1. cbn [ends rest].
  destruct s as [|c s]; [reflexivity |].
  cbn [rep cls_match]. now rewrite Hs.
Qed.

(** A character that is not a digit is copied by [re.sub]. *)
Lemma sub_go_not_digit (ic : bool) (r : re) f (p : option ascii)
      (c : ascii) (s : string) :
  starts_with_digits r -> is_digit c = false ->
  sub_go ic r f p (String c s) O = String c (sub_go ic r f (Some c) s O).
Proof.
  intros Hr Hc. cbn [sub_go]. now rewrite match_at_not_digit.
Qed.

Lemma sub_go_nil (ic : bool) (r : re) f (p : option ascii) :
  starts_with_digits r -> sub_go ic r f p "" O = "".
Proof. intros Hr. cbn [sub_go]. now rewrite match_at_not_digit. Qed.

(** A text without digits is copied. *)
Lemma sub_go_no_digit (ic : bool) (r : re) f (a : string) :
  starts_with_digits r -> Text.existsb is_digit a = false ->
  forall (p : option ascii) (s : string),
  sub_go ic r f p (a ++ s) O = a ++ sub_go ic r f (last_char a p) s O.
Proof.
  intros Hr. induction a as [|c a IH]; intros Ha p s; [reflexivity |].
  cbn [Text.existsb] in Ha. apply orb_false_elim in Ha. destruct Ha as [Hc Ha].
  cbn [append last_char]. rewrite sub_go_not_digit by assumption.
  now rewrite IH.
Qed.





(** From four fraction digits on, the product of the nearest double with
    one million can fall just below the exact value and be truncated one
    unit down. *)
Example normalize_four_fraction_digits :
  normalize_amount_string "1.0157jt" = "1015699" /\
  normalize_amount_string "1.0000007jt" = "1000000".
Proof. split; vm_compute; reflexivity. Qed.

(** *** A run of digits followed by a magnitude suffix *)

Lemma flat_map_map {A B C : Type} (g : A -> B) (f : B -> list C) (l : list A) :
  flat_map f (map g l) = flat_map (fun x => f (g x)) l.
Proof. induction l as [|x l IH]; simpl; [reflexivity | now rewrite IH]. Qed.

(** A repetition over a maximal run [n]: when what follows the repetition
    cannot succeed inside the run, only the whole run counts. *)
Lemma flat_map_rep_run {B : Type} (ic : bool) (f : st -> list B) (k : cls)
      (n R : string) :
  Text.forallb (cls_match ic k) n = true -> blocked ic k R ->
  forall (min : nat) (s : st),
  rest s = n ++ R ->
  (forall w1 w2, n = w1 ++ w2 -> w2 <> "" -> f (after w1 (w2 ++ R) s) = []) ->
  flat_map f (rep ic k min (n ++ R) s) =
  if (min <=? String.length n)%nat then f (after n R s) else [].
Proof.
  intros Hn HR. induction n as [|c n IH]; intros min s Hs Hf.
  - cbn [append] in *. rewrite <- Hs at 2. rewrite after_nil.
    assert (E : rep ic k min R s = match min with O => [s] | S _ => [] end).
    { destruct R as [|x R]; [reflexivity |]. cbn [rep]. simpl in HR. now rewrite HR. }
    rewrite E. destruct min; simpl; [now rewrite app_nil_r | reflexivity].
  - cbn [Text.forallb] in Hn. apply andb_prop in Hn. destruct Hn as [Hc Hn].
    cbn [append rep]. rewrite Hc, flat_map_app.
    rewrite (IH Hn (Nat.pred min) (step c (n ++ R) s)); [| reflexivity |].
    + rewrite after_step.
      assert (E : flat_map f (match min with O => [s] | S _ => [] end) = []).
      { destruct min; [| reflexivity]. simpl. rewrite app_nil_r.
        rewrite <- (after_nil s), Hs.
        apply (Hf "" (String c n)); [reflexivity | discriminate]. }
      rewrite E, app_nil_r. destruct min as [|min]; [reflexivity |].
      reflexivity.
    + intros w1 w2 E Hw. rewrite after_step.
      apply Hf; [now rewrite E | exact Hw].
Qed.

Lemma char_eq_digit (ic : bool) (d a : ascii) :
  is_digit d = true -> is_digit a = false -> char_eq ic d a = false.
Proof.
  intros Hd Ha. unfold char_eq. destruct ic.
  - apply Ascii.eqb_neq. intros E.
    assert (H : is_digit (lower_char d) = true)
      by (now rewrite is_digit_lower_char).
    rewrite E, is_digit_lower_char in H. congruence.
  - apply Ascii.eqb_neq. intros ->. congruence.
Qed.

Lemma char_eq_space (ic : bool) (d a : ascii) :
  is_space d = true -> is_space a = false -> char_eq ic d a = false.
Proof.
  intros Hd Ha. unfold char_eq. destruct ic.
  - apply Ascii.eqb_neq. intros E.
    assert (H : is_space (lower_char d) = true)
      by (now rewrite is_space_lower_char).
    rewrite E, is_space_lower_char in H. congruence.
  - apply Ascii.eqb_neq. intros ->. congruence.
Qed.

Lemma digit_not_space (c : ascii) : is_digit c = true -> is_space c = false.
Proof. destruct c as [[] [] [] [] [] [] [] []]; cbv; intros H; congruence. Qed.

Lemma forallb_head (p : ascii -> bool) (w R : string) :
  Text.forallb p w = true -> w <> "" ->
  exists c t, w ++ R = String c t /\ p c = true.
Proof.
  destruct w as [|c w]; [congruence |]. cbn [Text.forallb append].
  intros H _. apply andb_prop in H. exists c, (w ++ R). tauto.
Qed.

Lemma last_char_app (a b : string) (p : option ascii) :
  last_char (a ++ b) p = last_char b (last_char a p).
Proof. revert p; induction a as [|c a IH]; intros p; simpl; [reflexivity | apply IH]. Qed.

(** The end states of [(\d+)\s*<w>\b] before a run of digits [n], white
    space [ws] and a text [B] that begins with neither: those of [<w>\b]
    at [B], with [n] as group 1. *)
Lemma ends_amount_run (ic : bool) (w n ws B : string) (p : option ascii) :
  suffix_word w ->
  Text.forallb is_digit n = true -> n <> "" ->
  Text.forallb is_space ws = true ->
  blocked ic CDigit (ws ++ B) -> blocked ic CSpace B ->
  ends ic (amount_with w) (mk_st p (n ++ ws ++ B) O []) =
  ends ic (Seq (Lit w) Wordb)
       (mk_st (last_char (n ++ ws) p) B
              (String.length n + String.length ws) [(1%nat, n)]).
Proof.
  intros Hw Hn Hne Hws HB1 HB2.
  destruct w as [|a w]; [contradiction |]. destruct Hw as [Ha1 Ha2].
  unfold amount_with, D1, S0. cbn [ends]. rewrite flat_map_map. cbn [rest].
  rewrite (flat_map_rep_run ic _ CDigit n (ws ++ B) Hn HB1);
    [| reflexivity |].
  - assert (Hmin : (1 <=? String.length n)%nat = true).
    { destruct n; [congruence | reflexivity]. }
    rewrite Hmin. unfold after. cbn [prev rest used caps].
    replace (0 + String.length n - 0)%nat with (String.length n) by lia.
    rewrite firstn_append.
    rewrite (flat_map_rep_run ic _ CSpace ws B Hws HB2); [| reflexivity |].
    + cbn [Nat.leb]. unfold after. cbn [prev rest used caps].
      now rewrite last_char_app.
    + intros w1 w2 E Hw2.
      destruct (forallb_head is_space w2 B) as (c & t & Ec & Hc);
        [| exact Hw2 |].
      * rewrite E in Hws. clear - Hws.
        induction w1 as [|x w1 IH]; [exact Hws |].
        cbn [append Text.forallb] in Hws. apply andb_prop in Hws. tauto.
      * unfold after. cbn [ends lit rest]. rewrite Ec.
        now rewrite (char_eq_space ic c a Hc Ha2).
  - intros w1 w2 E Hw2.
    destruct (forallb_head is_digit w2 (ws ++ B)) as (c & t & Ec & Hc);
      [| exact Hw2 |].
    + rewrite E in Hn. clear - Hn.
      induction w1 as [|x w1 IH]; [exact Hn |].
      cbn [append Text.forallb] in Hn. apply andb_prop in Hn. tauto.
    + unfold after. cbn [ends rest prev used caps]. rewrite Ec.
      cbn [rep cls_match]. rewrite (digit_not_space c Hc).
      cbn [flat_map lit rest]. now rewrite (char_eq_digit ic c a Hc Ha1).
Qed.


Lemma spaces_no_digit (ws : string) :
  Text.forallb is_space ws = true -> Text.existsb is_digit ws = false.
Proof.
  induction ws as [|c ws IH]; simpl; [reflexivity |].
  intros H. apply andb_prop in H. destruct H as [Hc Hw]. rewrite (IH Hw).
  destruct (is_digit c) eqn:E; [| reflexivity].
  apply digit_not_space in E. congruence.
Qed.

Lemma amount_with_starts (w : string) : starts_with_digits (amount_with w).
Proof. eexists; reflexivity. Qed.

(** The suffix word does not follow: the run is copied. *)
Lemma sub_go_run_miss (ic : bool) (w : string) f (n ws B : string) :
  suffix_word w ->
  Text.forallb is_digit n = true ->
  Text.forallb is_space ws = true ->
  blocked ic CDigit (ws ++ B) -> blocked ic CSpace B ->
  (forall s, rest s = B -> ends ic (Seq (Lit w) Wordb) s = []) ->
  forall p : option ascii,
  sub_go ic (amount_with w) f p (n ++ ws ++ B) O =
  n ++ ws ++ sub_go ic (amount_with w) f (last_char (n ++ ws) p) B O.
Proof.
  intros Hw Hn Hws HB1 HB2 Hmiss.
  induction n as [|c n IH]; intros p.
  - cbn [append]. rewrite sub_go_no_digit;
      [reflexivity | apply amount_with_starts | now apply spaces_no_digit].
  - assert (Hn' : Text.forallb is_digit n = true).
    { cbn [Text.forallb] in Hn. apply andb_prop in Hn. tauto. }
    assert (Em : match_at ic (amount_with w) p (String c n ++ ws ++ B) = None).
    { unfold match_at.
      rewrite ends_amount_run; try assumption; [| discriminate].
      now rewrite Hmiss. }
    cbn [append] in *. cbn [sub_go]. rewrite Em.
    rewrite (IH Hn'). reflexivity.
Qed.


Lemma no_digit_no_decimal (ic : bool) (R : string) :
  Text.existsb is_digit R = false -> no_decimal_ahead ic R.
Proof.
  destruct R as [|c [|d R]]; simpl; auto.
  - intros H. apply orb_false_elim in H. tauto.
  - intros H. apply orb_false_elim in H. destruct H as [Hc H].
    apply orb_false_elim in H. tauto.
Qed.

Lemma sep_not_digit (ic : bool) (d : ascii) :
  is_digit d = true -> cls_match ic (COneOf ".,") d = false.
Proof.
  intros Hd. cbn [cls_match Text.existsb].
  now rewrite !(char_eq_digit ic d) by (assumption || reflexivity).
Qed.

Lemma decimal_with_starts (S : re) : starts_with_digits (decimal_with S).
Proof. eexists; reflexivity. Qed.

Lemma ends_decimal_miss (ic : bool) (S : re) (n R : string) (p : option ascii) :
  Text.forallb is_digit n = true -> no_decimal_ahead ic R ->
  ends ic (decimal_with S) (mk_st p (n ++ R) O []) = [].
Proof.
  intros Hn HR. unfold decimal_with, D1. cbn [ends]. rewrite flat_map_map.
  cbn [rest].
  assert (HB : blocked ic CDigit R).
  { destruct R as [|c R]; [exact I |]. simpl. apply HR. }
  rewrite (flat_map_rep_run ic _ CDigit n R Hn HB); [| reflexivity |].
  - destruct (1 <=? String.length n)%nat; [| reflexivity].
    unfold after. cbn [prev rest used caps flat_map].
    destruct R as [|c R]; [reflexivity |].
    destruct (cls_match ic (COneOf ".,") c) eqn:Ec; [| reflexivity].
    cbn [flat_map]. rewrite app_nil_r. cbn [ends]. rewrite flat_map_map.
    cbn [rest step].
    destruct HR as [_ HR]. specialize (HR Ec).
    destruct R as [|d R]; [reflexivity |]. simpl in HR.
    cbn [rep cls_match]. now rewrite HR.
  - intros w1 w2 E Hw2.
    destruct (forallb_head is_digit w2 R) as (c & t & Ec & Hc); [| exact Hw2 |].
    + rewrite E in Hn. clear - Hn.
      induction w1 as [|x w1 IH]; [exact Hn |].
      cbn [append Text.forallb] in Hn. apply andb_prop in Hn. tauto.
    + unfold after. cbn [prev rest used caps]. rewrite Ec.
      now rewrite (sep_not_digit ic c Hc).
Qed.

Lemma sub_go_decimal_miss (ic : bool) (S : re) f (n R : string) :
  Text.forallb is_digit n = true -> no_decimal_ahead ic R ->
  forall p : option ascii,
  sub_go ic (decimal_with S) f p (n ++ R) O =
  n ++ sub_go ic (decimal_with S) f (last_char n p) R O.
Proof.
  intros Hn HR. induction n as [|c n IH]; intros p; [reflexivity |].
  assert (Hn' : Text.forallb is_digit n = true).
  { cbn [Text.forallb] in Hn. apply andb_prop in Hn. tauto. }
  assert (Em : match_at ic (decimal_with S) p (String c n ++ R) = None).
  { unfold match_at. now rewrite ends_decimal_miss. }
  cbn [append] in *. cbn [sub_go]. rewrite Em. now rewrite (IH Hn').
Qed.

(** *** One pass over a text with a single run of digits *)

Lemma sub_go_digit_free (ic : bool) (r : re) f (p : option ascii) (s : string) :
  starts_with_digits r -> Text.existsb is_digit s = false ->
  sub_go ic r f p s O = s.
Proof.
  intros Hr Hs. rewrite <- (append_nil_r_s s) at 1.
  rewrite sub_go_no_digit by assumption.
  now rewrite sub_go_nil, append_nil_r_s.
Qed.

Lemma existsb_app (q : ascii -> bool) (a b : string) :
  Text.existsb q (a ++ b) = (Text.existsb q a || Text.existsb q b)%bool.
Proof.
  induction a as [|c a IH]; simpl; [reflexivity |].
  now rewrite IH, orb_assoc.
Qed.

Lemma no_digit_blocked (ic : bool) (s : string) :
  Text.existsb is_digit s = false -> blocked ic CDigit s.
Proof.
  destruct s as [|c s]; simpl; [auto |]. intros H.
  apply orb_false_elim in H. tauto.
Qed.

Lemma no_word_at_ends (ic : bool) (w B : string) (s : st) :
  suffix_word w -> no_word_at ic w B -> rest s = B ->
  ends ic (Seq (Lit w) Wordb) s = [].
Proof.
  intros Hw Hno Hs. destruct w as [|a w]; [contradiction |].
  assert (H : map pos_of (ends ic (Seq (Lit (String a w)) Wordb) s) = []).
  { rewrite ends_pos. unfold pos_of. rewrite Hs. exact Hno. }
  now apply map_eq_nil in H.
Qed.

Lemma pass_amount_miss (ic : bool) (w : string) f (A n ws B : string) :
  suffix_word w ->
  Text.existsb is_digit A = false ->
  Text.forallb is_digit n = true ->
  Text.forallb is_space ws = true ->
  Text.existsb is_digit B = false -> blocked ic CSpace B ->
  no_word_at ic w B ->
  sub ic (amount_with w) f (A ++ n ++ ws ++ B) = A ++ n ++ ws ++ B.
Proof.
  intros Hw HA Hn Hws HB HB2 Hno. unfold sub.
  rewrite sub_go_no_digit by (apply amount_with_starts || assumption).
  rewrite (sub_go_run_miss ic w f n ws B); try assumption.
  - rewrite sub_go_digit_free by (apply amount_with_starts || assumption).
    reflexivity.
  - apply no_digit_blocked. rewrite existsb_app, HB.
    now rewrite spaces_no_digit.
  - intros s Hs. now apply (no_word_at_ends ic w B).
Qed.

Lemma pass_decimal_miss (ic : bool) (S : re) f (A n R : string) :
  Text.existsb is_digit A = false ->
  Text.forallb is_digit n = true ->
  Text.existsb is_digit R = false ->
  sub ic (decimal_with S) f (A ++ n ++ R) = A ++ n ++ R.
Proof.
  intros HA Hn HR. unfold sub.
  rewrite sub_go_no_digit by (apply decimal_with_starts || assumption).
  rewrite sub_go_decimal_miss by (assumption || now apply no_digit_no_decimal).
  now rewrite sub_go_digit_free by (apply decimal_with_starts || assumption).
Qed.


Lemma lspaces_lstrip (s : string) : s = lspaces s ++ lstrip s.
Proof.
  induction s as [|c s IH]; simpl; [reflexivity |].
  destruct (is_space c); simpl; [now rewrite <- IH | reflexivity].
Qed.

Lemma lspaces_spaces (s : string) : Text.forallb is_space (lspaces s) = true.
Proof.
  induction s as [|c s IH]; simpl; [reflexivity |].
  destruct (is_space c) eqn:E; simpl; [now rewrite E | reflexivity].
Qed.

Lemma lstrip_blocked (ic : bool) (s : string) : blocked ic CSpace (lstrip s).
Proof.
  induction s as [|c s IH]; simpl; [exact I |].
  destruct (is_space c) eqn:E; [exact IH | exact E].
Qed.

Lemma lstrip_no_digit (s : string) :
  Text.existsb is_digit s = false -> Text.existsb is_digit (lstrip s) = false.
Proof.
  intros H. rewrite (lspaces_lstrip s), existsb_app in H.
  now apply orb_false_elim in H.
Qed.

Lemma lower_char_digit (c : ascii) : is_digit c = true -> lower_char c = c.
Proof. destruct c as [[] [] [] [] [] [] [] []]; cbv; intros H; congruence. Qed.

Lemma lower_char_space (c : ascii) : is_space c = true -> lower_char c = c.
Proof. destruct c as [[] [] [] [] [] [] [] []]; cbv; intros H; congruence. Qed.

Lemma lower_digits (n : string) : Text.forallb is_digit n = true -> lower n = n.
Proof.
  induction n as [|c n IH]; simpl; [reflexivity |].
  intros H. apply andb_prop in H. destruct H as [Hc Hn].
  now rewrite (lower_char_digit c Hc), (IH Hn).
Qed.

Lemma lower_spaces (ws : string) : Text.forallb is_space ws = true -> lower ws = ws.
Proof.
  induction ws as [|c ws IH]; simpl; [reflexivity |].
  intros H. apply andb_prop in H. destruct H as [Hc Hn].
  now rewrite (lower_char_space c Hc), (IH Hn).
Qed.

Lemma is_word_lower_char (c : ascii) : is_word (lower_char c) = is_word c.
Proof. destruct c as [[] [] [] [] [] [] [] []]; reflexivity. Qed.

Lemma word_at_next_lower (s : string) :
  word_at (next (lower s)) = word_at (next s).
Proof. destruct s as [|c s]; simpl; [reflexivity | apply is_word_lower_char]. Qed.




(** *** An integer shorthand in a text without other digits *)




(** *** A decimal-million shorthand *)

Lemma forallb_suffix (q : ascii -> bool) (w1 w2 : string) :
  Text.forallb q (w1 ++ w2) = true -> Text.forallb q w2 = true.
Proof.
  induction w1 as [|x w1 IH]; [auto |].
  cbn [append Text.forallb]. intros H. apply andb_prop in H. tauto.
Qed.







(** *** The value of a decimal-million shorthand *)








(** ** Further instances *)

Lemma C6_witness :
  (STRESS, f_m04) = detect_emotion_from_text "Capek tapi puas".
Proof.
  apply (proj2 (C6_emotion_priority_order "Capek tapi puas")).
  apply picks_skip; [apply any_word_in_false; vm_compute; reflexivity |].
  apply picks_skip; [apply any_word_in_false; vm_compute; reflexivity |].
  apply picks_hit. apply any_word_in_spec. vm_compute. reflexivity.
Defined.


(** * Further properties of the code *)

(** ** Patterns without anchors: what is found is what occurs *)

Lemma search_found (ic : bool) (r : re) (s : string) :
  found_b (search ic r s) = true <->
  exists y, later (None, s) y /\ pends ic r y <> [].
Proof.
  split.
  - intros H. destruct (search ic r s) as [m|] eqn:E; [| discriminate].
    clear H. unfold search in E.
    destruct (search_from ic r None s O) as [[[i n] cs]|] eqn:Es; [| discriminate].
    clear E. revert Es. generalize (@None ascii) as p. generalize O as j.
    induction s as [|c s IH]; intros j p; cbn [search_from].
    + destruct (match_at ic r p "") as [[n' cs']|] eqn:Em; [| discriminate].
      intros _. exists (p, ""). split; [apply later_here |].
      intros Hn. apply match_at_none in Hn. congruence.
    + destruct (match_at ic r p (String c s)) as [[n' cs']|] eqn:Em.
      * intros _. exists (p, String c s). split; [apply later_here |].
        intros Hn. apply match_at_none in Hn. congruence.
      * intros H. apply IH in H. destruct H as (y & Hy & Hne).
        exists y. split; [now apply later_next | exact Hne].
  - intros (y & Hy & Hne).
    destruct (search ic r s) as [m|] eqn:E; [reflexivity |].
    exfalso. apply Hne. now apply (proj1 (search_none ic r s) E).
Qed.

Lemma later_suffix (p : option ascii) (s : string) (y : pos) :
  later (p, s) y -> exists a, s = a ++ snd y /\ fst y = last_char a p.
Proof.
  intros H. remember (p, s) as x eqn:Ex. revert p s Ex.
  induction H as [x | p0 c s0 y H IH]; intros p s Ex.
  - subst x. exists "". split; reflexivity.
  - injection Ex as <- <-.
    destruct (IH (Some c) s0 eq_refl) as (a & Ha & Hf).
    exists (String c a). simpl. now rewrite <- Ha.
Qed.

Lemma suffix_later (a s : string) (p : option ascii) :
  later (p, a ++ s) (last_char a p, s).
Proof.
  revert p; induction a as [|c a IH]; intros p; simpl.
  - apply later_here.
  - apply later_next, IH.
Qed.

Lemma plit_lang (w : string) (p q : option ascii) (s t : string) :
  In (q, t) (plit false w (p, s)) <-> s = w ++ t /\ q = last_char w p.
Proof.
  revert p s; induction w as [|a w IH]; intros p s; cbn [plit snd append last_char].
  - split.
    + intros [[= <- <-] | []]. auto.
    + intros [-> ->]. now left.
  - destruct s as [|c s]; [split; [intros [] | intros [H _]; discriminate] |].
    cbn [char_eq]. destruct (Ascii.eqb c a) eqn:E.
    + apply Ascii.eqb_eq in E. subst c. rewrite IH. split.
      * intros [-> ->]. auto.
      * intros [[= ->] ->]. auto.
    + split; [intros [] |]. intros [[= -> _] _].
      rewrite Ascii.eqb_refl in E. discriminate.
Qed.

Lemma prep_lang (k : cls) (r : string) :
  forall (min : nat) (p q : option ascii) (t : string),
  In (q, t) (prep false k min r (p, r)) <->
  exists x, r = x ++ t /\ Text.forallb (cls_match false k) x = true /\
            (min <= String.length x)%nat /\ q = last_char x p.
Proof.
  induction r as [|c r IH]; intros min p q t.
  - cbn [prep]. split.
    + destruct min; [| intros []]. intros [[= <- <-] | []].
      exists "". cbn. auto.
    + intros (x & Hx & _ & Hmin & ->).
      destruct x; [| discriminate]. cbn in *. subst t.
      destruct min; [now left | lia].
  - assert (Hstop : In (q, t) (match min with
                               | O => [(p, String c r)] | S _ => [] end) <->
                    (min = O /\ q = p /\ t = String c r)).
    { destruct min; cbn; split.
      - intros [[= <- <-] | []]. auto.
      - intros (_ & -> & ->). now left.
      - intros [].
      - intros (H & _). discriminate. }
    cbn [prep]. destruct (cls_match false k c) eqn:Ec.
    + rewrite in_app_iff, IH, Hstop. split.
      * intros [(x & Hx & Hall & Hmin & Hq) | (-> & -> & ->)].
        -- exists (String c x). cbn [append Text.forallb String.length last_char].
           rewrite Ec, Hall, <- Hx. repeat split; auto. lia.
        -- exists "". cbn. auto.
      * intros (x & Hx & Hall & Hmin & Hq).
        destruct x as [|a x].
        -- right. cbn in *. repeat split; auto. lia.
        -- left. cbn [append Text.forallb String.length last_char] in *.
           injection Hx as <- Hx. apply andb_prop in Hall.
           exists x. repeat split; try tauto. lia.
    + rewrite Hstop. split.
      * intros (-> & -> & ->). exists "". cbn. auto.
      * intros (x & Hx & Hall & Hmin & Hq).
        destruct x as [|a x].
        -- cbn in *. repeat split; auto. lia.
        -- cbn [append Text.forallb] in *. injection Hx as <- Hx.
           rewrite Ec in Hall. discriminate.
Qed.

(** The cursors at which a match of an anchor-free pattern ends: those
    after a text of its language. *)
Lemma pends_lang (r : re) :
  anchor_free r = true ->
  forall (p q : option ascii) (s t : string),
  In (q, t) (pends false r (p, s)) <->
  exists x, s = x ++ t /\ lang r x /\ q = last_char x p.
Proof.
  induction r as [w | k | k min | r1 IH1 r2 IH2 | r1 IH1 r2 IH2
                  | r1 IH1 | i r1 IH1 | | |]; intros Ha p q s t;
    cbn [anchor_free] in Ha; try discriminate; cbn [pends lang snd].
  - rewrite plit_lang. split.
    + intros [-> ->]. exists w. auto.
    + intros (x & -> & -> & ->). auto.
  - destruct s as [|c s].
    + split; [intros [] |]. intros (x & Hx & (c & -> & _) & _). discriminate.
    + destruct (cls_match false k c) eqn:Ec.
      * split.
        -- intros [[= <- <-] | []]. exists (String c ""). cbn.
           split; [reflexivity |]. split; [| reflexivity]. now exists c.
        -- intros (x & Hx & (c' & -> & Hc') & ->). cbn in Hx.
           injection Hx as <- <-. now left.
      * split; [intros [] |].
        intros (x & Hx & (c' & -> & Hc') & _). cbn in Hx.
        injection Hx as <- _. congruence.
  - rewrite prep_lang. split.
    + intros (x & Hx & Hall & Hmin & Hq). exists x. auto.
    + intros (x & Hx & (Hall & Hmin) & Hq). exists x. auto.
  - apply andb_prop in Ha. destruct Ha as [A1 A2].
    rewrite in_flat_map. split.
    + intros ([q1 t1] & H1 & H2).
      apply (IH1 A1) in H1. apply (IH2 A2) in H2.
      destruct H1 as (x1 & -> & L1 & ->). destruct H2 as (x2 & -> & L2 & ->).
      exists (x1 ++ x2). rewrite append_assoc_s, last_char_app.
      split; [reflexivity |]. split; [| reflexivity].
      exists x1, x2. auto.
    + intros (x & -> & (x1 & x2 & -> & L1 & L2) & ->).
      exists (last_char x1 p, x2 ++ t). split.
      * apply (IH1 A1). exists x1. rewrite append_assoc_s. auto.
      * apply (IH2 A2). exists x2. rewrite last_char_app. auto.
  - apply andb_prop in Ha. destruct Ha as [A1 A2].
    rewrite in_app_iff, (IH1 A1), (IH2 A2). split.
    + intros [(x & H1 & L & Hq) | (x & H1 & L & Hq)]; exists x; auto.
    + intros (x & H1 & [L | L] & Hq); [left | right]; exists x; auto.
  - rewrite in_app_iff, (IH1 Ha). split.
    + intros [(x & H1 & L & Hq) | [[= <- <-] | []]].
      * exists x. auto.
      * exists "". cbn. auto.
    + intros (x & H1 & [-> | L] & Hq).
      * right. left. cbn in *. now subst.
      * left. exists x. auto.
  - apply (IH1 Ha).
Qed.

(** [re.search] finds an anchor-free pattern in a text exactly when a text
    of its language occurs there. *)
Lemma search_lang (r : re) (s : string) :
  anchor_free r = true ->
  (found_b (search false r s) = true <-> exists x, lang r x /\ occurs x s).
Proof.
  intros Ha. rewrite search_found. split.
  - intros ([p t] & Hy & Hne).
    destruct (pends false r (p, t)) as [|[q u] l] eqn:E; [congruence |].
    assert (Hin : In (q, u) (pends false r (p, t))) by (rewrite E; now left).
    apply (pends_lang r Ha) in Hin. destruct Hin as (x & -> & L & _).
    apply later_suffix in Hy. destruct Hy as (a & Hs & _). cbn [snd] in Hs.
    exists x. split; [exact L |]. now exists a, u.
  - intros (x & L & pre & post & ->).
    exists (last_char pre None, x ++ post). split; [apply suffix_later |].
    assert (Hin : In (last_char x (last_char pre None), post)
                     (pends false r (last_char pre None, x ++ post))).
    { apply (pends_lang r Ha). exists x. auto. }
    intros Hn. rewrite Hn in Hin. exact Hin.
Qed.

Lemma any_of_lang (w : string) (ws : list string) (x : string) :
  lang (any_of w ws) x <-> In x (w :: ws).
Proof.
  revert w; induction ws as [|w1 ws IH]; intros w; cbn [any_of lang].
  - split; [intros ->; now left | intros [<- | []]; reflexivity].
  - rewrite IH. cbn [In]. split.
    + intros [-> | H]; auto.
    + intros [<- | H]; auto.
Qed.

Lemma any_of_anchor_free (w : string) (ws : list string) :
  anchor_free (any_of w ws) = true.
Proof.
  revert w; induction ws as [|w1 ws IH]; intros w; cbn [any_of anchor_free];
    [reflexivity | apply IH].
Qed.

(** A literal is found exactly where it occurs. *)
Lemma lit_search (w s : string) :
  found_b (search false (Lit w) s) = true <-> occurs w s.
Proof.
  rewrite search_lang by reflexivity. cbn [lang]. split.
  - intros (x & -> & H). exact H.
  - intros H. exists w. auto.
Qed.


Lemma same_line_run (mid : string) :
  Text.forallb (cls_match false (CNot "010")) mid = true <->
  find_char "010" mid = None.
Proof.
  induction mid as [|x mid IH]; cbn [Text.forallb find_char cls_match char_eq].
  - tauto.
  - destruct (Ascii.eqb x "010"); cbn [negb andb].
    + split; discriminate.
    + rewrite IH. destruct (find_char "010" mid); cbn [option_map];
        split; congruence.
Qed.

(** A word, any run of characters of one line and a group of alternative
    words. *)
Lemma compound_search (a w : string) (ws : list string) (i : nat) (s : string) :
  found_b (search false (Seq (Lit a) (Seq any_run (Grp i (any_of w ws)))) s)
  = true <-> occurs_then a (w :: ws) s.
Proof.
  rewrite search_lang
    by (cbn [anchor_free any_run andb]; apply any_of_anchor_free).
  split.
  - intros (x & (x1 & x2 & -> & -> & mid & x3 & -> & (Hall & _) & Hw)
              & pre & post & ->).
    apply any_of_lang in Hw. exists pre, mid, x3, post.
    split; [exact Hw |]. split; [now apply same_line_run |].
    now rewrite !append_assoc_s.
  - intros (pre & mid & w' & post & Hw & Hmid & ->).
    exists (a ++ mid ++ w'). split.
    + exists a, (mid ++ w'). split; [reflexivity |]. split; [reflexivity |].
      exists mid, w'. split; [reflexivity |]. split.
      * split; [now apply same_line_run | lia].
      * now apply any_of_lang.
    + exists pre, post. now rewrite !append_assoc_s.
Qed.


Lemma some_occurs_cons (w : string) (ws : list string) (s : string) :
  some_occurs (w :: ws) s <-> occurs w s \/ some_occurs ws s.
Proof.
  unfold some_occurs. split.
  - intros (w' & [<- | Hin] & Ho); [now left | right; now exists w'].
  - intros [Ho | (w' & Hin & Ho)];
      [exists w; split; [now left | exact Ho]
      | exists w'; split; [now right | exact Ho]].
Qed.

Lemma some_occurs_nil (s : string) : some_occurs [] s <-> False.
Proof. unfold some_occurs. split; [intros (w & [] & _) | tauto]. Qed.

(** ** The monetary indicator and the gate *)



Lemma lower_char_idem (c : ascii) : lower_char (lower_char c) = lower_char c.
Proof. destruct c as [[] [] [] [] [] [] [] []]; reflexivity. Qed.

Lemma lower_idem (s : string) : lower (lower s) = lower s.
Proof.
  induction s as [|c s IH]; simpl; [reflexivity |].
  now rewrite lower_char_idem, IH.
Qed.


Lemma prefix_contains (w s : string) : prefix w s = true -> contains w s = true.
Proof. intros H. destruct s; cbn [contains]; now rewrite H. Qed.

Lemma contains_nil (w : string) : w <> "" -> contains w "" = false.
Proof. destruct w; [congruence | reflexivity]. Qed.

Lemma contains_lstrip (w s : string) :
  solid w = true -> contains w s = true -> contains w (lstrip s) = true.
Proof.
  intros Hw. destruct w as [|a w]; [discriminate |].
  cbn [solid] in Hw. apply andb_prop in Hw. destruct Hw as [Ha _].
  apply negb_true_iff in Ha.
  induction s as [|c s IH]; [auto |].
  cbn [lstrip]. destruct (is_space c) eqn:Ec; [| auto].
  cbn [contains prefix].
  destruct (ascii_dec a c) as [->|Hne]; [congruence |].
  cbn [orb]. exact IH.
Qed.

Lemma last_char_cons (w : string) (a : ascii) (d : option ascii) :
  w <> "" -> last_char w (Some a) = last_char w d.
Proof. destruct w; [congruence | reflexivity]. Qed.

Lemma prefix_rstrip (w : string) :
  forall s z, last_char w None = Some z -> is_space z = false ->
  prefix w s = true -> prefix w (rstrip s) = true.
Proof.
  induction w as [|a w IH]; intros s z Hl Hz; [discriminate |].
  destruct s as [|b s]; [discriminate |]. cbn [prefix].
  destruct (ascii_dec a b) as [E|Hne]; [subst b | discriminate].
  intros Hp. cbn [rstrip]. cbn [last_char] in Hl.
  destruct w as [|a' w'].
  - cbn [last_char] in Hl. injection Hl as <-.
    destruct (rstrip s); [rewrite Hz |]; cbn [prefix];
      destruct (ascii_dec a a); congruence.
  - rewrite (last_char_cons (String a' w') a None) in Hl by discriminate.
    specialize (IH s z Hl Hz Hp).
    destruct (rstrip s) as [|x r]; [discriminate |].
    cbn [prefix] in *. destruct (ascii_dec a a); [exact IH | congruence].
Qed.

Lemma contains_rstrip (w s : string) :
  solid w = true -> contains w s = true -> contains w (rstrip s) = true.
Proof.
  intros Hw. destruct w as [|a w]; [discriminate |].
  cbn [solid] in Hw. apply andb_prop in Hw. destruct Hw as [_ Hl].
  destruct (last_char (String a w) None) as [z|] eqn:El; [| discriminate].
  apply negb_true_iff in Hl.
  induction s as [|c s IH]; [auto |].
  intros H. cbn [contains] in H. apply orb_prop in H. destruct H as [H | H].
  - apply prefix_contains. eapply prefix_rstrip; eauto.
  - specialize (IH H). cbn [rstrip].
    destruct (rstrip s) as [|x r]; [discriminate |].
    cbn [contains] in *. rewrite IH. apply orb_true_r.
Qed.

Lemma rstrip_prefix (s : string) : exists z, s = rstrip s ++ z.
Proof.
  induction s as [|c s [z Hz]]; [now exists "" |].
  cbn [rstrip]. destruct (rstrip s) as [|x r].
  - destruct (is_space c).
    + exists (String c s). reflexivity.
    + exists z. simpl in *. now rewrite <- Hz.
  - exists z. simpl in *. now rewrite <- Hz.
Qed.

(** A word without white space at its ends occurs in a text exactly when
    it occurs in the trimmed text. *)
Lemma occurs_strip (w s : string) :
  solid w = true -> (occurs w (strip s) <-> occurs w s).
Proof.
  intros Hw. split.
  - intros (pre & post & E). unfold strip in E.
    destruct (rstrip_prefix (lstrip s)) as (z & Hz).
    rewrite (lspaces_lstrip s), Hz, E.
    exists (lspaces s ++ pre), (post ++ z).
    now rewrite !append_assoc_s.
  - intros H. apply contains_spec. unfold strip.
    apply contains_rstrip; [exact Hw |]. apply contains_lstrip; [exact Hw |].
    now apply contains_spec.
Qed.


(** The casual patterns never change the verdict: both branches of the
    loop return what [has_money_indicator] says. *)
Lemma gate_as_indicator (message : string) :
  has_expense_pattern message =
  (negb (String.length (strip (lower message)) <? 5)%nat
   && has_money_indicator (strip (lower message)))%bool.
Proof.
  unfold has_expense_pattern. rewrite casual_loop_spec.
  destruct (_ <? _)%nat; [reflexivity |]. cbn [negb andb].
  now destruct (List.existsb _ casual_patterns).
Qed.

Lemma solid_spec (x : string) :
  solid x = true <->
  exists a z, next x = Some a /\ is_space a = false /\
              last_char x None = Some z /\ is_space z = false.
Proof.
  unfold solid. destruct x as [|a x]; cbn [next].
  - split; [discriminate | intros (a & z & H & _); discriminate].
  - destruct (last_char (String a x) None) as [z|] eqn:El.
    + rewrite andb_true_iff, !negb_true_iff. split.
      * intros [H1 H2]. exists a, z. auto.
      * intros (a' & z' & [= <-] & H1 & [= <-] & H2). auto.
    + rewrite andb_false_r. split; [discriminate |].
      intros (a' & z' & _ & _ & H & _). discriminate.
Qed.

Lemma last_char_some (w : string) (d : option ascii) (z : ascii) :
  last_char w None = Some z -> last_char w d = Some z.
Proof.
  destruct w as [|c w]; [discriminate |]. cbn [last_char]. auto.
Qed.

Lemma next_app (a b : string) : a <> "" -> next (a ++ b) = next a.
Proof. destruct a; [congruence | reflexivity]. Qed.

(** Digits, white space and a word without white space at its ends. *)
Lemma solid_amount (n ws w : string) :
  Text.forallb is_digit n = true -> n <> "" -> solid w = true ->
  solid (n ++ ws ++ w) = true.
Proof.
  intros Hn Hne Hw. apply solid_spec in Hw.
  destruct Hw as (a & z & _ & _ & Hl & Hz).
  apply solid_spec.
  destruct n as [|c n]; [congruence |].
  cbn [Text.forallb] in Hn. apply andb_prop in Hn. destruct Hn as [Hc _].
  exists c, z. split; [reflexivity |].
  split; [now apply digit_not_space |]. split; [| exact Hz].
  rewrite !last_char_app. now apply last_char_some.
Qed.

Lemma solid_digits (n : string) :
  Text.forallb is_digit n = true -> n <> "" -> solid n = true.
Proof.
  intros Hn Hne. apply solid_spec.
  destruct n as [|c n]; [congruence |].
  assert (Hl : exists z, last_char (String c n) None = Some z /\ is_digit z = true).
  { clear Hne. revert c Hn. generalize (@None ascii).
    induction n as [|d n IH]; intros o c Hn.
    - cbn in *. exists c. rewrite andb_true_r in Hn. auto.
    - cbn [Text.forallb] in Hn. apply andb_prop in Hn. destruct Hn as [Hc Hn].
      cbn [last_char]. apply (IH (Some c) d Hn). }
  destruct Hl as (z & Hl & Hz).
  cbn [Text.forallb] in Hn. apply andb_prop in Hn. destruct Hn as [Hc _].
  exists c, z. repeat split; auto using digit_not_space.
Qed.

Lemma search_strip (r : re) (s : string) :
  anchor_free r = true ->
  (forall x, lang r x -> solid x = true) ->
  found_b (search false r (strip s)) = found_b (search false r s).
Proof.
  intros Ha Hs.
  assert (H : found_b (search false r (strip s)) = true <->
              found_b (search false r s) = true).
  { rewrite !search_lang by exact Ha. split; intros (x & L & Ho); exists x;
      (split; [exact L |]); apply (occurs_strip x s (Hs x L)); exact Ho. }
  destruct (found_b (search false r (strip s)));
    destruct (found_b (search false r s)); try reflexivity.
  - symmetry. now apply H.
  - now apply H.
Qed.

Lemma money_patterns_solid :
  Forall (fun r => anchor_free r = true /\
                   forall x, lang r x -> solid x = true) money_patterns.
Proof.
  assert (Hlit : forall w, solid w = true ->
            forall x, lang (Seq D1 (Seq S0 (Lit w))) x -> solid x = true).
  { intros w Hw x (n & y & -> & (Hn & Hlen) & ws & w' & -> & _ & ->).
    apply solid_amount; [exact Hn | | exact Hw].
    destruct n; [cbn in Hlen; lia | discriminate]. }
  unfold money_patterns. repeat constructor; try (now apply Hlit).
  - intros x (n & y & -> & (Hn & Hlen) & ws & w' & -> & _ & c & -> & Hc).
    apply solid_amount; [exact Hn | |].
    + destruct n; [cbn in Hlen; lia | discriminate].
    + cbn [cls_match Text.existsb char_eq] in Hc.
      apply orb_prop in Hc. destruct Hc as [Hc | Hc].
      * apply Ascii.eqb_eq in Hc. now subst c.
      * apply orb_prop in Hc. destruct Hc as [Hc | Hc]; [| discriminate].
        apply Ascii.eqb_eq in Hc. now subst c.
  - intros x (Hn & Hlen). apply solid_digits; [exact Hn |].
    destruct x; [cbn in Hlen; lia | discriminate].
  - intros x Hx. cbn [lang] in Hx. apply any_of_lang in Hx.
    repeat (destruct Hx as [<- | Hx]; [reflexivity |]). destruct Hx.
  - intros x Hx. cbn [lang] in Hx. apply any_of_lang in Hx.
    repeat (destruct Hx as [<- | Hx]; [reflexivity |]). destruct Hx.
Qed.

(** The indicator does not depend on white space around the message. *)
Lemma has_money_indicator_strip (s : string) :
  has_money_indicator (strip s) = has_money_indicator s.
Proof.
  unfold has_money_indicator. rewrite <- strip_lower.
  generalize (lower s) as t. intros t.
  pose proof money_patterns_solid as H.
  induction H as [|r l [Ha Hs] _ IH]; [reflexivity |].
  cbn [List.existsb]. now rewrite IH, search_strip.
Qed.

Lemma has_money_indicator_lower (s : string) :
  has_money_indicator (lower s) = has_money_indicator s.
Proof. unfold has_money_indicator. now rewrite lower_idem. Qed.




(** ** The fallback extractor on the shapes of text *)










Lemma spaces_then_blocked (ic : bool) (ws B : string) :
  Text.forallb is_space ws = true -> blocked ic CDigit B ->
  blocked ic CDigit (ws ++ B).
Proof.
  destruct ws as [|c ws]; [auto |]. cbn [Text.forallb append blocked cls_match].
  intros H _. apply andb_prop in H. destruct H as [Hc _].
  destruct (is_digit c) eqn:E; [| reflexivity].
  apply digit_not_space in E. congruence.
Qed.










(** A repetition over a maximal run [n]: the longest alternative comes
    first, and there is none when the run is too short. *)
Lemma rep_run_head (ic : bool) (k : cls) (n R : string) :
  Text.forallb (cls_match ic k) n = true -> blocked ic k R ->
  forall (min : nat) (s : st),
  rest s = n ++ R ->
  ((min <= String.length n)%nat ->
   exists tl, rep ic k min (n ++ R) s = after n R s :: tl) /\
  ((String.length n < min)%nat -> rep ic k min (n ++ R) s = []).
Proof.
  intros Hn HR. induction n as [|c n IH]; intros min s Hs.
  - cbn [append String.length] in *.
    assert (E : rep ic k min R s = match min with O => [s] | S _ => [] end).
    { destruct R as [|x R]; [reflexivity |]. cbn [rep]. simpl in HR. now rewrite HR. }
    rewrite E. split; intros Hm.
    + destruct min; [| lia]. exists []. rewrite <- Hs. now rewrite after_nil.
    + destruct min; [lia | reflexivity].
  - cbn [Text.forallb] in Hn. apply andb_prop in Hn. destruct Hn as [Hc Hn].
    cbn [append rep String.length]. rewrite Hc.
    destruct (IH Hn (Nat.pred min) (step c (n ++ R) s) eq_refl) as [H1 H2].
    split; intros Hm.
    + destruct H1 as (tl & ->); [lia |]. rewrite after_step.
      eexists. reflexivity.
    + rewrite H2 by lia. destruct min; [lia | reflexivity].
Qed.







(** *** The fallback extractor and the gate *)

Lemma suffix_loop_some (ms : list (string * Z)) (t : string) (v : Z) :
  suffix_loop ms t = Some v ->
  exists w k, In (w, k) ms /\ found_b (search false (amount_with w) t) = true.
Proof.
  induction ms as [|[w k] ms IH]; cbn [suffix_loop]; [discriminate |].
  destruct (search false (amount_with w) t) as [m|] eqn:E.
  - intros _. exists w, k. split; [now left | now rewrite E].
  - intros H. destruct (IH H) as (w' & k' & Hin & Hf).
    exists w', k'. split; [now right | exact Hf].
Qed.

(** Where [(\d+)\s*<w>\b] matches, [\d+\s*<w>] matches as well. *)
Lemma amount_with_weaker (w : string) (y : pos) :
  pends false (amount_with w) y <> [] ->
  pends false (Seq D1 (Seq S0 (Lit w))) y <> [].
Proof.
  intros H. destruct (pends false (amount_with w) y) as [|e l] eqn:E; [congruence |].
  assert (Hin : In e (pends false (amount_with w) y)) by (rewrite E; now left).
  unfold amount_with in Hin. cbn [pends] in Hin.
  apply in_flat_map in Hin. destruct Hin as (a & Ha & Hin).
  apply in_flat_map in Hin. destruct Hin as (b & Hb & Hin).
  apply in_flat_map in Hin. destruct Hin as (c & Hc & _).
  intros Hn.
  assert (Hc' : In c (pends false (Seq D1 (Seq S0 (Lit w))) y)).
  { cbn [pends]. apply in_flat_map. exists a. split; [exact Ha |].
    apply in_flat_map. exists b. split; [exact Hb | exact Hc]. }
  rewrite Hn in Hc'. exact Hc'.
Qed.

Lemma amount_with_k_weaker (y : pos) :
  pends false (amount_with "k") y <> [] ->
  pends false (Seq D1 (Seq S0 (Set_ (COneOf "kr")))) y <> [].
Proof.
  intros H. destruct (pends false (amount_with "k") y) as [|e l] eqn:E; [congruence |].
  assert (Hin : In e (pends false (amount_with "k") y)) by (rewrite E; now left).
  unfold amount_with in Hin. cbn [pends] in Hin.
  apply in_flat_map in Hin. destruct Hin as (a & Ha & Hin).
  apply in_flat_map in Hin. destruct Hin as ([p s] & Hb & Hin).
  apply in_flat_map in Hin. destruct Hin as (c & Hc & _).
  intros Hn.
  cbn [plit snd] in Hc. destruct s as [|x s]; [destruct Hc |].
  destruct (char_eq false x "k") eqn:Ex; [| destruct Hc].
  assert (Hc' : In (Some x, s) (pends false (Seq D1 (Seq S0 (Set_ (COneOf "kr")))) y)).
  { cbn [pends]. apply in_flat_map. exists a. split; [exact Ha |].
    apply in_flat_map. exists (p, String x s). split; [exact Hb |].
    cbn [snd cls_match Text.existsb]. rewrite Ex. now left. }
  rewrite Hn in Hc'. exact Hc'.
Qed.

Lemma search_weaker (r1 r2 : re) (t : string) :
  (forall y, pends false r1 y <> [] -> pends false r2 y <> []) ->
  found_b (search false r1 t) = true -> found_b (search false r2 t) = true.
Proof.
  intros H. rewrite !search_found. intros (y & Hy & Hne).
  exists y. split; [exact Hy | now apply H].
Qed.

(** Whenever the fallback extractor finds an amount in a message, the
    message has a monetary indicator. *)
Lemma fallback_amount_is_indicator :
  forall (text : string) (a : Z),
  extract_amount_fallback text = Ok (Some a) ->
  has_money_indicator text = true.
Proof.
  intros text a H. unfold has_money_indicator, money_patterns.
  cbn [List.existsb].
  unfold extract_amount_fallback in H.
  destruct (suffix_loop multipliers (lower text)) as [v|] eqn:E.
  - apply suffix_loop_some in E. destruct E as (w & k & Hin & Hf).
    unfold multipliers in Hin.
    destruct Hin as [[= <- <-] | [[= <- <-] | [[= <- <-] | [[= <- <-] |
                    [[= <- <-] | []]]]]].
    + rewrite (search_weaker _ _ _ amount_with_k_weaker Hf). reflexivity.
    + rewrite (search_weaker _ _ _ (amount_with_weaker "rb") Hf).
      now rewrite !orb_true_r.
    + rewrite (search_weaker _ _ _ (amount_with_weaker "ribu") Hf).
      now rewrite !orb_true_r.
    + rewrite (search_weaker _ _ _ (amount_with_weaker "jt") Hf).
      now rewrite !orb_true_r.
    + rewrite (search_weaker _ _ _ (amount_with_weaker "juta") Hf).
      now rewrite !orb_true_r.
  - pose proof (suffix_loop_none _ _ E) as Hn.
    rewrite decimal_needs_suffix in H;
      [| apply (Hn "jt" 1000000); simpl; tauto
       | apply (Hn "juta" 1000000); simpl; tauto].
    destruct (search false (Grp 1 (Rep CDigit 4)) (lower text)) as [m|] eqn:E4;
      [| discriminate].
    assert (Hf : found_b (search false (Grp 1 (Rep CDigit 4)) (lower text)) = true)
      by (now rewrite E4).
    rewrite (search_weaker (Grp 1 (Rep CDigit 4)) (Rep CDigit 4) _
               (fun y h => h) Hf).
    now rewrite !orb_true_r.
Qed.

(** X7.  Whenever the fallback extractor finds an amount in a message, the
    message has a monetary indicator, and it passes the gate when its
    trimmed text has five or more characters. *)
Theorem fallback_amount_passes_gate :
  forall (text : string) (a : Z),
  extract_amount_fallback text = Ok (Some a) ->
  has_money_indicator text = true /\
  ((5 <= String.length (strip text))%nat -> has_expense_pattern text = true).
Proof.
  intros text a H.
  assert (Hi : has_money_indicator text = true)
    by (eapply fallback_amount_is_indicator, H).
  split; [exact Hi |]. intros Hl.
  rewrite gate_as_indicator, has_money_indicator_strip,
    has_money_indicator_lower, Hi, strip_lower, length_lower.
  apply Nat.ltb_ge in Hl. now rewrite Hl.
Qed.

Lemma fallback_amount_passes_gate_witness :
  extract_amount_fallback "kopi 25rb" = Ok (Some 25000) /\
  has_money_indicator "kopi 25rb" = true /\
  has_expense_pattern "kopi 25rb" = true.
Proof.
  assert (H : extract_amount_fallback "kopi 25rb" = Ok (Some 25000))
    by (vm_compute; reflexivity).
  split; [exact H |].
  destruct (fallback_amount_passes_gate "kopi 25rb" 25000 H) as [H1 H2].
  split; [exact H1 |]. apply H2. vm_compute. lia.
Defined.

(** ** The normalizer on a number without suffix *)

Lemma no_suffix_letter_miss (w B : string) :
  suffix_word w ->
  match w with String a _ => In a ["k"; "r"; "j"]%char | EmptyString => True end ->
  lower B = B -> no_suffix_letter B ->
  no_word_at true w B.
Proof.
  intros Hw Ha Hl Hq. destruct w as [|a w]; [contradiction |].
  unfold no_word_at. cbn [pends plit snd].
  destruct B as [|c B]; [reflexivity |].
  cbn [lower] in Hl. injection Hl as Hc _.
  destruct Hq as (Q1 & Q2 & Q3).
  assert (E : char_eq true c a = false).
  { unfold char_eq. rewrite Hc. apply Ascii.eqb_neq.
    destruct Ha as [<- | [<- | [<- | []]]]; cbn; congruence. }
  now rewrite E.
Qed.

(** X8.  A number that no magnitude suffix follows is left as it is: in a
    text without other digits, in which the number is not followed (after
    optional white space) by one of the letters k, r and j, the normalizer
    only lowercases. *)
Theorem normalizer_leaves_plain_number :
  forall (pre n post : string),
  Text.existsb is_digit pre = false ->
  Text.forallb is_digit n = true ->
  Text.existsb is_digit post = false ->
  no_suffix_letter (lstrip (lower post)) ->
  normalize_amount_string (pre ++ n ++ post) = lower (pre ++ n ++ post).
Proof.
  intros pre n post Hpre Hn Hpost Hq.
  unfold normalize_amount_string.
  rewrite !lower_append, (lower_digits n Hn).
  rewrite <- existsb_digit_lower in Hpre, Hpost.
  assert (Hl : lower (lstrip (lower post)) = lstrip (lower post))
    by (now rewrite <- lstrip_lower, lower_idem).
  revert Hpre Hpost Hq Hl.
  generalize (lower pre) as A. generalize (lower post) as P.
  intros P A HA HP Hq Hl.
  assert (Hamt : forall w f,
            suffix_word w ->
            match w with String a _ => In a ["k"; "r"; "j"]%char
                       | EmptyString => True end ->
            sub true (amount_with w) f (A ++ n ++ P) = A ++ n ++ P).
  { intros w f Hw Ha. rewrite (lspaces_lstrip P) at 1 2.
    apply pass_amount_miss; try assumption.
    - apply lspaces_spaces.
    - now apply lstrip_no_digit.
    - apply lstrip_blocked.
    - now apply no_suffix_letter_miss. }
  assert (Hdec : forall S f,
            sub true (decimal_with S) f (A ++ n ++ P) = A ++ n ++ P).
  { intros S f. now apply pass_decimal_miss. }
  unfold normalize_patterns. cbn [fold_left].
  rewrite !Hamt, !Hdec, !Hamt by first [split; reflexivity | simpl; tauto].
  reflexivity.
Qed.

Lemma normalizer_leaves_plain_number_witness :
  normalize_amount_string ("Abis beli ayam " ++ "12000" ++ " Anjing")
  = lower ("Abis beli ayam " ++ "12000" ++ " Anjing").
Proof.
  apply (normalizer_leaves_plain_number "Abis beli ayam " "12000" " Anjing");
    try reflexivity.
  simpl. repeat split; discriminate.
Defined.

(** ** Counting the expenses of a message *)

Lemma findall_skip (ic : bool) (r : re) (a : string) :
  needs_digit ic r -> Text.existsb is_digit a = false ->
  forall (p : option ascii) (s : string),
  findall_go ic r p (a ++ s) O = findall_go ic r (last_char a p) s O.
Proof.
  intros Hr. induction a as [|c a IH]; intros Ha p s; [reflexivity |].
  cbn [Text.existsb] in Ha. apply orb_false_elim in Ha. destruct Ha as [Hc Ha].
  cbn [append last_char findall_go].
  rewrite Hr by exact Hc. now apply IH.
Qed.

Lemma findall_digit_free (ic : bool) (r : re) (s : string) (p : option ascii) :
  needs_digit ic r -> Text.existsb is_digit s = false ->
  findall_go ic r p s O = [].
Proof.
  intros Hr Hs. rewrite <- (append_nil_r_s s).
  rewrite findall_skip by assumption.
  cbn [findall_go]. now rewrite Hr.
Qed.

Lemma findall_jump (ic : bool) (r : re) (w s : string) (p : option ascii) :
  findall_go ic r p (w ++ s) (String.length w) = findall_go ic r (last_char w p) s O.
Proof.
  revert p; induction w as [|c w IH]; intros p; [reflexivity |].
  cbn [append String.length findall_go last_char]. apply IH.
Qed.

(** A match that takes the text [x] at the cursor is counted, and the
    search goes on after [x]. *)
Lemma findall_hit (ic : bool) (r : re) (x s : string) (p : option ascii)
      (cs : list (nat * string)) :
  x <> "" ->
  match_at ic r p (x ++ s) = Some (String.length x, cs) ->
  findall_go ic r p (x ++ s) O = cs :: findall_go ic r (last_char x p) s O.
Proof.
  intros Hx Hm. destruct x as [|c x]; [congruence |].
  cbn [append] in *. cbn [findall_go]. rewrite Hm.
  cbn [String.length Nat.pred last_char]. now rewrite findall_jump.
Qed.

Lemma digits_tail_needs_digit (ic : bool) (min : nat) (tail : re) :
  needs_digit ic (Seq (Rep CDigit (S min)) tail).
Proof.
  intros p s Hs. unfold match_at. cbn [ends rest].
  destruct s as [|c s]; [reflexivity |]. simpl in Hs.
  cbn [rep cls_match]. now rewrite Hs.
Qed.

Lemma digits_needs_digit (ic : bool) (min : nat) :
  needs_digit ic (Rep CDigit (S min)).
Proof.
  intros p s Hs. unfold match_at. cbn [ends rest].
  destruct s as [|c s]; [reflexivity |]. simpl in Hs.
  cbn [rep cls_match]. now rewrite Hs.
Qed.

(** [\d{4,}] on a run of digits: one match when the run has four or more
    digits, none otherwise. *)
Lemma findall_plain_run (min : nat) (n R : string) :
  Text.forallb is_digit n = true -> blocked false CDigit R ->
  forall p : option ascii,
  findall_go false (Rep CDigit (S min)) p (n ++ R) O =
  ((if (S min <=? String.length n)%nat then [[]] else [])
   ++ findall_go false (Rep CDigit (S min)) (last_char n p) R O)%list.
Proof.
  intros Hn HR. induction n as [|c n IH]; intros p; [reflexivity |].
  assert (Hn' : Text.forallb is_digit n = true).
  { cbn [Text.forallb] in Hn. apply andb_prop in Hn. tauto. }
  destruct (rep_run_head false CDigit (String c n) R Hn HR (S min)
              (mk_st p (String c n ++ R) O []) eq_refl) as [H1 H2].
  destruct (S min <=? String.length (String c n))%nat eqn:El.
  - apply Nat.leb_le in El. destruct (H1 El) as (tl & Hrep).
    cbn [app]. apply findall_hit; [discriminate |].
    unfold match_at. cbn [ends rest]. rewrite Hrep.
    unfold after. cbn [used caps]. reflexivity.
  - apply Nat.leb_gt in El. cbn [app].
    assert (Em : match_at false (Rep CDigit (S min)) p (String c n ++ R) = None).
    { unfold match_at. cbn [ends rest]. now rewrite (H2 El). }
    cbn [append] in *. cbn [findall_go]. rewrite Em.
    rewrite (IH Hn').
    assert (El' : (S min <=? String.length n)%nat = false).
    { apply Nat.leb_gt. cbn [String.length] in El. lia. }
    rewrite El'. reflexivity.
Qed.

(** The end states of [\d+\s*T] before a run of digits, white space and a
    text [B] that begins with neither, for a tail [T] that matches neither
    before a digit nor before white space: those of [T] at [B]. *)
Lemma ends_digits_spaces (ic : bool) (T : re) (n ws B : string)
      (p : option ascii) :
  (forall s c t, rest s = String c t ->
                 is_digit c = true \/ is_space c = true ->
                 ends ic T s = []) ->
  Text.forallb is_digit n = true -> n <> "" ->
  Text.forallb is_space ws = true ->
  blocked ic CDigit (ws ++ B) -> blocked ic CSpace B ->
  ends ic (Seq D1 (Seq S0 T)) (mk_st p (n ++ ws ++ B) O []) =
  ends ic T (mk_st (last_char (n ++ ws) p) B
                   (String.length n + String.length ws) []).
Proof.
  intros HT Hn Hne Hws HB1 HB2.
  unfold D1, S0. cbn [ends rest].
  rewrite (flat_map_rep_run ic _ CDigit n (ws ++ B) Hn HB1); [| reflexivity |].
  - assert (Hmin : (1 <=? String.length n)%nat = true).
    { destruct n; [congruence | reflexivity]. }
    rewrite Hmin. cbn [ends]. unfold after at 1. cbn [rest].
    rewrite (flat_map_rep_run ic _ CSpace ws B Hws HB2); [| reflexivity |].
    + cbn [Nat.leb]. unfold after. cbn [prev rest used caps].
      now rewrite last_char_app.
    + intros w1 w2 E Hw2.
      destruct (forallb_head is_space w2 B) as (c & t & Ec & Hc);
        [| exact Hw2 |].
      * rewrite E in Hws. now apply forallb_suffix in Hws.
      * apply (HT _ c t); [| now right]. unfold after. cbn [rest]. exact Ec.
  - intros w1 w2 E Hw2.
    destruct (forallb_head is_digit w2 (ws ++ B)) as (c & t & Ec & Hc);
      [| exact Hw2 |].
    + rewrite E in Hn. now apply forallb_suffix in Hn.
    + cbn [ends]. unfold after at 1. cbn [rest]. rewrite Ec at 1.
      cbn [rep cls_match]. rewrite (digit_not_space c Hc).
      cbn [flat_map]. rewrite app_nil_r.
      apply (HT _ c t); [| now left]. unfold after. cbn [rest]. exact Ec.
Qed.

Lemma counted_tail_needs_letter (s : st) (c : ascii) (t : string) :
  rest s = String c t ->
  is_digit c = true \/ is_space c = true ->
  ends false (Seq (Grp 1 (any_of "k" ["rb"; "ribu"; "jt"; "juta"])) Wordb) s = [].
Proof.
  intros Hs Hc.
  assert (E : forall a, In a ["k"; "r"; "j"]%char -> char_eq false c a = false).
  { intros a Ha. destruct Hc as [Hc | Hc].
    - apply char_eq_digit; [exact Hc |].
      repeat (destruct Ha as [<- | Ha]; [reflexivity |]). destruct Ha.
    - apply char_eq_space; [exact Hc |].
      repeat (destruct Ha as [<- | Ha]; [reflexivity |]). destruct Ha. }
  cbn [ends any_of lit]. rewrite Hs.
  rewrite !E by (simpl; tauto). reflexivity.
Qed.

Lemma counted_tail_hit (suf P : string) (q : option ascii) (u : nat) :
  In suf ["k"; "rb"; "ribu"; "jt"; "juta"] ->
  word_at (next P) = false ->
  exists e tl,
    ends false (Seq (Grp 1 (any_of "k" ["rb"; "ribu"; "jt"; "juta"])) Wordb)
         (mk_st q (suf ++ P) u []) = e :: tl /\
    used e = (u + String.length suf)%nat.
Proof.
  intros Hin Hb.
  destruct Hin as [<- | [<- | [<- | [<- | [<- | []]]]]];
    cbn [ends any_of lit rest append step used prev caps char_eq map app
         flat_map];
    cbn; rewrite Hb; cbn; eexists; eexists;
    (split; [reflexivity | cbn [used String.length]; lia]).
Qed.

(** X9.  [count_expense_indicators] never returns less than one, and
    returns one for a text without digits, whatever separators it holds.
    A single shorthand amount in a text without other digits counts once
    when its number has up to three digits, and twice when it has four or
    more: the pattern of the plain numbers counts it again. *)
Theorem count_of_a_single_amount :
  (forall message, 1 <= count_expense_indicators message) /\
  (forall message,
     Text.existsb is_digit message = false ->
     count_expense_indicators message = 1) /\
  (forall (pre n ws sufx post : string),
     In (lower sufx) ["k"; "rb"; "ribu"; "jt"; "juta"] ->
     Text.existsb is_digit pre = false ->
     Text.forallb is_digit n = true -> n <> "" ->
     Text.forallb is_space ws = true ->
     Text.existsb is_digit post = false ->
     word_at (next post) = false ->
     count_expense_indicators (pre ++ n ++ ws ++ sufx ++ post)
     = if (4 <=? String.length n)%nat then 2 else 1).
Proof.
  split; [| split].
  - intros message. unfold count_expense_indicators. lia.
  - intros message Hd. unfold count_expense_indicators, findall.
    rewrite <- existsb_digit_lower in Hd.
    rewrite !findall_digit_free;
      [reflexivity | apply digits_needs_digit | exact Hd
       | apply digits_tail_needs_digit | exact Hd].
  - intros pre n ws sufx post Hin Hpre Hn Hne Hws Hpost Hb.
    unfold count_expense_indicators, findall.
    rewrite !lower_append, (lower_digits n Hn), (lower_spaces ws Hws).
    rewrite <- existsb_digit_lower in Hpre, Hpost.
    rewrite <- word_at_next_lower in Hb.
    revert Hin Hpre Hpost Hb.
    generalize (lower pre) as A. generalize (lower post) as P.
    generalize (lower sufx) as suf.
    intros suf P A Hin HA HP Hb.
    assert (Hsuf : Text.existsb is_digit suf = false /\ suffix_word suf).
    { destruct Hin as [<- | [<- | [<- | [<- | [<- | []]]]]];
        split; try reflexivity; split; reflexivity. }
    destruct Hsuf as [Hsd Hsw].
    assert (HsP : Text.existsb is_digit (suf ++ P) = false)
      by (now rewrite existsb_app, Hsd).
    (* the pattern of the shorthand amounts *)
    assert (E1 : findall_go false counted_amount None
                   (A ++ n ++ ws ++ suf ++ P) O
                 = [ match match_at false counted_amount (last_char A None)
                             (n ++ ws ++ suf ++ P) with
                     | Some (_, cs) => cs
                     | None => []
                     end ]).
    { rewrite findall_skip by (apply digits_tail_needs_digit || assumption).
      destruct (counted_tail_hit suf P (last_char (n ++ ws) (last_char A None))
                  (String.length n + String.length ws) Hin Hb)
        as (e & tl & He & Hu).
      assert (Em : match_at false counted_amount (last_char A None)
                     (n ++ ws ++ suf ++ P)
                   = Some (String.length (n ++ ws ++ suf), caps e)).
      { unfold match_at, counted_amount.
        rewrite (ends_digits_spaces false _ n ws (suf ++ P));
          try assumption.
        - rewrite He, Hu. rewrite !length_append_s. f_equal. f_equal. lia.
        - apply counted_tail_needs_letter.
        - apply spaces_then_blocked; [assumption |]. now apply no_digit_blocked.
        - destruct suf as [|a suf]; [contradiction |]. simpl. apply Hsw. }
      rewrite Em.
      replace (n ++ ws ++ suf ++ P) with ((n ++ ws ++ suf) ++ P) in *
        by (now rewrite !append_assoc_s).
      rewrite (findall_hit false counted_amount (n ++ ws ++ suf) P _ (caps e));
        [| destruct n; [congruence | discriminate] | exact Em].
      rewrite findall_digit_free
        by (apply digits_tail_needs_digit || assumption).
      reflexivity. }
    (* the pattern of the plain numbers *)
    assert (E2 : findall_go false (Rep CDigit 4) None
                   (A ++ n ++ ws ++ suf ++ P) O
                 = if (4 <=? String.length n)%nat then [[]] else []).
    { rewrite findall_skip by (apply digits_needs_digit || assumption).
      rewrite findall_plain_run; [| exact Hn |].
      - rewrite findall_digit_free; [now rewrite app_nil_r
                                    | apply digits_needs_digit |].
        rewrite existsb_app, HsP. now rewrite spaces_no_digit.
      - apply spaces_then_blocked; [assumption |]. now apply no_digit_blocked. }
    rewrite E1, E2.
    destruct (4 <=? String.length n)%nat; reflexivity.
Qed.

Lemma count_of_a_single_amount_witness :
  count_expense_indicators "makan enak banget" = 1 /\
  count_expense_indicators ("sewa kos " ++ "1500" ++ " " ++ "RB" ++ " sebulan")
  = if (4 <=? String.length "1500")%nat then 2 else 1.
Proof.
  split.
  - apply (proj1 (proj2 count_of_a_single_amount) "makan enak banget").
    reflexivity.
  - apply (proj2 (proj2 count_of_a_single_amount)
             "sewa kos " "1500" " " "RB" " sebulan");
      try reflexivity; try discriminate.
    simpl. tauto.
Defined.

(** ** The tables of categories and emotions *)

(** X10.  Reading back the value of a category, in any letter case, gives
    the category. *)
Theorem map_category_round_trip :
  forall (c : ExpenseCategory) (s : string),
  lower s = lower (ExpenseCategory_value c) ->
  map_category (JStr s) = Ok c.
Proof.
  intros c s H. unfold map_category, lower_of. cbn [bind]. rewrite H.
  destruct c; reflexivity.
Qed.

Lemma map_category_round_trip_witness :
  map_category (JStr "MAKANAN & minuman") = Ok MAKANAN_MINUMAN.
Proof.
  apply (map_category_round_trip MAKANAN_MINUMAN "MAKANAN & minuman").
  reflexivity.
Defined.

(** X11.  Reading back the value of an emotion label, in any letter case,
    gives the label. *)
Theorem map_emotion_round_trip :
  forall (e : EmotionLabel) (s : string),
  lower s = lower (EmotionLabel_value e) ->
  map_emotion (JStr s) = Ok e.
Proof.
  intros e s H. unfold map_emotion, lower_of. cbn [bind]. rewrite H.
  destruct e; reflexivity.
Qed.

Lemma map_emotion_round_trip_witness :
  map_emotion (JStr "STRESS") = Ok STRESS.
Proof.
  apply (map_emotion_round_trip STRESS "STRESS"). reflexivity.
Defined.

(** ** Invariants of the returned extractions *)

Lemma ExpenseExtraction_new_bounds name amt cat emo sent conf e :
  ExpenseExtraction_new name amt cat emo sent conf = Ok e ->
  e = mkExpenseExtraction name amt cat emo sent conf /\ within_bounds e.
Proof.
  unfold ExpenseExtraction_new, within_bounds.
  destruct (0 <=? amt) eqn:Ea; cbn [andb]; [| discriminate].
  destruct (PyFloat.leb f_minus_one sent) eqn:E1; cbn [andb]; [| discriminate].
  destruct (PyFloat.leb sent f_one) eqn:E2; cbn [andb]; [| discriminate].
  destruct (PyFloat.leb f_zero conf) eqn:E3; cbn [andb]; [| discriminate].
  destruct (PyFloat.leb conf f_one) eqn:E4; [| discriminate].
  intros [= <-]. cbn [amount sentiment_score ai_confidence].
  apply Z.leb_le in Ea. repeat split; assumption.
Qed.

Lemma extract_item_shape de ds item e :
  extract_item de ds item = Ok (Some e) ->
  within_bounds e /\ (de <> NETRAL -> emotion e <> NETRAL).
Proof.
  unfold extract_item. intros H. repeat inv_bind H.
  injection H as <-.
  match goal with
  | E : ExpenseExtraction_new _ _ _ _ _ _ = Ok _ |- _ =>
      apply ExpenseExtraction_new_bounds in E; destruct E as [-> Hb]
  end.
  split; [exact Hb |]. cbn [emotion]. intros Hde.
  match goal with
  | E : (if ?b then _ else _) = Ok _ |- _ => destruct b eqn:Eb
  end.
  - match goal with E : Ok _ = Ok _ |- _ => injection E as <- end.
    exact Hde.
  - repeat match goal with
    | E : bind _ _ = Ok _ |- _ => inv_bind E
    end.
    match goal with E : Ok _ = Ok _ |- _ => injection E as <- end.
    cbn [fst]. intros ->. cbn [EmotionLabel_eqb andb] in Eb.
    destruct de; cbn in Eb; congruence.
Qed.

Lemma extract_items_shape de ds (l : list json) (P : ExpenseExtraction -> Prop) :
  (forall item e, extract_item de ds item = Ok (Some e) -> P e) ->
  forall acc res,
  Forall P acc -> extract_items de ds l acc = Ok res -> Forall P res.
Proof.
  intros HP. induction l as [|item l IH]; intros acc res Hacc; simpl.
  - now intros [= <-].
  - destruct (extract_item de ds item) as [[e|]|x] eqn:E; cbn [bind];
      [| apply IH; exact Hacc | discriminate].
    apply IH. apply Forall_app. split; [exact Hacc |].
    constructor; [| constructor]. eapply HP, E.
Qed.

(** What the entry point returns, branch by branch. *)
Lemma extract_multiple_expenses_cases (user_message : string)
      (remote : string -> remote_outcome) (l : list ExpenseExtraction) :
  extract_multiple_expenses user_message remote = Ok l ->
  l = [] \/
  (exists a, 0 < a /\ l = [fallback_after_error user_message a]) \/
  (exists a, 0 < a /\ l = [fallback_after_empty a]) \/
  (exists items,
     extract_items (fst (detect_emotion_from_text user_message))
                   (snd (detect_emotion_from_text user_message)) items []
     = Ok l).
Proof.
  unfold extract_multiple_expenses.
  destruct (negb (has_expense_pattern user_message)); [intros [= <-]; now left |].
  destruct (extract_try _ _ _) as [l'|x] eqn:Et.
  - intros [= <-]. unfold extract_try in Et.
    destruct (remote _) as [|content]; [discriminate |].
    inv_bind Et. destruct a as [|item items].
    + inv_bind Et. destruct (amount_found a) as [v|] eqn:Ev;
        [| injection Et as <-; now left].
      inv_bind Et. injection Et as <-.
      apply ExpenseExtraction_new_bounds in E1. destruct E1 as [-> Hb].
      apply amount_found_spec in Ev. destruct Ev as [_ Hnz].
      right. right. left. exists v. split; [| reflexivity].
      destruct Hb as [Hb _]. cbn [amount] in Hb. lia.
    + right. right. right. exists (item :: items).
      now destruct (detect_emotion_from_text user_message) as [de ds].
  - destruct (extract_except_spec user_message) as (o & Ho & ->).
    intros [= <-].
    destruct (extract_amount_fallback_total user_message) as (o' & Ho' & Hpos).
    rewrite Ho in Ho'. injection Ho' as <-.
    destruct (amount_found o) as [v|] eqn:Ev; [| now left].
    apply amount_found_spec in Ev. destruct Ev as [-> Hnz].
    right. left. exists v. split; [| reflexivity].
    specialize (Hpos v eq_refl). lia.
Qed.

(** X12.  Every extraction that the entry point returns is within the
    bounds of the model: the amount is not negative, the sentiment lies
    between -1 and 1 and the confidence between 0 and 1 (none of them is
    NaN). *)
Theorem returned_within_bounds :
  forall (user_message : string) (remote : string -> remote_outcome)
         (l : list ExpenseExtraction),
  extract_multiple_expenses user_message remote = Ok l ->
  Forall within_bounds l.
Proof.
  intros user_message remote l H.
  apply extract_multiple_expenses_cases in H.
  destruct H as [-> | [(a & Ha & ->) | [(a & Ha & ->) | (items & H)]]].
  - constructor.
  - constructor; [| constructor]. unfold within_bounds, fallback_after_error.
    cbn [amount sentiment_score ai_confidence].
    destruct (detect_sentiment_valid user_message) as [S1 S2].
    repeat split; try assumption; try lia; vm_compute; reflexivity.
  - constructor; [| constructor]. unfold within_bounds, fallback_after_empty.
    cbn [amount sentiment_score ai_confidence].
    repeat split; try lia; vm_compute; reflexivity.
  - eapply extract_items_shape; [| constructor | exact H].
    intros item e He. now apply extract_item_shape in He.
Qed.

Lemma returned_within_bounds_witness :
  Forall within_bounds
    [mkExpenseExtraction "Kopi" 25000 LAINNYA NETRAL f_zero f_07c].
Proof.
  apply (returned_within_bounds kopi_roti_message
           (fun _ => RemoteContent (Some (js "[{'item_name':'Kopi','amount':25000}]")))).
  vm_compute. reflexivity.
Defined.

(** X13.  When the Emotion Detector finds an emotion in the message, no
    extraction built from the parsed candidates is labelled Neutral: the
    detected emotion replaces a neutral answer.  The one neutral result is
    the fallback of the empty response. *)
Theorem detected_emotion_overrides_neutral :
  forall (user_message : string) (remote : string -> remote_outcome)
         (l : list ExpenseExtraction),
  extract_multiple_expenses user_message remote = Ok l ->
  fst (detect_emotion_from_text user_message) <> NETRAL ->
  Forall (fun e => emotion e <> NETRAL \/
                   e = fallback_after_empty (amount e)) l.
Proof.
  intros user_message remote l H Hde.
  apply extract_multiple_expenses_cases in H.
  destruct H as [-> | [(a & Ha & ->) | [(a & Ha & ->) | (items & H)]]].
  - constructor.
  - constructor; [| constructor]. left. exact Hde.
  - constructor; [| constructor]. right. reflexivity.
  - eapply extract_items_shape; [| constructor | exact H].
    intros item e He. left. apply extract_item_shape in He.
    now apply He.
Qed.

Lemma detected_emotion_overrides_neutral_witness :
  Forall (fun e => emotion e <> NETRAL \/ e = fallback_after_empty (amount e))
    [mkExpenseExtraction "Ayam" 12000 LAINNYA MARAH f_m06 f_07c].
Proof.
  apply (detected_emotion_overrides_neutral ayam
           (fun _ => RemoteContent
              (Some (js "[{'item_name':'Ayam','amount':12000,'emotion':'Netral','sentiment_score':0.0}]")))).
  - vm_compute. reflexivity.
  - vm_compute. discriminate.
Defined.

(** ** Candidates that make the loop raise *)



Lemma ExpenseExtraction_new_refuses name amt cat emo sent conf :
  amt < 0 \/ PyFloat.leb conf f_one = false ->
  ExpenseExtraction_new name amt cat emo sent conf = Raise ValidationError.
Proof.
  intros H. unfold ExpenseExtraction_new.
  destruct H as [H | H].
  - apply Z.leb_gt in H. now rewrite H.
  - rewrite H. now rewrite !andb_false_r.
Qed.

(** X15.  A candidate outside the bounds of the model is not skipped: the
    loop raises on it.  This holds for a candidate whose amount is a
    negative integer, and for one whose confidence is a number above 1 (a
    percentage, say), its amount being true. *)
Theorem out_of_range_candidate_raises :
  forall (de : EmotionLabel) (ds : PyFloat.float) (d : list (string * json)),
  (forall a, dict_get d "amount" = Some (JInt a) -> a < 0 ->
     exists e, extract_item de ds (JObj d) = Raise e) /\
  (forall v c, dict_get d "amount" = Some v -> truthy v = true ->
     dict_get d "ai_confidence" = Some c ->
     (forall f, to_float c = Ok f -> PyFloat.leb f f_one = false) ->
     exists e, extract_item de ds (JObj d) = Raise e).
Proof.
  intros de ds d. split.
  - intros a Ha Hneg. unfold extract_item, get. cbn [bind]. rewrite Ha.
    cbn [truthy]. destruct (Z.eqb_spec a 0) as [E|E]; [lia |]. cbn [negb].
    repeat match goal with
    | |- exists e, bind ?r _ = Raise e =>
        let E := fresh "E" in
        destruct r eqn:E; cbn [bind]; [| eexists; reflexivity]
    | |- exists e, bind (if ?b then _ else _) _ = Raise e => destruct b
    end.
    all: exfalso.
    all: repeat match goal with
         | H : to_int (JInt _) = Ok _ |- _ =>
             cbn [to_int] in H; injection H as <-
         end.
    all: match goal with
         | H : ExpenseExtraction_new _ _ _ _ _ _ = Ok _ |- _ =>
             rewrite ExpenseExtraction_new_refuses in H by (now left);
             discriminate H
         end.
  - intros v c Hv Ht Hc Hf. unfold extract_item, get. cbn [bind]. rewrite Hv, Ht, Hc.
    cbn [negb].
    repeat match goal with
    | |- exists e, bind ?r _ = Raise e =>
        let E := fresh "E" in
        destruct r eqn:E; cbn [bind]; [| eexists; reflexivity]
    | |- exists e, bind (if ?b then _ else _) _ = Raise e => destruct b
    end.
    all: exfalso.
    all: match goal with
         | G : forall f, Ok ?x = Ok f -> _ |- _ => specialize (G x eq_refl)
         end.
    all: match goal with
         | H : ExpenseExtraction_new _ _ _ _ _ _ = Ok _ |- _ =>
             rewrite ExpenseExtraction_new_refuses in H by (now right);
             discriminate H
         end.
Qed.

Lemma out_of_range_candidate_raises_witness :
  exists e,
    extract_item NETRAL f_zero
      (JObj [("item_name", JStr "Kopi"); ("amount", JInt 25000);
             ("ai_confidence", JInt 95)]) = Raise e.
Proof.
  apply (proj2 (out_of_range_candidate_raises NETRAL f_zero
                  [("item_name", JStr "Kopi"); ("amount", JInt 25000);
                   ("ai_confidence", JInt 95)]) (JInt 25000) (JInt 95));
    try reflexivity.
  intros f Hf. vm_compute in Hf. injection Hf as <-. vm_compute. reflexivity.
Defined.

(** ** The single-expense entry point and the validation *)





(** ** The receipt path *)

Lemma receipt_json_inr (t : string) (r : ReceiptData) :
  receipt_json t = Ok (inr r) -> r = ReceiptData_default t.
Proof.
  unfold receipt_json.
  destruct (loads (strip t)) as [data|e]; [discriminate |].
  destruct e; try discriminate.
  destruct (find_char "{" t) as [k|]; [| now intros [= <-]].
  destruct (loads _); discriminate.
Qed.

Lemma receipt_of_data_raw (data : json) (t : string) (r : ReceiptData) :
  receipt_of_data data t = Ok r -> raw_text r = Some t.
Proof.
  unfold receipt_of_data. intros H. repeat inv_bind H.
  now injection H as <-.
Qed.

(** X17.  Whatever the response, the receipt returned by the parser keeps
    the response text as its raw text. *)
Theorem receipt_keeps_response_text :
  forall response_text : string,
  raw_text (parse_receipt_response response_text) = Some response_text.
Proof.
  intros t. unfold parse_receipt_response.
  destruct (receipt_json t) as [[data|r]|e] eqn:E; cbn [bind]; [| | reflexivity].
  - destruct (receipt_of_data data t) as [r|e] eqn:Er; [| reflexivity].
    eapply receipt_of_data_raw, Er.
  - apply receipt_json_inr in E. now subst r.
Qed.

Lemma receipt_items_app (l1 l2 : list json) (acc : list ReceiptItem) :
  receipt_items (l1 ++ l2) acc =
  match receipt_items l1 acc with
  | Ok acc' => receipt_items l2 acc'
  | Raise e => Raise e
  end.
Proof.
  revert acc; induction l1 as [|x l1 IH]; intros acc; [reflexivity |].
  cbn [app receipt_items].
  destruct (receipt_item x) as [it|e]; [apply IH |].
  destruct (is_ValueError e || is_TypeError e)%bool; [apply IH | reflexivity].
Qed.

(** X18.  In the loop over the line items, an item on which [int] or the
    model raises a [ValueError] or a [TypeError] is left out, and the items
    before and after it are read as if it were not there. *)
Theorem receipt_items_skip :
  forall (before after : list json) (bad : json) (acc : list ReceiptItem)
         (e : exn),
  receipt_item bad = Raise e ->
  (is_ValueError e || is_TypeError e)%bool = true ->
  receipt_items (before ++ bad :: after) acc = receipt_items (before ++ after) acc.
Proof.
  intros before after bad acc e Hbad He.
  rewrite !receipt_items_app.
  destruct (receipt_items before acc) as [acc'|x]; [| reflexivity].
  cbn [receipt_items]. now rewrite Hbad, He.
Qed.

Lemma receipt_items_skip_witness :
  receipt_items
    ([JObj [("name", JStr "Kopi"); ("price", JInt 15000)]]
     ++ JObj [("name", JStr "Gula"); ("price", JNull)]
     :: [JObj [("name", JStr "Teh"); ("price", JInt 5000)]]) []
  = receipt_items
      ([JObj [("name", JStr "Kopi"); ("price", JInt 15000)]]
       ++ [JObj [("name", JStr "Teh"); ("price", JInt 5000)]]) [].
Proof.
  apply (receipt_items_skip _ _ (JObj [("name", JStr "Gula"); ("price", JNull)])
           [] TypeError); reflexivity.
Defined.

Lemma int_of_string_raises (s : string) (e : exn) :
  int_of_string s = Raise e -> e = ValueError.
Proof.
  unfold int_of_string. destruct (split_sign (strip s)) as [neg body].
  destruct (digits_us body false); [discriminate | now intros [= <-]].
Qed.

Lemma to_int_raises (v : json) (e : exn) :
  to_int v = Raise e ->
  e = ValueError \/ e = TypeError \/
  (e = OverflowError /\ exists s, v = JFloat (S754_infinity s)).
Proof.
  destruct v as [| b | n | f | s | l | d]; cbn [to_int];
    try discriminate; try (intros [= <-]; auto).
  - destruct f as [z | z | | z m x]; cbn [PyFloat.to_int];
      try discriminate; intros [= <-]; [| auto].
    right. right. split; [reflexivity | now exists z].
  - intros H. left. eapply int_of_string_raises, H.
Qed.

Lemma receipt_item_raises (d : list (string * json)) (e : exn) :
  countable_item (JObj d) ->
  receipt_item (JObj d) = Raise e ->
  (is_ValueError e || is_TypeError e)%bool = true.
Proof.
  intros [Hq Hp]. unfold receipt_item, get. cbn [bind].
  destruct (to_int _) as [q|x] eqn:Eq; cbn [bind].
  - destruct (to_int (match dict_get d "price" with
                      | Some v => v | None => JInt 0 end)) as [p|x] eqn:Ep;
      cbn [bind].
    + destruct (to_str_field _) as [nm|x] eqn:En; cbn [bind]; [discriminate |].
      intros [= <-]. unfold to_str_field in En.
      destruct (match dict_get d "name" with Some v => v | None => _ end);
        try discriminate; now injection En as <-.
    + intros [= <-]. apply to_int_raises in Ep.
      destruct Ep as [-> | [-> | [-> (s & Es)]]]; try reflexivity.
      destruct (dict_get d "price") as [v|]; [| discriminate].
      subst v. discriminate.
  - intros [= <-]. apply to_int_raises in Eq.
    destruct Eq as [-> | [-> | [-> (s & Es)]]]; try reflexivity.
    destruct (dict_get d "quantity") as [v|]; [| discriminate].
    subst v. discriminate.
Qed.

(** The loop over countable items returns, in their order, the items that
    could be read. *)
Lemma receipt_items_read (l : list json) (acc : list ReceiptItem) :
  Forall countable_item l ->
  receipt_items l acc =
  Ok (acc ++ flat_map (fun item => match receipt_item item with
                                   | Ok it => [it]
                                   | Raise _ => []
                                   end) l)%list.
Proof.
  intros Hl. revert acc.
  induction Hl as [|item l Hitem _ IH]; intros acc.
  - cbn [receipt_items flat_map]. now rewrite app_nil_r.
  - cbn [receipt_items flat_map].
    destruct item as [| b | n | f | s | its | d]; try contradiction.
    destruct (receipt_item (JObj d)) as [it|e] eqn:E.
    + rewrite IH. now rewrite <- app_assoc.
    + rewrite (receipt_item_raises d e Hitem E). apply IH.
Qed.

(** X19.  When every line item is an object whose quantity and price are not
    an infinite float, the loop over the items never raises: it returns, in
    their order, the items that could be read.  An item that is not an
    object, after such items, makes the loop raise [AttributeError]. *)
Theorem receipt_items_never_raises :
  forall (l : list json) (acc : list ReceiptItem),
  Forall countable_item l ->
  receipt_items l acc =
  Ok (acc ++ flat_map (fun item => match receipt_item item with
                                   | Ok it => [it]
                                   | Raise _ => []
                                   end) l)%list /\
  (forall v after, not_object v ->
     receipt_items (l ++ v :: after) acc = Raise AttributeError).
Proof.
  intros l acc Hl. split; [now apply receipt_items_read |].
  intros v after Hv. destruct v; try contradiction;
    rewrite receipt_items_app, (receipt_items_read l acc Hl); reflexivity.
Qed.

Lemma receipt_items_never_raises_witness :
  receipt_items [JObj [("name", JStr "Kopi"); ("price", JStr "mahal")];
                 JObj [("name", JStr "Teh"); ("price", JInt 5000)]] []
  = Ok [mkReceiptItem "Teh" 1 5000].
Proof.
  apply (proj1 (receipt_items_never_raises
           [JObj [("name", JStr "Kopi"); ("price", JStr "mahal")];
            JObj [("name", JStr "Teh"); ("price", JInt 5000)]] []
           ltac:(repeat constructor))).
Defined.

(** X20.  The receipt read from a response that decodes to an object with a
    store name, an integer total, a date (a text, null or absent) and a
    list of countable line items: those fields, the line items that could be
    read, and the response as raw text. *)
Theorem clean_receipt_is_read :
  forall (response_text store : string) (total : Z) (when : option string)
         (d : list (string * json)) (lines : list json),
  loads (strip response_text) = Ok (JObj d) ->
  dict_get d "store_name" = Some (JStr store) ->
  dict_get d "total_amount" = Some (JInt total) ->
  to_opt_str_field (match dict_get d "date" with
                    | Some v => v
                    | None => JNull
                    end) = Ok when ->
  dict_get d "items" = Some (JArr lines) ->
  Forall countable_item lines ->
  parse_receipt_response response_text =
  mkReceiptData store total when
    (flat_map (fun item => match receipt_item item with
                           | Ok it => [it]
                           | Raise _ => []
                           end) lines)
    (Some response_text).
Proof.
  intros t store total when d lines Hloads Hstore Htotal Hdate Hitems Hlines.
  unfold parse_receipt_response, receipt_json. rewrite Hloads. cbn [bind].
  unfold receipt_of_data, get. rewrite Hitems, Hstore, Htotal. cbn [bind iterate].
  rewrite (receipt_items_read lines [] Hlines). cbn [bind to_int to_str_field app].
  rewrite Hdate. reflexivity.
Qed.

Lemma clean_receipt_is_read_witness :
  parse_receipt_response toko_example =
  mkReceiptData "Toko A" 15000 None
    (flat_map (fun item => match receipt_item item with
                           | Ok it => [it]
                           | Raise _ => []
                           end)
              [JObj [("name", JStr "Kopi"); ("price", JInt 15000)]])
    (Some toko_example).
Proof.
  apply (clean_receipt_is_read toko_example "Toko A" 15000 None
           [("store_name", JStr "Toko A"); ("total_amount", JInt 15000);
            ("items", JArr [JObj [("name", JStr "Kopi"); ("price", JInt 15000)]])]
           [JObj [("name", JStr "Kopi"); ("price", JInt 15000)]]).
  - vm_compute. reflexivity.
  - reflexivity.
  - reflexivity.
  - reflexivity.
  - reflexivity.
  - repeat constructor.
Defined.

(** *** A JSON object inside other text *)

Lemma matching_end_nested (a : string) :
  nested a ->
  forall (s : string) (c : Z) (i : nat), 0 < c ->
  matching_end (a ++ s) c i = matching_end s c (i + String.length a).
Proof.
  induction 1 as [| ch s0 Ho Hc Hs IH | a b Ha IHa Hb IHb]; intros s c i Hpos.
  - cbn [append String.length]. now rewrite Nat.add_0_r.
  - cbn [append matching_end String.length].
    apply Ascii.eqb_neq in Ho. apply Ascii.eqb_neq in Hc. rewrite Ho, Hc.
    rewrite IH by exact Hpos. f_equal. lia.
  - rewrite !append_assoc_s. cbn [append matching_end].
    change (Ascii.eqb "{" "{") with true. cbn iota.
    rewrite IHa by lia.
    cbn [append matching_end].
    change (Ascii.eqb "}" "{") with false. change (Ascii.eqb "}" "}") with true.
    cbn iota.
    replace (c + 1 - 1) with c by lia.
    destruct (Z.eqb_spec c 0) as [E|E]; [lia |].
    rewrite IHb by exact Hpos. f_equal.
    cbn [String.length]. rewrite length_append_s. cbn [String.length]. lia.
Qed.

(** The brace that closes the first one of an object with nested braces is
    its last character. *)
Lemma matching_end_object (inner tail : string) :
  nested inner ->
  matching_end (("{" ++ inner ++ "}") ++ tail) 0 O
  = String.length ("{" ++ inner ++ "}").
Proof.
  intros Hn. rewrite !append_assoc_s. cbn [append matching_end].
  change (Ascii.eqb "{" "{") with true. cbn iota.
  rewrite (matching_end_nested inner Hn) by lia.
  cbn [append matching_end String.length].
  change (Ascii.eqb "}" "{") with false. change (Ascii.eqb "}" "}") with true.
  cbn iota. cbn [Z.add Z.sub Z.eqb Z.opp Z.pos_sub]. 
  rewrite length_append_s. cbn [String.length]. lia.
Qed.

Lemma strip_object (inner : string) :
  strip ("{" ++ inner ++ "}") = "{" ++ inner ++ "}".
Proof.
  unfold strip. cbn [append lstrip]. change (is_space "{") with false. cbn iota.
  change (String "{" (inner ++ "}")) with (("{" ++ inner) ++ String "}" "").
  now rewrite rstrip_keep.
Qed.

Lemma receipt_of_data_text (data : json) (t t' : string) :
  receipt_of_data data t =
  match receipt_of_data data t' with
  | Ok r => Ok (set_raw_text r t)
  | Raise e => Raise e
  end.
Proof.
  unfold receipt_of_data.
  repeat match goal with
  | |- context [bind ?r _] => destruct r; cbn [bind]; try reflexivity
  end.
Qed.

Lemma receipt_json_object (prose inner tail : string) :
  find_char "{" prose = None -> nested inner ->
  (prose = "" /\ tail = "" \/
   loads (strip (prose ++ ("{" ++ inner ++ "}") ++ tail)) = Raise JSONDecodeError) ->
  receipt_json (prose ++ ("{" ++ inner ++ "}") ++ tail) =
  data <- loads ("{" ++ inner ++ "}") ;; Ok (inl data).
Proof.
  intros Hprose Hn H. unfold receipt_json.
  assert (Hsecond :
    match find_char "{" (prose ++ ("{" ++ inner ++ "}") ++ tail) with
    | None => Ok (inr (ReceiptData_default (prose ++ ("{" ++ inner ++ "}") ++ tail)))
    | Some start_idx =>
        let tl := skipn start_idx (prose ++ ("{" ++ inner ++ "}") ++ tail) in
        data <- loads (firstn (matching_end tl 0 O) tl) ;; Ok (inl data)
    end = (data <- loads ("{" ++ inner ++ "}") ;; Ok (inl data))).
  { change (("{" ++ inner ++ "}") ++ tail)
      with (String "{" ((inner ++ "}") ++ tail)).
    rewrite (find_char_app "{" prose _ Hprose). cbv zeta.
    rewrite skipn_app.
    change (String "{" ((inner ++ "}") ++ tail))
      with (("{" ++ inner ++ "}") ++ tail).
    rewrite (matching_end_object inner tail Hn), firstn_append. reflexivity. }
  destruct H as [[-> ->] | H].
  - cbn [append]. rewrite append_nil_r_s.
    change (String "{" (inner ++ "}")) with ("{" ++ inner ++ "}").
    rewrite strip_object.
    destruct (loads ("{" ++ inner ++ "}")) as [data|e] eqn:E; [reflexivity |].
    rewrite (loads_raises _ _ E) in *.
    cbn [append] in Hsecond. rewrite append_nil_r_s in Hsecond.
    change (String "{" (inner ++ "}")) with ("{" ++ inner ++ "}") in Hsecond.
    exact Hsecond.
  - rewrite H. exact Hsecond.
Qed.

(** X21.  A JSON object with nested braces that stands in other text, after
    a prose without opening brace, is read as if it stood alone: the text
    from the first opening brace to the brace that closes it is decoded, and
    only the raw text differs. *)
Theorem receipt_object_in_prose :
  forall (prose inner tail : string),
  find_char "{" prose = None ->
  nested inner ->
  loads (strip (prose ++ ("{" ++ inner ++ "}") ++ tail)) = Raise JSONDecodeError ->
  parse_receipt_response (prose ++ ("{" ++ inner ++ "}") ++ tail)
  = set_raw_text (parse_receipt_response ("{" ++ inner ++ "}"))
                 (prose ++ ("{" ++ inner ++ "}") ++ tail).
Proof.
  intros prose inner tail Hprose Hn Hraise.
  unfold parse_receipt_response.
  rewrite (receipt_json_object prose inner tail Hprose Hn (or_intror Hraise)).
  pose proof (receipt_json_object "" inner "" eq_refl Hn
                (or_introl (conj eq_refl eq_refl))) as Hobj.
  cbn [append] in Hobj. rewrite append_nil_r_s in Hobj.
  change (String "{" (inner ++ "}")) with ("{" ++ inner ++ "}") in Hobj.
  rewrite Hobj.
  destruct (loads ("{" ++ inner ++ "}")) as [data|e]; cbn [bind]; [| reflexivity].
  rewrite (receipt_of_data_text data _ ("{" ++ inner ++ "}")).
  now destruct (receipt_of_data data ("{" ++ inner ++ "}")).
Qed.

Lemma nested_plain (s : string) :
  find_char "{" s = None -> find_char "}" s = None -> nested s.
Proof.
  induction s as [|c s IH]; cbn [find_char]; [constructor |].
  destruct (Ascii.eqb c "{") eqn:E1; [discriminate |].
  destruct (Ascii.eqb c "}") eqn:E2; [discriminate |].
  destruct (find_char "{" s); [discriminate |].
  destruct (find_char "}" s); [discriminate |]. intros _ _.
  apply Ascii.eqb_neq in E1. apply Ascii.eqb_neq in E2.
  constructor; auto.
Qed.

Lemma nested_app (a b : string) : nested a -> nested b -> nested (a ++ b).
Proof.
  induction 1 as [| ch s0 Ho Hc Hs IH | a1 a2 H1 IH1 H2 IH2]; intros Hb.
  - exact Hb.
  - cbn [append]. constructor; auto.
  - rewrite !append_assoc_s. cbn [append].
    change (String "{" (a1 ++ String "}" (a2 ++ b)))
      with ("{" ++ a1 ++ "}" ++ (a2 ++ b)).
    apply nested_group; auto.
Qed.

Lemma receipt_object_in_prose_witness :
  parse_receipt_response
    ("Ini hasilnya: "
     ++ ("{" ++ (js "'store_name':'Toko A','total_amount':15000,'items':["
                 ++ "{" ++ js "'name':'Kopi','price':15000" ++ "}" ++ "]")
         ++ "}")
     ++ " Semoga membantu.")
  = set_raw_text
      (parse_receipt_response
         ("{" ++ (js "'store_name':'Toko A','total_amount':15000,'items':["
                  ++ "{" ++ js "'name':'Kopi','price':15000" ++ "}" ++ "]")
          ++ "}"))
      ("Ini hasilnya: "
       ++ ("{" ++ (js "'store_name':'Toko A','total_amount':15000,'items':["
                   ++ "{" ++ js "'name':'Kopi','price':15000" ++ "}" ++ "]")
           ++ "}")
       ++ " Semoga membantu.").
Proof.
  apply (receipt_object_in_prose "Ini hasilnya: "
           (js "'store_name':'Toko A','total_amount':15000,'items':["
            ++ "{" ++ js "'name':'Kopi','price':15000" ++ "}" ++ "]")
           " Semoga membantu.").
  - reflexivity.
  - apply nested_app; [apply nested_plain; reflexivity |].
    apply nested_group; apply nested_plain; reflexivity.
  - vm_compute. reflexivity.
Defined.

(** *** A response without opening brace *)

Lemma normal_char_no_brace (c : ascii) (toks toks' : list token) (m' : mode) :
  Ascii.eqb c "{" = false ->
  normal_char c toks = Ok (m', toks') ->
  ~ In TLBrace toks -> ~ In TLBrace toks'.
Proof.
  intros Hc. unfold normal_char. rewrite Hc.
  repeat match goal with
  | |- context [if ?b then _ else _] => destruct b
  end; intros [= <- <-] Hn; try exact Hn;
    intros [Hx | Hx]; try discriminate; now apply Hn.
Qed.

Lemma lex_no_brace (s : string) :
  find_char "{" s = None ->
  forall (m : mode) (toks out : list token),
  ~ In TLBrace toks -> lex m toks s = Ok out -> ~ In TLBrace out.
Proof.
  induction s as [|c s IH]; intros Hs m toks out Hn; cbn [lex].
  - destruct m; try discriminate.
    + intros [= Ho]. rewrite <- Ho. intros Hx. rewrite <- in_rev in Hx.
      now apply Hn.
    + intros H. injection H as Ho. rewrite <- Ho. intros Hx.
      change (In TLBrace (List.rev (TAtom (rev acc) :: toks))) in Hx.
      rewrite <- in_rev in Hx.
      destruct Hx as [Hx | Hx]; [discriminate | now apply Hn].
  - cbn [find_char] in Hs.
    destruct (Ascii.eqb c "{") eqn:Ec; [discriminate |].
    destruct (find_char "{" s) eqn:Ef; [discriminate |].
    specialize (IH eq_refl).
    destruct m as [| acc | acc | acc | acc todo v].
    + destruct (normal_char c toks) as [[m' toks']|x] eqn:E; [| discriminate].
      apply IH. eapply normal_char_no_brace; eauto.
    + destruct (is_atom_char c); [now apply IH |].
      destruct (normal_char c _) as [[m' toks']|x] eqn:E; [| discriminate].
      apply IH. eapply normal_char_no_brace; eauto.
      intros [Hx | Hx]; [discriminate | now apply Hn].
    + destruct (Ascii.eqb c dquote).
      * apply IH. intros [Hx | Hx]; [discriminate | now apply Hn].
      * destruct (Ascii.eqb c "\"); [now apply IH |].
        destruct (code c <? 32)%N; [discriminate | now apply IH].
    + destruct (Ascii.eqb c "u"); [now apply IH |].
      destruct (unescape c); [now apply IH | discriminate].
    + destruct (hex_val c); [| discriminate].
      destruct todo as [|[|k]]; now apply IH.
Qed.

Lemma read_number_not_object (a : string) (v : json) :
  read_number a = Some v -> not_object v.
Proof.
  unfold read_number.
  repeat match goal with
  | |- context [match ?x with _ => _ end] => destruct x
  end; intros H; try discriminate; injection H as <-; exact I.
Qed.

Lemma read_atom_not_object (a : string) (v : json) :
  read_atom a = Some v -> not_object v.
Proof.
  unfold read_atom.
  repeat match goal with
  | |- context [if ?b then _ else _] => destruct b
  end; try (intros [= <-]; exact I).
  apply read_number_not_object.
Qed.

Lemma feed_plain (v : json) (stack stack' : list frame) (e' : expect) :
  not_object v -> arr_only stack ->
  feed v stack = Ok (stack', e') -> arr_only stack' /\ plain_expect e'.
Proof.
  intros Hv Hs. unfold feed.
  destruct stack as [|[items|d|k] st].
  - intros [= <- <-]. split; [constructor | exact Hv].
  - intros [= <- <-]. split; [| exact I].
    inversion Hs; subst. constructor; [exact I | assumption].
  - inversion Hs; subst. contradiction.
  - inversion Hs; subst. contradiction.
Qed.

Lemma start_value_plain (t : token) (stack stack' : list frame) (e' : expect) :
  t <> TLBrace -> arr_only stack ->
  start_value t stack = Ok (stack', e') -> arr_only stack' /\ plain_expect e'.
Proof.
  intros Ht Hs. unfold start_value.
  destruct t; try discriminate; try congruence.
  - intros [= <- <-]. split; [constructor; [exact I | exact Hs] | exact I].
  - apply feed_plain; [exact I | exact Hs].
  - destruct (read_atom s) as [v|] eqn:E; [| discriminate].
    apply feed_plain; [eapply read_atom_not_object, E | exact Hs].
Qed.

Lemma parse_step_plain (t : token) (stack stack' : list frame) (e e' : expect) :
  t <> TLBrace -> arr_only stack -> plain_expect e ->
  parse_step t stack e = Ok (stack', e') -> arr_only stack' /\ plain_expect e'.
Proof.
  intros Ht Hs He. unfold parse_step.
  destruct e; try contradiction.
  - now apply start_value_plain.
  - destruct t; try (now apply start_value_plain).
    destruct stack as [|[items|d|k] st]; try (now apply start_value_plain).
    inversion Hs; subst. apply feed_plain; [exact I | assumption].
  - destruct t; try discriminate;
      destruct stack as [|[items|d|k] st]; try discriminate;
      inversion Hs; subst; try contradiction.
    + apply feed_plain; [exact I | assumption].
    + intros [= <- <-]. split; [exact Hs | exact I].
  - destruct t; discriminate.
Qed.

Lemma parse_plain (toks : list token) :
  ~ In TLBrace toks ->
  forall (stack : list frame) (e : expect) (v : json),
  arr_only stack -> plain_expect e ->
  parse toks stack e = Ok v -> not_object v.
Proof.
  induction toks as [|t toks IH]; intros Hn stack e v Hs He; cbn [parse].
  - destruct e; try discriminate. intros [= <-]. exact He.
  - destruct (parse_step t stack e) as [[stack' e']|x] eqn:E; [| discriminate].
    apply parse_step_plain in E; try assumption.
    + destruct E as [Hs' He']. apply IH; try assumption.
      intros Hx. apply Hn. now right.
    + intros ->. apply Hn. now left.
Qed.

(** A text without opening brace is not decoded to an object. *)
Lemma loads_no_brace (s : string) (v : json) :
  find_char "{" s = None -> loads s = Ok v -> not_object v.
Proof.
  intros Hs. unfold loads.
  destruct (lex MNormal [] s) as [toks|x] eqn:E; cbn [bind]; [| discriminate].
  intros H. eapply parse_plain; [| | | exact H];
    [| constructor | exact I].
  apply (lex_no_brace s Hs MNormal [] toks); [intros [] | exact E].
Qed.

Lemma find_char_prefix_none (c : ascii) (a b : string) :
  find_char c (a ++ b) = None -> find_char c a = None.
Proof.
  induction a as [|x a IH]; cbn [append find_char]; [reflexivity |].
  destruct (Ascii.eqb x c); [discriminate |].
  destruct (find_char c (a ++ b)); [discriminate |]. intros _.
  now rewrite IH.
Qed.

Lemma find_char_strip (c : ascii) (s : string) :
  find_char c s = None -> find_char c (strip s) = None.
Proof.
  intros H. apply find_char_lstrip in H. unfold strip.
  destruct (rstrip_prefix (lstrip s)) as (z & Hz).
  rewrite Hz in H. eapply find_char_prefix_none, H.
Qed.

(** X22.  A response without any opening brace gives the default receipt,
    whether it is valid JSON (a number, a text, an array) or not. *)
Theorem receipt_without_brace :
  forall response_text : string,
  find_char "{" response_text = None ->
  parse_receipt_response response_text = ReceiptData_default response_text.
Proof.
  intros t Ht. unfold parse_receipt_response, receipt_json.
  destruct (loads (strip t)) as [data|e] eqn:E.
  - cbn [bind]. apply loads_no_brace in E; [| now apply find_char_strip].
    destruct data; try contradiction; reflexivity.
  - destruct e; try reflexivity. now rewrite Ht.
Qed.

Lemma receipt_without_brace_witness :
  parse_receipt_response "[15000, 5000]" = ReceiptData_default "[15000, 5000]".
Proof.
  apply (receipt_without_brace "[15000, 5000]"). reflexivity.
Defined.

(** ** The call of the parser model *)

(** X23.  For an OCR text that is not blank, the receipt returned by
    [parse_text_with_accountant] has the OCR text as its raw text, whatever
    the remote call does, and a total other than zero only when the call
    gave a response in which the parser read that total.  For a blank text
    the remote call plays no part. *)
Theorem ocr_text_is_kept :
  forall (text : string) (remote : string -> remote_outcome),
  (strip text = "" ->
   parse_text_with_accountant text remote
   = ReceiptData_default "No text extracted from image.") /\
  (strip text <> "" ->
   raw_text (parse_text_with_accountant text remote) = Some text /\
   (total_amount (parse_text_with_accountant text remote) <> 0 ->
    exists response_text,
      remote text = RemoteContent (Some response_text) /\
      total_amount (parse_text_with_accountant text remote)
      = total_amount (parse_receipt_response response_text))).
Proof.
  intros text remote. unfold parse_text_with_accountant. split.
  - intros ->. reflexivity.
  - intros Hne. apply String.eqb_neq in Hne. rewrite Hne.
    destruct (remote text) as [|[response_text|]]; cbn [bind].
    + split; [reflexivity |]. cbn. congruence.
    + split; [reflexivity |]. intros _. exists response_text.
      split; reflexivity.
    + split; [reflexivity |]. cbn. congruence.
Qed.

Lemma ocr_text_is_kept_witness :
  parse_text_with_accountant "  " (fun _ => RemoteRaises)
  = ReceiptData_default "No text extracted from image." /\
  raw_text (parse_text_with_accountant "TOKO A TOTAL 15000"
              (fun _ => RemoteContent (Some toko_example)))
  = Some "TOKO A TOTAL 15000".
Proof.
  split.
  - apply (proj1 (ocr_text_is_kept "  " (fun _ => RemoteRaises))). reflexivity.
  - apply (proj2 (ocr_text_is_kept "TOKO A TOTAL 15000"
                    (fun _ => RemoteContent (Some toko_example)))).
    discriminate.
Defined.

(** ** Requests for a review *)

(** X24.  A message is taken for a review request exactly when its
    lowercased text holds one of the seven keywords, or one of the words
    pengeluaran, berapa and lihat followed on the same line by one of its
    companions. *)
Theorem review_request_keywords :
  forall message : string,
  is_review_request message = true <->
  some_occurs review_words (lower message) \/
  occurs_then "pengeluaran" ["bulan"; "minggu"; "hari"] (lower message) \/
  occurs_then "berapa" ["total"; "habis"; "keluar"] (lower message) \/
  occurs_then "lihat" ["data"; "pengeluaran"] (lower message).
Proof.
  intros message. unfold is_review_request, review_keywords, review_words.
  cbn [List.existsb]. rewrite !orb_true_iff.
  rewrite !lit_search, !compound_search.
  rewrite !some_occurs_cons, some_occurs_nil.
  intuition discriminate.
Qed.

Lemma review_request_keywords_witness :
  is_review_request "Berapa sih TOTAL pengeluaran?" = true.
Proof.
  apply (proj2 (review_request_keywords "Berapa sih TOTAL pengeluaran?")).
  right. right. left.
  exists "", " sih ", "total", " pengeluaran?".
  split; [simpl; tauto | split; reflexivity].
Defined.

(** ** Saving the extractions *)

Lemma save_extractions_filter create_expense (user_id : Z) (message : string)
      (l : list ExpenseExtraction) :
  forall saved data,
  save_extractions create_expense user_id message l saved data =
  save_extractions create_expense user_id message (positive_amounts l) saved data.
Proof.
  induction l as [|e l IH]; intros saved data; [reflexivity |].
  cbn [save_extractions positive_amounts filter].
  destruct (0 <? amount e) eqn:E.
  - cbn [save_extractions]. rewrite E.
    destruct (create_expense _); cbn [bind]; [apply IH | reflexivity].
  - apply IH.
Qed.

Lemma save_extractions_lengths create_expense (user_id : Z) (message : string)
      (l : list ExpenseExtraction) :
  forall saved data saved' data',
  save_extractions create_expense user_id message l saved data
  = Ok (saved', data') ->
  List.length saved' = (List.length saved + List.length (positive_amounts l))%nat /\
  List.length data' = (List.length data + List.length (positive_amounts l))%nat.
Proof.
  induction l as [|e l IH]; intros saved data saved' data';
    cbn [save_extractions positive_amounts filter].
  - intros [= <- <-]. cbn [List.length]. lia.
  - destruct (0 <? amount e).
    + destruct (create_expense _) as [row|x]; cbn [bind]; [| discriminate].
      intros H. apply IH in H. rewrite !length_app in H.
      cbn [List.length] in *. fold (positive_amounts l). lia.
    + apply IH.
Qed.

(** X25.  The loop that saves the extractions of a chat message passes to
    the database the extractions with a positive amount and no other: an
    extraction with the amount zero is skipped, without any call; and the
    number of saved expenses is the number of extractions with a positive
    amount. *)
Theorem only_positive_amounts_are_saved :
  forall (create_expense : ExpenseCreate.t -> result (list (string * json)))
         (user_id : Z) (message : string) (l : list ExpenseExtraction),
  save_extractions create_expense user_id message l [] [] =
  save_extractions create_expense user_id message (positive_amounts l) [] [] /\
  (positive_amounts l = [] ->
   save_extractions create_expense user_id message l [] [] = Ok ([], [])) /\
  (forall saved data,
     save_extractions create_expense user_id message l [] [] = Ok (saved, data) ->
     List.length saved = List.length (positive_amounts l) /\
     List.length data = List.length (positive_amounts l)).
Proof.
  intros create_expense user_id message l. split; [| split].
  - apply save_extractions_filter.
  - intros H. rewrite save_extractions_filter, H. reflexivity.
  - intros saved data H. apply save_extractions_lengths in H.
    cbn [List.length] in H. exact H.
Qed.

Lemma only_positive_amounts_are_saved_witness :
  save_extractions (fun _ => Raise APIError) 7 "beli permen"
    [mkExpenseExtraction "Permen" 0 LAINNYA NETRAL f_zero f_07c] [] []
  = Ok ([], []).
Proof.
  apply (proj1 (proj2 (only_positive_amounts_are_saved
                         (fun _ => Raise APIError) 7 "beli permen"
                         [mkExpenseExtraction "Permen" 0 LAINNYA NETRAL
                            f_zero f_07c]))).
  reflexivity.
Defined.
